(** * gobuffet: item records, prices and order totals

    A shallow embedding of the Go sources
    - [item/util/util.go]: [Price.Set], [Price.String], [copyImg], [Add],
      [Del], [Mod], [Get],
      [ParseItem];
    - [item/item.go]: [cmdDel];
    - [util] ([ImgPath], [ItemMod]);
    - [serve] ([intRE], [stoi], [getItems], [handleRoot], [itemAdd],
      [itemDel]).

    Go's [int] is taken to be 64 bits wide; strings are byte strings. *)

From Stdlib Require Import ZArith Ascii String List Lia Bool Sorted.
From stdpp Require Import base option list strings gmap.

Local Open Scope string_scope.
Local Open Scope Z_scope.

(** ** Go integers *)

Module GoInt.

Definition maxInt : Z := 9223372036854775807.
Definition minInt : Z := -9223372036854775808.

(** Two's complement wrap-around of a 64-bit signed integer. *)
Definition wrap (z : Z) : Z := (z + 2 ^ 63) mod 2 ^ 64 - 2 ^ 63.

Definition inRange (z : Z) : Prop := minInt <= z <= maxInt.

Definition add (a b : Z) : Z := wrap (a + b).
Definition mul (a b : Z) : Z := wrap (a * b).

End GoInt.

(** ** Byte strings *)

Module Str.

Definition isDigit (c : ascii) : bool :=
  ((48 <=? N_of_ascii c) && (N_of_ascii c <=? 57))%N.

Definition digitVal (c : ascii) : Z := Z.of_N (N_of_ascii c) - 48.

Definition digitChar (d : Z) : ascii := ascii_of_N (Z.to_N (d + 48)).

Fixpoint allDigits (s : string) : bool :=
  match s with
  | EmptyString => true
  | String c s' => isDigit c && allDigits s'
  end.

(** [strings.Repeat(s, n)] for [n >= 0]. *)
Fixpoint Repeat (s : string) (n : nat) : string :=
  match n with
  | O => ""
  | S n' => s +:+ Repeat s n'
  end.

(** [strings.Replace(s, old, "", 1)] where [old] is the one byte [c]: the
    first occurrence of [c] is dropped. *)
Fixpoint dropFirst (c : ascii) (s : string) : string :=
  match s with
  | EmptyString => ""
  | String a s' => if Ascii.eqb a c then s' else String a (dropFirst c s')
  end.

(** [strings.Join(l, sep)]. *)
Fixpoint Join (l : list string) (sep : string) : string :=
  match l with
  | [] => ""
  | [x] => x
  | x :: l' => x +:+ sep +:+ Join l' sep
  end.

(** [s[:n]] and [s[n:]]. *)
Fixpoint take (n : nat) (s : string) : string :=
  match n, s with
  | S n', String c s' => String c (take n' s')
  | _, _ => ""
  end.

Fixpoint drop (n : nat) (s : string) : string :=
  match n, s with
  | S n', String _ s' => drop n' s'
  | _, _ => s
  end.

End Str.

(** ** A backtracking matcher for the regular expressions of the sources

    Go's [regexp] package returns, among the matches that start leftmost,
    the one a backtracking matcher finds first.  [rx] is that matcher in
    continuation-passing style; the continuation receives whether the
    position is the start of the text, the remaining text and the submatches
    recorded so far. *)

Module Regexp.

Inductive regex : Type :=
| RChar (c : ascii)              (* a literal byte *)
| RRange (lo hi : ascii)         (* [lo-hi] *)
| RBol                           (* ^ *)
| REol                           (* $ *)
| RCat (r1 r2 : regex)           (* r1 r2 *)
| RAlt (r1 r2 : regex)           (* r1|r2 *)
| RStar (r : regex)              (* r* *)
| ROpt (r : regex)               (* r? *)
| RGroup (i : nat) (r : regex).  (* ( r ), the i-th capturing group *)

Definition caps : Type := list (nat * string).

Fixpoint getCap (i : nat) (cs : caps) : string :=
  match cs with
  | [] => ""
  | (j, s) :: cs' => if Nat.eqb i j then s else getCap i cs'
  end.

Definition inRange (lo hi c : ascii) : bool :=
  ((N_of_ascii lo <=? N_of_ascii c) && (N_of_ascii c <=? N_of_ascii hi))%N.

(** The part of [s] consumed when [s'] is what remains of it. *)
Definition consumed (s s' : string) : string :=
  Str.take (String.length s - String.length s') s.

Section Matcher.
Context {R : Type}.

Definition cont : Type := bool -> string -> caps -> option R.

(** [r*], greedy: one more [r] that consumes something, then again; if the
    rest of the match fails that way, stop here. *)
Fixpoint star (m : bool -> string -> caps -> cont -> option R) (k : cont)
  (fuel : nat) (bol : bool) (s : string) (cs : caps) : option R :=
  match fuel with
  | O => k bol s cs
  | S fuel' =>
      match m bol s cs
              (fun b' s' cs' =>
                 if (String.length s' <? String.length s)%nat
                 then star m k fuel' b' s' cs' else None) with
      | Some x => Some x
      | None => k bol s cs
      end
  end.

Fixpoint rx (r : regex) (bol : bool) (s : string) (cs : caps) (k : cont)
  {struct r} : option R :=
  match r with
  | RChar c =>
      match s with
      | String a s' => if Ascii.eqb a c then k false s' cs else None
      | EmptyString => None
      end
  | RRange lo hi =>
      match s with
      | String a s' => if inRange lo hi a then k false s' cs else None
      | EmptyString => None
      end
  | RBol => if bol then k bol s cs else None
  | REol => match s with EmptyString => k bol s cs | _ => None end
  | RCat r1 r2 => rx r1 bol s cs (fun b' s' cs' => rx r2 b' s' cs' k)
  | RAlt r1 r2 =>
      match rx r1 bol s cs k with
      | Some x => Some x
      | None => rx r2 bol s cs k
      end
  | ROpt r1 =>
      match rx r1 bol s cs k with
      | Some x => Some x
      | None => k bol s cs
      end
  | RStar r1 => star (rx r1) k (String.length s) bol s cs
  | RGroup i r1 =>
      rx r1 bol s cs (fun b' s' cs' => k b' s' ((i, consumed s s') :: cs'))
  end.

End Matcher.

(** The leftmost match: the whole match and the submatches. *)
Fixpoint findFrom (r : regex) (bol : bool) (s : string)
  : option (string * caps) :=
  match rx r bol s [] (fun _ s' cs => Some (consumed s s', cs)) with
  | Some m => Some m
  | None =>
      match s with
      | EmptyString => None
      | String _ s' => findFrom r false s'
      end
  end.

(** [Regexp.FindString]: the text of the leftmost match, [""] if none. *)
Definition FindString (r : regex) (s : string) : string :=
  match findFrom r true s with
  | Some (m, _) => m
  | None => ""
  end.

(** [Regexp.FindStringSubmatch] for an expression with two groups:
    [nil], or the match followed by the text of groups 1 and 2 (a group that
    took no part in the match gives [""]). *)
Definition FindStringSubmatch (r : regex) (s : string) : option (list string) :=
  match findFrom r true s with
  | Some (m, cs) => Some [m; getCap 1 cs; getCap 2 cs]
  | None => None
  end.

End Regexp.

(** ** strconv *)

Module Strconv.

Inductive NumError : Type := ErrSyntax | ErrRange.

Fixpoint digitsVal (acc : Z) (s : string) : Z :=
  match s with
  | EmptyString => acc
  | String c s' => digitsVal (acc * 10 + Str.digitVal c) s'
  end.

Definition maxUint64 : Z := 18446744073709551615.

(** The loop of [strconv.ParseUint] in base 10 and 64 bits, with [n] the
    value read so far: a byte that is no digit is a syntax error; a digit
    that would take the value over [maxUint64] ends the reading with
    [maxUint64] and a range error, whatever follows it. *)
Fixpoint parseUint (n : Z) (s : string) : Z * option NumError :=
  match s with
  | EmptyString => (n, None)
  | String c s' =>
      if Str.isDigit c then
        if maxUint64 / 10 + 1 <=? n then (maxUint64, Some ErrRange)
        else
          let n1 := n * 10 + Str.digitVal c in
          if maxUint64 <? n1 then (maxUint64, Some ErrRange)
          else parseUint n1 s'
      else (0, Some ErrSyntax)
  end.

Definition ParseUint (s : string) : Z * option NumError :=
  if (String.length s =? 0)%nat then (0, Some ErrSyntax) else parseUint 0 s.

(** [strconv.Atoi], that is [strconv.ParseInt(s, 10, 0)] (the fast path of
    [Atoi] for short texts returns the same): an optional sign, then
    [ParseUint]; a syntax error of [ParseUint] is returned with 0, a value
    outside the 64-bit range gives the nearest bound and [ErrRange]. *)
Definition Atoi (s : string) : Z * option NumError :=
  if (String.length s =? 0)%nat then (0, Some ErrSyntax)
  else
    let '(neg, ds) :=
      match s with
      | String c s' =>
          if Ascii.eqb c "+" then (false, s')
          else if Ascii.eqb c "-" then (true, s')
          else (false, s)
      | EmptyString => (false, s)
      end in
    match ParseUint ds with
    | (_, Some ErrSyntax) => (0, Some ErrSyntax)
    | (un, _) =>
        if negb neg && (- GoInt.minInt <=? un) then
          (GoInt.maxInt, Some ErrRange)
        else if neg && (- GoInt.minInt <? un) then
          (GoInt.minInt, Some ErrRange)
        else (if neg then - un else un, None)
    end.

Fixpoint utoa (fuel : nat) (n : Z) (acc : string) : string :=
  match fuel with
  | O => acc
  | S fuel' =>
      let acc' := String (Str.digitChar (n mod 10)) acc in
      if n <? 10 then acc' else utoa fuel' (n / 10) acc'
  end.

(** [strconv.Itoa]: decimal digits, with a leading [-] for a negative
    value. *)
Definition Itoa (n : Z) : string :=
  if n <? 0 then String "-" (utoa (S (Z.to_nat (Z.log2 (- n)))) (- n) "")
  else utoa (S (Z.to_nat (Z.log2 n))) n "".

End Strconv.

(** ** Price *)

Module Price.
Import Regexp.

(** [priceRE = ^([1-9][0-9]*|0)(\.[0-9][0-9]?)?$] *)
Definition priceRE : regex :=
  RCat RBol
    (RCat (RGroup 1 (RAlt (RCat (RRange "1" "9") (RStar (RRange "0" "9")))
                          (RChar "0")))
       (RCat (ROpt (RGroup 2 (RCat (RChar ".")
                                (RCat (RRange "0" "9")
                                      (ROpt (RRange "0" "9"))))))
             REol)).

Inductive error : Type :=
| InvalidPrice                       (* errors.New("invalid price") *)
| AtoiError (e : Strconv.NumError).  (* the error of strconv.Atoi *)

(** [Price.Set]: the new value of [*p], or the error (then [*p] is left
    as it was). *)
Definition Set_ (s : string) : Z + error :=
  match FindStringSubmatch priceRE s with
  | None => inr InvalidPrice
  | Some match_ =>
      let subprice := Str.dropFirst "." (nth 2 match_ "") in
      let subprice :=
        subprice +:+ Str.Repeat "0" (2 - String.length subprice) in
      match Strconv.Atoi (nth 1 match_ "" +:+ subprice) with
      | (n, None) => inl n
      | (_, Some e) => inr (AtoiError e)
      end
  end.

(** [Price.String]. *)
Definition String_ (p : Z) : string :=
  let n := p in
  let n := if n <? 0 then GoInt.mul n (-1) else n in
  let s := Strconv.Itoa n in
  let s :=
    if n <? 10 then "0.0" +:+ s
    else if n <? 100 then "0." +:+ s
    else Str.take (String.length s - 2) s +:+ "." +:+
         Str.drop (String.length s - 2) s in
  if p <? 0 then "-" +:+ s else s.

End Price.

(** ** path and util *)

Module Path.

Fixpoint rev (s acc : string) : string :=
  match s with
  | EmptyString => acc
  | String c s' => rev s' (String c acc)
  end.

Fixpoint dropSlashes (s : string) : string :=
  match s with
  | String c s' => if Ascii.eqb c "/" then dropSlashes s' else s
  | EmptyString => ""
  end.

Fixpoint untilSlash (s : string) : string :=
  match s with
  | String c s' => if Ascii.eqb c "/" then "" else String c (untilSlash s')
  | EmptyString => ""
  end.

(** [path.Base]: the last element of the path, trailing slashes removed;
    ["."] for the empty path and ["/"] for a path of slashes only. *)
Definition Base (p : string) : string :=
  if (String.length p =? 0)%nat then "."
  else
    let last := rev (untilSlash (dropSlashes (rev p ""))) "" in
    if (String.length last =? 0)%nat then "/" else last.

End Path.

(** [util.ImgPath]. *)
Definition ImgPath (base : string) : string := "img/" +:+ base.

(** ** The world: asset directory and items table *)

Inductive value : Type :=
| VNull
| VInt (n : Z)
| VText (s : string).

(** A row of the table [items]. *)
Record row : Type := Row {
  r_id : Z;
  r_name : string;
  r_descr : option string;
  r_price : Z;
  r_img : option string
}.

Inductive error : Type :=
| EOsCreate      (* os.Create failed *)
| EIoCopy        (* io.Copy failed *)
| EDbBegin       (* db.Begin failed *)
| EDbQuery       (* tx.Query or tx.QueryRow failed *)
| EDbScan        (* rows.Scan failed *)
| EDbExec        (* the server refused to run the statement *)
| EDbSyntax      (* the server could not parse the statement *)
| EDbParams      (* the arguments sent do not fit the statement's $n *)
| EDbCommit      (* tx.Commit failed *)
| ErrNoRows      (* pgx.ErrNoRows *)
| ENilDeref.     (* run-time panic: nil pointer dereference *)

(** One placeholder comparison or assignment, [fld = $n]. *)
Record clause : Type := Clause { c_fld : string; c_ph : nat }.

Inductive stmt : Type :=
| SInsert (cols : list string) (vals : list nat)
| SSelect (where_ : list clause) (orderBy : string)
| SSelectImg (where_ : list clause)
| SDelete (where_ : list clause)
| SUpdate (set_ : list clause) (where_ : list clause).

Inductive event : Type :=
| OsCreate (path : string)
| IoCopy (path : string)
| OsRemove (path : string)
| DbBegin
| DbQuery (q : stmt) (args : list value)
| DbExec (q : stmt) (args : list value)
| DbCommit
| DbRollback.

Record world : Type := World {
  files : gmap string string;   (* the asset directory: path to content *)
  table : list row;             (* the rows of [items] *)
  txOpen : option (list row);   (* the open transaction: the table as it
                                   was when the transaction began *)
  trace : list event            (* what was asked of the file system and
                                   the database, oldest first *)
}.

(** What the surroundings decide in one call: the clock and which of the
    external operations go wrong. *)
Record env : Type := Env {
  now : string;          (* time.Now().Format("20060102_150405") *)
  osCreateOk : bool;
  ioCopyOk : bool;
  dbBeginOk : bool;
  dbQueryOk : bool;
  dbScanOk : bool;
  dbExecOk : bool;
  dbCommitOk : bool;
  nextId : Z;            (* the id the table's sequence hands out next *)
  collate : string -> string -> bool
                         (* the collation of the column [name]: whether
                            the first text comes no later than the second *)
}.

(** *** The text of a statement *)

Module Sql.

Definition natText (n : nat) : string := Strconv.Itoa (Z.of_nat n).

(** [fmt.Sprintf("$%v", n)] *)
Definition phText (n : nat) : string := "$" +:+ natText n.

(** [fmt.Sprintf("%v = $%v", fld, n)] *)
Definition clauseText (c : clause) : string :=
  c_fld c +:+ " = " +:+ phText (c_ph c).

Definition text (q : stmt) : string :=
  match q with
  | SInsert cols vals =>
      "INSERT INTO items (" +:+ Str.Join cols "," +:+ ") VALUES (" +:+
      Str.Join (phText <$> vals) "," +:+ ")"
  | SSelect w orderBy =>
      "SELECT id, name, descr, price, img FROM items" +:+
      (if (0 <? length w)%nat then " WHERE" else "") +:+ " " +:+
      Str.Join (clauseText <$> w) " OR " +:+ " " +:+ orderBy
  | SSelectImg w =>
      "SELECT img FROM items WHERE " +:+ Str.Join (clauseText <$> w) " OR "
  | SDelete w =>
      "DELETE FROM items WHERE " +:+ Str.Join (clauseText <$> w) " OR "
  | SUpdate st w =>
      "UPDATE items SET " +:+ Str.Join (clauseText <$> st) "," +:+
      " WHERE " +:+ Str.Join (clauseText <$> w) " OR "
  end.

End Sql.

(** *** What the server does with a statement *)

Module Db.

Definition valueEqb (a b : value) : bool :=
  match a, b with
  | VInt x, VInt y => x =? y
  | VText x, VText y => String.eqb x y
  | _, _ => false
  end.

Definition optText (o : option string) : value :=
  match o with Some s => VText s | None => VNull end.

Definition field (r : row) (fld : string) : value :=
  if String.eqb fld "id" then VInt (r_id r)
  else if String.eqb fld "name" then VText (r_name r)
  else if String.eqb fld "descr" then optText (r_descr r)
  else if String.eqb fld "price" then VInt (r_price r)
  else if String.eqb fld "img" then optText (r_img r)
  else VNull.

Definition arg (args : list value) (n : nat) : value :=
  nth (n - 1) args VNull.

(** [c1 OR c2 OR ...]: a comparison with [NULL] is never true. *)
Definition matches (w : list clause) (args : list value) (r : row) : bool :=
  existsb (fun c => valueEqb (field r (c_fld c)) (arg args (c_ph c))) w.

(** [fld = v] applied to a row; [None] when the column does not take [v]. *)
Definition assign (fld : string) (v : value) (r : row) : option row :=
  if String.eqb fld "id" then
    match v with
    | VInt n => Some (Row n (r_name r) (r_descr r) (r_price r) (r_img r))
    | _ => None
    end
  else if String.eqb fld "name" then
    match v with
    | VText s => Some (Row (r_id r) s (r_descr r) (r_price r) (r_img r))
    | _ => None
    end
  else if String.eqb fld "descr" then
    match v with
    | VText s => Some (Row (r_id r) (r_name r) (Some s) (r_price r) (r_img r))
    | VNull => Some (Row (r_id r) (r_name r) None (r_price r) (r_img r))
    | _ => None
    end
  else if String.eqb fld "price" then
    match v with
    | VInt n => Some (Row (r_id r) (r_name r) (r_descr r) n (r_img r))
    | _ => None
    end
  else if String.eqb fld "img" then
    match v with
    | VText s => Some (Row (r_id r) (r_name r) (r_descr r) (r_price r) (Some s))
    | VNull => Some (Row (r_id r) (r_name r) (r_descr r) (r_price r) None)
    | _ => None
    end
  else None.

Fixpoint assignAll (st : list (string * value)) (r : row) : option row :=
  match st with
  | [] => Some r
  | (fld, v) :: st' =>
      match assign fld v r with
      | Some r' => assignAll st' r'
      | None => None
      end
  end.

Fixpoint updateRows (st : list (string * value)) (hit : row -> bool)
  (t : list row) : option (list row) :=
  match t with
  | [] => Some []
  | r :: t' =>
      match (if hit r then assignAll st r else Some r), updateRows st hit t' with
      | Some r', Some t'' => Some (r' :: t'')
      | _, _ => None
      end
  end.

(** The row an [INSERT] makes: [name] and [price] are [NOT NULL], the other
    columns default to [NULL], [id] comes from the sequence. *)
Definition newRow (id : Z) (cols : list string) (args : list value)
  : option row :=
  match assignAll (zip cols args) (Row id "" None 0 None) with
  | Some r =>
      if existsb (String.eqb "name") cols && existsb (String.eqb "price") cols
      then Some r else None
  | None => None
  end.

Fixpoint insertBy (le : row -> row -> bool) (r : row) (l : list row)
  : list row :=
  match l with
  | [] => [r]
  | x :: l' => if le r x then r :: l else x :: insertBy le r l'
  end.

(** The rows in the order the end of a [SELECT] asks for: by ascending id
    after [ORDER BY id], by name in the collation of the column after
    [ORDER BY name], as the table has them without such a text; another
    text does not parse. *)
Definition ordered (e : env) (orderBy : string) (l : list row)
  : option (list row) :=
  if String.eqb orderBy "" then Some l
  else if String.eqb orderBy "ORDER BY id" then
    Some (fold_right (insertBy (fun a b => r_id a <=? r_id b)) [] l)
  else if String.eqb orderBy "ORDER BY name" then
    Some (fold_right (insertBy (fun a b => collate e (r_name a) (r_name b)))
                     [] l)
  else None.

(** The placeholders a statement mentions. *)
Definition placeholders (q : stmt) : list nat :=
  match q with
  | SInsert _ vals => vals
  | SSelect w _ | SSelectImg w | SDelete w => c_ph <$> w
  | SUpdate st w => (c_ph <$> st) ++ (c_ph <$> w)
  end%list.

(** The server takes [n] arguments for a statement that mentions exactly
    [$1] to [$n]: with a placeholder left out it cannot type the
    parameter, and the driver sends as many values as the statement has
    parameters. *)
Definition bindOk (q : stmt) (args : list value) : bool :=
  forallb (fun i => existsb (Nat.eqb i) (placeholders q))
          (seq 1 (length args)) &&
  forallb (fun p => (1 <=? p)%nat && (p <=? length args)%nat)
          (placeholders q).

(** An [UPDATE] needs at least one assignment after [SET]; without one the
    text does not parse. *)
Definition parseOk (q : stmt) : bool :=
  match q with
  | SUpdate [] _ => false
  | _ => true
  end.

(** What the server answers before it runs the statement. *)
Definition prepare (q : stmt) (args : list value) : option error :=
  if negb (parseOk q) then Some EDbSyntax
  else if negb (bindOk q args) then Some EDbParams
  else None.

(** A statement run on the table: the new table, or the server's error. *)
Definition run (e : env) (q : stmt) (args : list value) (t : list row)
  : list row + error :=
  match prepare q args with
  | Some err => inr err
  | None =>
      if dbExecOk e then
        match q with
        | SInsert cols _ =>
            match newRow (nextId e) cols args with
            | Some r => inl (t ++ [r])%list
            | None => inr EDbExec
            end
        | SSelect _ _ | SSelectImg _ => inl t
        | SDelete w => inl (List.filter (fun r => negb (matches w args r)) t)
        | SUpdate st w =>
            match updateRows
                    ((fun c => (c_fld c, arg args (c_ph c))) <$> st)
                    (matches w args) t with
            | Some t' => inl t'
            | None => inr EDbExec
            end
        end
      else inr EDbExec
  end.

End Db.

(** *** Calls that change the world

    A call either returns a value or an error, and leaves a world. *)

Definition M (A : Type) : Type := world -> (A + error) * world.

#[global] Instance M_ret : MRet M := fun A a w => (inl a, w).

#[global] Instance M_bind : MBind M := fun A B f m w =>
  match m w with
  | (inl a, w') => f a w'
  | (inr e, w') => (inr e, w')
  end.

Definition fail {A : Type} (e : error) : M A := fun w => (inr e, w).

(** The error of a call as a value: [err := f()] *)
Definition try {A : Type} (m : M A) : M (A + error) :=
  fun w => let '(r, w') := m w in (inl r, w').

(** [defer d; body] *)
Definition defer {A : Type} (d : M unit) (body : M A) : M A :=
  fun w => let '(r, w') := body w in let '(_, w'') := d w' in (r, w'').

Definition emit (ev : event) : M unit :=
  fun w => (inl tt, World (files w) (table w) (txOpen w) (trace w ++ [ev])%list).

Definition setFiles (f : gmap string string -> gmap string string) : M unit :=
  fun w => (inl tt, World (f (files w)) (table w) (txOpen w) (trace w)).

Definition setTable (t : list row) : M unit :=
  fun w => (inl tt, World (files w) t (txOpen w) (trace w)).

Definition setTx (tx : option (list row)) : M unit :=
  fun w => (inl tt, World (files w) (table w) tx (trace w)).

Definition getTable : M (list row) := fun w => (inl (table w), w).
Definition getTx : M (option (list row)) := fun w => (inl (txOpen w), w).

Fixpoint forEach {A : Type} (l : list A) (f : A -> M unit) : M unit :=
  match l with
  | [] => mret tt
  | x :: l' => _ ← f x; forEach l' f
  end.

Module Os.

(** [os.Create]: the file exists and is empty afterwards. *)
Definition Create (e : env) (path : string) : M unit :=
  _ ← emit (OsCreate path);
  if osCreateOk e then setFiles (insert path "") else fail EOsCreate.

(** [io.Copy] of the reader's bytes into the file at [path]. *)
Definition Copy (e : env) (path : string) (data : string) : M unit :=
  _ ← emit (IoCopy path);
  if ioCopyOk e then setFiles (insert path data) else fail EIoCopy.

(** [os.Remove] of a file of the asset directory; every caller drops its
    error, and the file is taken to be gone afterwards.  The directory
    itself is no entry of [files]: removing it leaves every file where it
    is. *)
Definition Remove (path : string) : M unit :=
  _ ← emit (OsRemove path);
  setFiles (delete path).

End Os.

Module Pgx.

Definition Exec (e : env) (q : stmt) (args : list value) : M unit :=
  _ ← emit (DbExec q args);
  t ← getTable;
  match Db.run e q args t with
  | inl t' => setTable t'
  | inr err => fail err
  end.

(** The rows a [SELECT] gives: those of the table that the conditions
    select, all of them without a condition, in the order its [ORDER BY]
    asks for. *)
Definition Query (e : env) (q : stmt) (args : list value) : M (list row) :=
  _ ← emit (DbQuery q args);
  t ← getTable;
  match Db.prepare q args with
  | Some err => fail err
  | None =>
      if dbQueryOk e then
        match q with
        | SSelect w orderBy =>
            let rows :=
              match w with
              | [] => t
              | _ :: _ => List.filter (Db.matches w args) t
              end in
            match Db.ordered e orderBy rows with
            | Some rows' => mret rows'
            | None => fail EDbSyntax
            end
        | SSelectImg w => mret (List.filter (Db.matches w args) t)
        | _ => fail EDbQuery
        end
      else fail EDbQuery
  end.

Definition Begin (e : env) : M unit :=
  _ ← emit DbBegin;
  if dbBeginOk e then t ← getTable; setTx (Some t) else fail EDbBegin.

(** [tx.Commit]: a transaction that cannot be committed is rolled back. *)
Definition Commit (e : env) : M unit :=
  _ ← emit DbCommit;
  tx ← getTx;
  match tx with
  | None => fail EDbCommit
  | Some t0 =>
      _ ← setTx None;
      if dbCommitOk e then mret tt else (_ ← setTable t0; fail EDbCommit)
  end.

(** [tx.Rollback]: nothing to do once the transaction is closed. *)
Definition Rollback : M unit :=
  _ ← emit DbRollback;
  tx ← getTx;
  match tx with
  | None => mret tt
  | Some t0 => _ ← setTx None; setTable t0
  end.

End Pgx.

(** *** What a call leaves of a file *)

Module Frame.

(** The call leaves the file at [p] as it is. *)
Definition preserves (p : string) {A : Type} (m : M A) : Prop :=
  forall w, files (snd (m w)) !! p = files w !! p.

(** The call leaves the file at [p] as it is when it returns an error. *)
Definition keepsOnError (p : string) {A : Type} (m : M A) : Prop :=
  forall w err, fst (m w) = inr err -> files (snd (m w)) !! p = files w !! p.

(** The call returns no error. *)
Definition succeeds {A : Type} (m : M A) : Prop :=
  forall w, exists a, fst (m w) = inl a.

End Frame.

(** ** item/util *)

Module ItemUtil.

(** [Img.Reader] is the bytes the reader yields; [None] is Go's [nil]. *)
Record Item : Type := mkItem {
  ID : option Z;
  Name : option string;
  Descr : option string;
  Price : option Z;
  Img_Name : option string;
  Img_Reader : option string
}.

Definition optValue {A : Type} (f : A -> value) (o : option A) : value :=
  match o with Some a => f a | None => VNull end.

Definition copyImg (e : env) (name : string) (r : option string) : M string :=
  let img := now e +:+ "_" +:+ Path.Base name in
  let path := ImgPath img in
  _ ← Os.Create e path;
  match r with
  | None => fail ENilDeref
  | Some data =>
      c ← try (Os.Copy e path data);
      match c with
      | inr err => _ ← Os.Remove path; fail err
      | inl _ => mret img
      end
  end.

Definition Add (e : env) (it : Item) : M unit :=
  let img := "" in
  let imgPath := "" in
  let cols := ["name"; "price"] in
  let vals := [1; 2]%nat in
  let args := [optValue VText (Name it); optValue VInt (Price it)] in
  let addArg (fld : string) (arg : value)
        (st : list string * list nat * list value) :=
    let '(cols, vals, args) := st in
    let cols := (cols ++ [fld])%list in
    (cols, (vals ++ [length cols])%list, (args ++ [arg])%list) in
  '(img, imgPath, st) ←
    match Img_Reader it with
    | Some _ =>
        name ← match Img_Name it with
               | Some n => mret n
               | None => fail ENilDeref
               end;
        img ← copyImg e name (Img_Reader it);
        mret (img, ImgPath img, addArg "img" (VText img) (cols, vals, args))
    | None => mret (img, imgPath, (cols, vals, args))
    end;
  let st :=
    match Descr it with
    | Some d => addArg "descr" (VText d) st
    | None => st
    end in
  let '(cols, vals, args) := st in
  r ← try (Pgx.Exec e (SInsert cols vals) args);
  match r with
  | inr err =>
      _ ← (if negb (String.eqb img "") then Os.Remove imgPath else mret tt);
      fail err
  | inl _ => mret tt
  end.

(** The closure [newArg] of [Del], [Mod] and [Get]. *)
Definition newArg (fld : string) (arg : value)
  (st : list clause * list value) : list clause * list value :=
  let '(where_, args) := st in
  ((where_ ++ [Clause fld (length where_ + 1)])%list, (args ++ [arg])%list).

Definition Del (e : env) (ids : list Z) (names : list string) : M unit :=
  if (length ids =? 0)%nat && (length names =? 0)%nat then mret tt
  else
    let st := fold_left (fun st id => newArg "id" (VInt id) st) ids ([], []) in
    let st := fold_left (fun st n => newArg "name" (VText n) st) names st in
    let '(where_, args) := st in
    _ ← Pgx.Begin e;
    defer Pgx.Rollback (
      rows ← Pgx.Query e (SSelectImg where_) args;
      _ ← (match rows with
           | [] => mret tt
           | _ :: _ => if dbScanOk e then mret tt else fail EDbScan
           end);
      let imgs := omap (fun r => ImgPath <$> r_img r) rows in
      _ ← Pgx.Exec e (SDelete where_) args;
      _ ← try (Pgx.Commit e);
      _ ← forEach imgs Os.Remove;
      mret tt).

(** [tx.QueryRow(...).Scan(&img)] with [img] a [string]: the first row's
    [img], which must not be [NULL]. *)
Definition QueryRowImg (e : env) (w : list clause) (args : list value)
  : M string :=
  rows ← Pgx.Query e (SSelectImg w) args;
  match rows with
  | [] => fail ErrNoRows
  | r :: _ =>
      match r_img r with
      | Some s => if dbScanOk e then mret s else fail EDbScan
      | None => fail EDbScan
      end
  end.

(** The closure [rmImg] of [Mod], over its variable [newImgPath]. *)
Definition rmImg (newImgPath : string) : M unit :=
  if negb (String.eqb newImgPath "") then Os.Remove newImgPath else mret tt.

(** [Mod] from [db.Begin] on, with the variables it has at that point. *)
Definition modTx (e : env) (it : Item) (set_ : list clause)
  (args : list value) (where_ : clause) (whereArg : value)
  (img newImgPath : string) : M unit :=
  _ ← Pgx.Begin e;
  defer Pgx.Rollback (
    img ←
      match Img_Name it with
      | Some _ =>
          r ← try (QueryRowImg e [where_] [whereArg]);
          match r with
          | inl s => mret s
          | inr ErrNoRows => mret img
          | inr err => _ ← rmImg newImgPath; fail err
          end
      | None => mret img
      end;
    r ← try (Pgx.Exec e (SUpdate set_ [where_]) args);
    match r with
    | inr err => _ ← rmImg newImgPath; fail err
    | inl _ =>
        _ ← try (Pgx.Commit e);
        _ ← (if negb (String.eqb img "") then Os.Remove (ImgPath img)
             else mret tt);
        mret tt
    end).

Definition Mod (e : env) (id : Z) (name : string) (it : Item) : M unit :=
  let img := "" in
  let newImgPath := "" in
  let st : list clause * list value := ([], []) in
  let st := match ID it with Some i => newArg "id" (VInt i) st | None => st end in
  let st :=
    match Name it with Some n => newArg "name" (VText n) st | None => st end in
  let st :=
    match Price it with Some p => newArg "price" (VInt p) st | None => st end in
  '(newImgPath, st) ←
    match Img_Name it with
    | Some n =>
        if String.eqb n "" then mret (newImgPath, newArg "img" VNull st)
        else
          newImg ← copyImg e n (Img_Reader it);
          let newImgPath := ImgPath img in
          mret (newImgPath, newArg "img" (VText newImg) st)
    | None => mret (newImgPath, st)
    end;
  let st :=
    match Descr it with
    | Some d =>
        if String.eqb d "" then newArg "descr" VNull st
        else newArg "descr" (VText d) st
    | None => st
    end in
  let '(set_, args) := st in
  let '(where_, whereArg) :=
    if 0 <=? id then (Clause "id" (length set_ + 1), VInt id)
    else (Clause "name" (length set_ + 1), VText name) in
  let args := (args ++ [whereArg])%list in
  modTx e it set_ args where_ whereArg img newImgPath.

Inductive Order : Type := ByID | ByName.

Definition Get (e : env) (ids : list Z) (names : list string) (ord : Order)
  : M (list Item) :=
  let st := fold_left (fun st id => newArg "id" (VInt id) st) ids ([], []) in
  let st := fold_left (fun st n => newArg "name" (VText n) st) names st in
  let '(where_, args) := st in
  let orderBy := match ord with ByID => "id" | ByName => "name" end in
  let orderBy :=
    if negb (String.eqb orderBy "") then "ORDER BY " +:+ orderBy
    else orderBy in
  rows ← Pgx.Query e (SSelect where_ orderBy) args;
  _ ← (match rows with
       | [] => mret tt
       | _ :: _ => if dbScanOk e then mret tt else fail EDbScan
       end);
  mret ((fun r => mkItem (Some (r_id r)) (Some (r_name r)) (r_descr r)
                    (Some (r_price r)) (r_img r) None)
          <$> rows).

End ItemUtil.

(** ** serve *)

Module Serve.
Import Regexp.

(** [intRE = ^0|[1-9][0-9]*$]: the alternation is the outermost operator,
    [^] belongs to its left branch and [$] to its right branch. *)
Definition intRE : regex :=
  RAlt (RCat RBol (RChar "0"))
       (RCat (RRange "1" "9") (RCat (RStar (RRange "0" "9")) REol)).

Definition stoi (s : string) : Z * option Strconv.NumError :=
  Strconv.Atoi (FindString intRE s).

Record price : Type := mkPrice { Num : Z; Str : string }.

(** The fields of [item] that the order computation reads or writes;
    [Qty] is the field [Num] of [item]. *)
Record item : Type := mkItem {
  ID : Z;
  Name : string;
  Price : price;
  Qty : Z;
  Total : price
}.

Record page : Type := mkPage {
  Checkout : bool;
  Ordered : bool;
  Delivery : price;
  PageTotal : string;
  Items : list item
}.

Inductive response : Type :=
| BadRequest
| InternalServerError (err : error)
| Rendered (p : page).

(** [r.FormValue(k)]: the first value under the key, [""] without one. *)
Fixpoint FormValue (form : list (string * string)) (k : string) : string :=
  match form with
  | [] => ""
  | (k', v) :: form' => if String.eqb k k' then v else FormValue form' k
  end.

(** [Get] fills in [ID], [Name] and [Price] of every item it returns. *)
Definition getItems (e : env) (ids : list Z) (names : list string)
  : M (list item) :=
  dbItems ← ItemUtil.Get e ids names ItemUtil.ByName;
  mret ((fun p =>
           let n := default 0 (ItemUtil.Price p) in
           mkItem (default 0 (ItemUtil.ID p)) (default "" (ItemUtil.Name p))
                  (mkPrice n (Price.String_ n)) 0 (mkPrice 0 ""))
          <$> dbItems).

(** One round of [for k := range r.PostForm]. *)
Definition orderStep (form : list (string * string))
  (st : list Z * gmap Z Z) (k : string) : list Z * gmap Z Z :=
  let '(ids, ordered) := st in
  if existsb (String.eqb k) ["name"; "contact"; "address"; "comments"]
  then st
  else
    match stoi k with
    | (_, Some _) => st
    | (id, None) =>
        let '(n, err) := stoi (FormValue form k) in
        if (n <=? 0) || (100 <? n) || bool_decide (err <> None) then st
        else ((ids ++ [id])%list, <[id := n]> ordered)
    end.

Definition orderLoop (form : list (string * string)) : list Z * gmap Z Z :=
  fold_left (orderStep form) (fst <$> form) ([], ∅).

(** One round of [for i := range page.Items], with the running [total]. *)
Definition checkoutStep (ordered : gmap Z Z) (st : list item * Z) (p : item)
  : list item * Z :=
  let '(done, total) := st in
  let num := default 0 (ordered !! ID p) in
  let totalNum := GoInt.mul (Num (Price p)) num in
  ((done ++ [mkItem (ID p) (Name p) (Price p) num
                    (mkPrice totalNum (Price.String_ totalNum))])%list,
   GoInt.add total totalNum).

(** The block under [if page.Checkout]: the items with their lines filled
    in, and [total]. *)
Definition checkout (delivery : price) (items : list item)
  (ordered : gmap Z Z) : list item * Z :=
  let '(items, total) := fold_left (checkoutStep ordered) items ([], 0) in
  (items, GoInt.add total (Num delivery)).

(** [handleRoot], from the parsed form to the page handed to the template;
    [form] lists [r.PostForm] in the order the loop visits it. *)
Definition handleRoot (e : env) (method : string)
  (form : list (string * string)) : M response :=
  let delivery := mkPrice 500 "5.00" in
  let post := String.eqb method "POST" in
  let action := FormValue form "action" in
  if post && negb (String.eqb action "order" || String.eqb action "checkout")
  then mret BadRequest
  else
    let ordered_ := post && String.eqb action "order" in
    let checkout_ := post in
    let '(ids, ordered) := if post then orderLoop form else ([], ∅) in
    r ← try (getItems e ids []);
    match r with
    | inr err => mret (InternalServerError err)
    | inl items =>
        if checkout_ then
          let '(items, total) := checkout delivery items ordered in
          mret (Rendered (mkPage checkout_ ordered_ delivery
                            (Price.String_ total) items))
        else mret (Rendered (mkPage checkout_ ordered_ delivery "" items))
    end.

End Serve.

(** ** The shape of a price, read off the text directly *)

Module PriceShape.

(** The longest prefix of digits, and the rest. *)
Fixpoint spanDigits (s : string) : string * string :=
  match s with
  | EmptyString => ("", "")
  | String c s' =>
      if Str.isDigit c then
        let '(ds, r) := spanDigits s' in (String c ds, r)
      else ("", s)
  end.

(** Nothing, or a point and one or two digits. *)
Definition fracOk (fr : string) : bool :=
  match fr with
  | EmptyString => true
  | String c fr' =>
      Ascii.eqb c "." &&
      match fr' with
      | String a EmptyString => Str.isDigit a
      | String a (String b EmptyString) => Str.isDigit a && Str.isDigit b
      | _ => false
      end
  end.

(** The integer part and the fraction (with its point) of a price. *)
Definition split (s : string) : option (string * string) :=
  match s with
  | EmptyString => None
  | String a s1 =>
      if Regexp.inRange "1" "9" a then
        let '(ds, r) := spanDigits s1 in
        if fracOk r then Some (String a ds, r) else None
      else if Ascii.eqb a "0" then
        if fracOk s1 then Some ("0", s1) else None
      else None
  end.

(** A text that does not go on with a digit. *)
Definition noDigitAhead (r : string) : Prop :=
  match r with
  | EmptyString => True
  | String c _ => Str.isDigit c = false
  end.

(** The tail of [priceRE], after the integer part. *)
Definition restRE : Regexp.regex :=
  Regexp.RCat
    (Regexp.ROpt
       (Regexp.RGroup 2
          (Regexp.RCat (Regexp.RChar ".")
             (Regexp.RCat (Regexp.RRange "0" "9")
                          (Regexp.ROpt (Regexp.RRange "0" "9"))))))
    Regexp.REol.

End PriceShape.

(** ** The price format in the words of the specification *)

Module PriceSpec.

(** An integer part: digits, without a leading zero unless it is [0]. *)
Definition IntegerPart (ip : string) : Prop :=
  ip <> "" /\ Str.allDigits ip = true /\
  (ip = "0" \/ exists c r, ip = String c r /\ c <> "0"%char).

(** Nothing, or [.] and one or two fractional digits. *)
Definition FractionPart (fr : string) : Prop :=
  fr = "" \/
  (exists a, Str.isDigit a = true /\ fr = String "." (String a "")) \/
  (exists a b, Str.isDigit a = true /\ Str.isDigit b = true /\
               fr = String "." (String a (String b ""))).

Definition WellFormed (s : string) : Prop :=
  exists ip fr, s = ip +:+ fr /\ IntegerPart ip /\ FractionPart fr.

(** The count of minor units: a one-digit fraction counts tens. *)
Definition fractionUnits (fr : string) : Z :=
  match fr with
  | String _ (String a EmptyString) => 10 * Str.digitVal a
  | String _ (String a (String b EmptyString)) =>
      10 * Str.digitVal a + Str.digitVal b
  | _ => 0
  end.

Definition minorUnits (ip fr : string) : Z :=
  100 * Strconv.digitsVal 0 ip + fractionUnits fr.

End PriceSpec.

(** ** The keys of a selection *)

Module Keys.

(** The keys of a [Del] or [Get], as column and value, ids first. *)
Definition keys (ids : list Z) (names : list string) : list (string * value) :=
  (((fun id => ("id", VInt id)) <$> ids) ++
   ((fun n => ("name", VText n)) <$> names))%list.

(** The clauses [newArg] makes of the keys when [k] clauses are there. *)
Definition clauses (k : nat) (kvs : list (string * value)) : list clause :=
  imap (fun i kv => Clause (fst kv) (k + i + 1)) kvs.

(** The row has one of the ids or one of the names. *)
Definition selects (ids : list Z) (names : list string) (r : row) : bool :=
  existsb (Z.eqb (r_id r)) ids || existsb (String.eqb (r_name r)) names.

(** The paths of the assets of the selected rows. *)
Definition assets (ids : list Z) (names : list string) (t : list row)
  : list string :=
  omap (fun r => ImgPath <$> r_img r) (List.filter (selects ids names) t).

(** The files left when those at the paths [l] are removed in turn. *)
Definition removeAll (l : list string) (f : gmap string string)
  : gmap string string :=
  fold_left (fun f p => delete p f) l f.

End Keys.

(** ** The lines of an order *)

Module Order.
Import Serve.

(** The quantity the loop found for an item: [ordered[p.ID]]. *)
Definition quantity (ordered : gmap Z Z) (p : item) : Z :=
  default 0 (ordered !! ID p).

(** The item with its line filled in. *)
Definition line (ordered : gmap Z Z) (p : item) : item :=
  let totalNum := GoInt.mul (Num (Price p)) (quantity ordered p) in
  mkItem (ID p) (Name p) (Price p) (quantity ordered p)
         (mkPrice totalNum (Price.String_ totalNum)).

Definition lineTotals (items : list item) : list Z :=
  (fun p => Num (Total p)) <$> items.

Definition sumZ (l : list Z) : Z := fold_right Z.add 0 l.

End Order.

(** ** The fraction of a formatted price *)

(** The point and the two last digits of a count of minor units. *)
Definition cents (p : Z) : string :=
  String "." (String (Str.digitChar ((p / 10) mod 10))
                     (String (Str.digitChar (p mod 10)) "")).

(** ** A shop to try the calls on *)

Module Scenario.

Definition healthy : env :=
  Env "20250102_150405" true true true true true true true 3 String.leb.

Definition commitFails : env :=
  Env "20250102_150405" true true true true true true false 3 String.leb.

Definition execFails : env :=
  Env "20250102_150405" true true true true true false true 3 String.leb.

(** Two pizzas; the second has a picture. *)
Definition shop : world :=
  World {[ "img/20240101_000000_p.png" := "OLD" ]}
        [Row 1 "margherita" None 500 None;
         Row 2 "pepperoni" (Some "hot") 1200 (Some "20240101_000000_p.png")]
        None [].

(** An update that changes no field. *)
Definition noChange : ItemUtil.Item :=
  ItemUtil.mkItem None None None None None None.

(** An update that sets a new picture. *)
Definition newImage : ItemUtil.Item :=
  ItemUtil.mkItem None None None None (Some "q.png") (Some "NEW").

(** A new pizza with a picture. *)
Definition calzone : ItemUtil.Item :=
  ItemUtil.mkItem None (Some "calzone") None (Some 900)
                  (Some "q.png") (Some "NEW").

(** The two pizzas as the storefront lists them. *)
Definition menu : list Serve.item :=
  [Serve.mkItem 1 "margherita" (Serve.mkPrice 500 "5.00") 0
                (Serve.mkPrice 0 "");
   Serve.mkItem 2 "pepperoni" (Serve.mkPrice 1200 "12.00") 0
                (Serve.mkPrice 0 "")].

End Scenario.

(** ** What the calls of item/util select and change *)

Module ItemSpec.

(** The item [Get] makes of a row: [ID], [Name] and [Price] are always
    set, and there is no reader. *)
Definition itemOfRow (r : row) : ItemUtil.Item :=
  ItemUtil.mkItem (Some (r_id r)) (Some (r_name r)) (r_descr r)
                  (Some (r_price r)) (r_img r) None.

(** The rows a [Get] asks for: all of them when it has no key. *)
Definition selected (ids : list Z) (names : list string) (t : list row)
  : list row :=
  if (length ids =? 0)%nat && (length names =? 0)%nat then t
  else List.filter (Keys.selects ids names) t.

(** The text [Get] ends its statement with. *)
Definition orderText (ord : ItemUtil.Order) : string :=
  match ord with
  | ItemUtil.ByID => "ORDER BY id"
  | ItemUtil.ByName => "ORDER BY name"
  end.

(** Whether the server puts the row [a] no later than the row [b] when it
    is asked for that order. *)
Definition before (e : env) (ord : ItemUtil.Order) (a b : row) : bool :=
  match ord with
  | ItemUtil.ByID => r_id a <=? r_id b
  | ItemUtil.ByName => collate e (r_name a) (r_name b)
  end.

(** The rows as the server returns them in that order. *)
Definition inOrder (e : env) (ord : ItemUtil.Order) (l : list row)
  : list row :=
  fold_right (Db.insertBy (before e ord)) [] l.

(** The name under which [Add] stores the image of an item. *)
Definition storedImg (e : env) (it : ItemUtil.Item) : option string :=
  match ItemUtil.Img_Reader it, ItemUtil.Img_Name it with
  | Some _, Some n => Some (now e +:+ "_" +:+ Path.Base n)
  | _, _ => None
  end.

(** The row [Mod] addresses: by id when [id >= 0], by name otherwise. *)
Definition addressed (id : Z) (name : string) (r : row) : bool :=
  if 0 <=? id then r_id r =? id else String.eqb (r_name r) name.

(** The fields of an update written over those of a row; an empty
    description clears the column, the image is left alone. *)
Definition changed (it : ItemUtil.Item) (r : row) : row :=
  Row (default (r_id r) (ItemUtil.ID it))
      (default (r_name r) (ItemUtil.Name it))
      (match ItemUtil.Descr it with
       | Some d => if String.eqb d "" then None else Some d
       | None => r_descr r
       end)
      (default (r_price r) (ItemUtil.Price it))
      (r_img r).

(** The update names at least one column other than the image. *)
Definition changesSome (it : ItemUtil.Item) : bool :=
  bool_decide (ItemUtil.ID it <> None) ||
  bool_decide (ItemUtil.Name it <> None) ||
  bool_decide (ItemUtil.Descr it <> None) ||
  bool_decide (ItemUtil.Price it <> None).

End ItemSpec.

(** ** The canonical text of a price *)

Module PriceCanon.

(** The two digits [Price.String] prints for a fraction: a missing digit
    is a zero. *)
Definition twoDigits (fr : string) : string :=
  match fr with
  | String _ (String a EmptyString) => String a "0"
  | String _ (String a (String b EmptyString)) => String a (String b "")
  | _ => "00"
  end.

End PriceCanon.

(** ** What the storefront reads *)

Module ServeSpec.

(** A numeral without a leading zero. *)
Definition numeral (m : string) : Prop :=
  exists c ds, m = String c ds /\ Regexp.inRange "1" "9" c = true /\
               Str.allDigits ds = true.

(** The item [getItems] makes of a row of the table. *)
Definition pageItem (r : row) : Serve.item :=
  Serve.mkItem (r_id r) (r_name r)
               (Serve.mkPrice (r_price r) (Price.String_ (r_price r)))
               0 (Serve.mkPrice 0 "").

End ServeSpec.

(** ** strings *)

Module Strings.

Fixpoint cutAt (sep : ascii) (s : string) : option (string * string) :=
  match s with
  | EmptyString => None
  | String c s' =>
      if Ascii.eqb c sep then Some ("", s')
      else
        match cutAt sep s' with
        | Some (before, after) => Some (String c before, after)
        | None => None
        end
  end.

(** [strings.Cut(s, sep)] for a separator of one byte: the text before and
    after its first occurrence; [(s, "", false)] without one. *)
Definition Cut (s : string) (sep : ascii) : string * string * bool :=
  match cutAt sep s with
  | Some (before, after) => (before, after, true)
  | None => (s, "", false)
  end.

End Strings.

(** ** item/util: the arguments of the commands *)

Module ItemArg.

(** [ParseItem]: the id, the name and the error. *)
Definition ParseItem (item : string) : Z * string * option Strconv.NumError :=
  let '(pre, suf, ok) := Strings.Cut item ":" in
  if ok && String.eqb pre "name" then (-1, suf, None)
  else
    match Strconv.Atoi item with
    | (id, None) => (id, "", None)
    | (_, Some Strconv.ErrSyntax) => (-1, item, None)
    | (_, Some err) => (-1, "", Some err)
    end.

End ItemArg.

(** ** item: the commands *)

Module ItemCmd.

(** Why a command ended in [util.Die]. *)
Inductive died : Type :=
| DiedArg (err : Strconv.NumError)   (* the error of ParseItem *)
| DiedConnect                        (* util.DBConnect failed *)
| DiedCall (err : error).            (* the error of the call of item/util *)

(** The loop [for _, a := range args[1:]] of [cmdDel] and [cmdShow], from
    the argument [a] on, with [ids] and [names] as they are then. *)
Fixpoint argLoop (rest : list string) (ids : list Z) (names : list string)
  : (list Z * list string) + Strconv.NumError :=
  match rest with
  | [] => inl (ids, names)
  | a :: rest' =>
      let '(id, name, err) := ItemArg.ParseItem a in
      match err with
      | Some e => inr e
      | None =>
          if 0 <=? id then argLoop rest' (ids ++ [id])%list names
          else argLoop rest' ids (names ++ [name])%list
      end
  end.

(** [cmdDel]; [args] starts with the name of the command, and [connected]
    says whether [util.DBConnect] gave a connection. *)
Definition cmdDel (e : env) (connected : bool) (args : list string)
  : world -> (unit + died) * world :=
  fun w =>
    match argLoop (List.tl args) [] [] with
    | inr err => (inr (DiedArg err), w)
    | inl (ids, names) =>
        if connected then
          match ItemUtil.Del e ids names w with
          | (inl _, w') => (inl tt, w')
          | (inr err, w') => (inr (DiedCall err), w')
          end
        else (inr DiedConnect, w)
    end.

End ItemCmd.

(** ** The bytes of a file name *)

Module Bytes.

(** The text has the byte [c]. *)
Fixpoint contains (c : ascii) (s : string) : bool :=
  match s with
  | EmptyString => false
  | String a s' => Ascii.eqb a c || contains c s'
  end.

End Bytes.

(** ** util: the calls on items of the package [util] *)

Module Util.

(** [Img.File] is the bytes the file yields; [None] is Go's [nil]. *)
Record Item : Type := mkItem {
  Name : option string;
  Descr : option string;
  Img_Name : string;
  Img_File : option string;
  Price : option Z
}.

(** [sets = append(sets, fmt.Sprintf("fld = $%v", len(sets) + 1))] and
    [args = append(args, arg)]. *)
Definition addSet (fld : string) (arg : value)
  (st : list clause * list value) : list clause * list value :=
  let '(sets, args) := st in
  ((sets ++ [Clause fld (length sets + 1)])%list, (args ++ [arg])%list).

(** [ItemMod]; the error of [strconv.Atoi], which is returned before
    anything is done, is the value [Some err], the errors of the file
    system and of the database are those of the call. *)
Definition ItemMod (e : env) (item : string) (i : Item)
  : M (option Strconv.NumError) :=
  let '(fld, cond, early) :=
    match Strconv.Atoi item with
    | (id, None) => ("id", VInt id, None)
    | (_, Some Strconv.ErrSyntax) => ("name", VText item, None)
    | (_, Some err) => ("name", VText item, Some err)
    end in
  match early with
  | Some err => mret (Some err)
  | None =>
      '(img, imgPath, st) ←
        match Img_File i with
        | Some data =>
            let img := now e +:+ "_" +:+ Path.Base (Img_Name i) in
            let imgPath := ImgPath img in
            _ ← Os.Create e imgPath;
            c ← try (Os.Copy e imgPath data);
            match c with
            | inr err => _ ← Os.Remove imgPath; fail err
            | inl _ => mret (img, imgPath, addSet "img" (VText img) ([], []))
            end
        | None => mret ("", "", ([], []))
        end;
      let st :=
        match Name i with Some n => addSet "name" (VText n) st | None => st end in
      let st :=
        match Descr i with Some d => addSet "descr" (VText d) st | None => st end in
      let st :=
        match Price i with Some p => addSet "price" (VInt p) st | None => st end in
      let '(sets, args) := st in
      if (length sets =? 0)%nat then mret None
      else
        let args := (args ++ [cond])%list in
        r ← try (Pgx.Exec e (SUpdate sets [Clause fld (length sets + 1)]) args);
        match r with
        | inr err =>
            _ ← (if negb (String.eqb img "") then Os.Remove imgPath
                 else mret tt);
            fail err
        | inl _ => mret None
        end
  end.

End Util.

(** ** serve: the forms of the administration *)

Module Admin.

Inductive status : Type :=
| StatusOK
| StatusBadRequest
| StatusInternalServerError
| StatusOf (code : nat).     (* a status [formGetFile] answers with *)

(** The errors the handlers return with the status. *)
Inductive herror : Type :=
| ErrNoName                  (* errors.New("no name") *)
| ErrInvalidPrice            (* errors.New("invalid price") *)
| ErrBadID                   (* errors.New("bad id") *)
| ErrFile                    (* the error of formGetFile *)
| ErrCall (err : error).     (* the error of the call of item/util *)

(** What [formGetFile] returns: no file in the form, the name and the bytes
    of the file, or a status and an error. *)
Inductive formFile : Type :=
| NoFile
| File (filename : string) (data : string)
| BadFile (code : nat).

(** The form's value as a pointer: [nil] when it is empty. *)
Definition nonEmpty (s : string) : option string :=
  if String.eqb s "" then None else Some s.

(** [itemAdd]; [image] is what [formGetFile(w, r, "image")] returns. *)
Definition itemAdd (e : env) (form : list (string * string))
  (image : formFile) : world -> (status * option herror) * world :=
  fun w =>
    let name := Serve.FormValue form "name" in
    if String.eqb name "" then ((StatusBadRequest, Some ErrNoName), w)
    else
      match image with
      | BadFile code => ((StatusOf code, Some ErrFile), w)
      | _ =>
          let '(imgName, imgReader) :=
            match image with
            | File filename data => (Some filename, Some data)
            | _ => (None, None)
            end in
          let descr := nonEmpty (Serve.FormValue form "descr") in
          match Price.Set_ (Serve.FormValue form "price") with
          | inr _ => ((StatusBadRequest, Some ErrInvalidPrice), w)
          | inl price =>
              let it := ItemUtil.mkItem None (Some name) descr (Some price)
                                        imgName imgReader in
              match ItemUtil.Add e it w with
              | (inr err, w') =>
                  ((StatusInternalServerError, Some (ErrCall err)), w')
              | (inl _, w') => ((StatusOK, None), w')
              end
          end
      end.

(** [itemDel]. *)
Definition itemDel (e : env) (form : list (string * string))
  : world -> (status * option herror) * world :=
  fun w =>
    match Strconv.Atoi (Serve.FormValue form "id") with
    | (_, Some _) => ((StatusBadRequest, Some ErrBadID), w)
    | (id, None) =>
        match ItemUtil.Del e [id] [] w with
        | (inr err, w') =>
            ((StatusInternalServerError, Some (ErrCall err)), w')
        | (inl _, w') => ((StatusOK, None), w')
        end
    end.

End Admin.

(** * Facts *)

(** ** The definitions on small inputs *)

Module Examples.

Example Base_file : Path.Base "dir/a.png" = "a.png".
Proof. reflexivity. Qed.

Example Base_trailing_slash : Path.Base "dir/a.png/" = "a.png".
Proof. reflexivity. Qed.

Example Base_empty : Path.Base "" = ".".
Proof. reflexivity. Qed.

Example Base_slashes : Path.Base "///" = "/".
Proof. reflexivity. Qed.

Example Atoi_plain : Strconv.Atoi "120" = (120, None).
Proof. reflexivity. Qed.

Example Atoi_empty : Strconv.Atoi "" = (0, Some Strconv.ErrSyntax).
Proof. reflexivity. Qed.

(** Digits that overflow 64 bits are a range error, whatever follows them;
    a byte that is no digit before that is a syntax error. *)
Example Atoi_overflow_first :
  Strconv.Atoi "99999999999999999999x" =
    (GoInt.maxInt, Some Strconv.ErrRange) /\
  Strconv.Atoi "9223372036854775808x" = (0, Some Strconv.ErrSyntax) /\
  Strconv.Atoi "-9223372036854775808" = (GoInt.minInt, None).
Proof. repeat split. Qed.

Example Atoi_large :
  Strconv.Atoi "9223372036854775808" = (GoInt.maxInt, Some Strconv.ErrRange).
Proof. reflexivity. Qed.

Example Itoa_negative : Strconv.Itoa (-1234) = "-1234".
Proof. reflexivity. Qed.

Example intRE_digits : Regexp.FindString Serve.intRE "42" = "42".
Proof. reflexivity. Qed.

Example intRE_leading_zero : Regexp.FindString Serve.intRE "042" = "0".
Proof. reflexivity. Qed.

Example intRE_letters : Regexp.FindString Serve.intRE "comments" = "".
Proof. reflexivity. Qed.

Example stoi_zero : Serve.stoi "0" = (0, None).
Proof. reflexivity. Qed.

Example stoi_large : Serve.stoi "101" = (101, None).
Proof. reflexivity. Qed.

Example priceRE_groups :
  Regexp.FindStringSubmatch Price.priceRE "12.5" = Some ["12.5"; "12"; ".5"].
Proof. reflexivity. Qed.

Example String_5 : Price.String_ 5 = "0.05".
Proof. reflexivity. Qed.

Example String_100 : Price.String_ 100 = "1.00".
Proof. reflexivity. Qed.

Example String_negative : Price.String_ (-1234) = "-12.34".
Proof. reflexivity. Qed.

Example insert_text :
  Sql.text (SInsert ["name"; "price"; "img"] [1; 2; 3]%nat) =
  "INSERT INTO items (name,price,img) VALUES ($1,$2,$3)".
Proof. reflexivity. Qed.

Example delete_text :
  Sql.text (SDelete (Keys.clauses 0 (Keys.keys [2; 9] ["nobody"]))) =
  "DELETE FROM items WHERE id = $1 OR id = $2 OR name = $3".
Proof. reflexivity. Qed.

Example select_all_text :
  Sql.text (SSelect [] "ORDER BY name") =
  "SELECT id, name, descr, price, img FROM items  ORDER BY name".
Proof. reflexivity. Qed.

(** The [SELECT] of [Mod] names [$2] and sends one argument. *)
Example Mod_select_params :
  Db.prepare (SSelectImg [Clause "id" 2]) [VInt 2] = Some EDbParams.
Proof. reflexivity. Qed.

Example orderLoop_drops :
  Serve.orderLoop [("name", "Ann"); ("1", "0"); ("2", "101"); ("3", "7")] =
  ([3], {[ 3 := 7 ]}).
Proof. vm_compute. reflexivity. Qed.

End Examples.

(** ** The matcher on [priceRE] *)

Module RegexpFacts.
Import Regexp PriceShape.

Lemma inRange_digit c : inRange "0" "9" c = Str.isDigit c.
Proof. reflexivity. Qed.

Lemma append_cons c (a b : string) : String c a +:+ b = String c (a +:+ b).
Proof. reflexivity. Qed.

Lemma append_nil (b : string) : "" +:+ b = b.
Proof. reflexivity. Qed.

Lemma length_append (a b : string) :
  String.length (a +:+ b) = (String.length a + String.length b)%nat.
Proof.
  induction a as [|c a IH]; [reflexivity |].
  rewrite append_cons. simpl. now rewrite IH.
Qed.

Lemma take_append (a b : string) :
  Str.take (String.length (a +:+ b) - String.length b) (a +:+ b) = a.
Proof.
  rewrite length_append.
  replace (String.length a + String.length b - String.length b)%nat
    with (String.length a) by lia.
  induction a as [|c a IH].
  - rewrite append_nil. now destruct b.
  - rewrite append_cons. simpl. now rewrite IH.
Qed.

Lemma consumed_all (s : string) : consumed s "" = s.
Proof.
  unfold consumed. simpl. rewrite Nat.sub_0_r.
  induction s as [|c s IH]; simpl; [reflexivity | now rewrite IH].
Qed.

Lemma spanDigits_append s : fst (spanDigits s) +:+ snd (spanDigits s) = s.
Proof.
  induction s as [|c s IH]; simpl; [reflexivity |].
  destruct (Str.isDigit c); [| reflexivity].
  destruct (spanDigits s) as [ds r]; simpl in *.
  rewrite append_cons. now f_equal.
Qed.

Section Star.
Context {R : Type} (k : @cont R).
Hypothesis k_digit : forall b c s cs,
  Str.isDigit c = true -> k b (String c s) cs = None.

Lemma star_digits fuel : forall s cs,
  (String.length s <= fuel)%nat ->
  star (rx (RRange "0" "9")) k fuel false s cs
  = k false (snd (spanDigits s)) cs.
Proof.
  induction fuel as [|fuel IH]; intros s cs Hlen.
  - destruct s; simpl in Hlen; [reflexivity | lia].
  - destruct s as [|a s']; [reflexivity |].
    cbn [star rx]. rewrite inRange_digit. cbn [spanDigits].
    destruct (Str.isDigit a) eqn:Ha.
    + replace (String.length s' <? String.length (String a s'))%nat with true
        by (symmetry; apply Nat.ltb_lt; simpl; lia).
      rewrite IH by (simpl in Hlen; lia).
      destruct (spanDigits s') as [ds r]; cbn [snd].
      destruct (k false r cs) eqn:Hk; [reflexivity |].
      now apply k_digit.
    + reflexivity.
Qed.

End Star.

Lemma rest_eval {R} (k : @cont R) b r cs :
  rx restRE b r cs k =
  if fracOk r then
    match r with
    | EmptyString => k b "" cs
    | _ => k false "" ((2%nat, r) :: cs)
    end
  else None.
Proof.
  destruct r as [|c [|a [|d [|x r]]]]; cbn [restRE rx fracOk];
    repeat first
      [ rewrite inRange_digit
      | match goal with
        | |- context [Ascii.eqb ?a ?b] => destruct (Ascii.eqb a b)
        | |- context [Str.isDigit ?a] => destruct (Str.isDigit a)
        end
      | progress (unfold consumed; cbn)
      | match goal with
        | |- context [match k ?x ?y ?z with _ => _ end] => destruct (k x y z)
        end ]; reflexivity.
Qed.

Lemma fracOk_digit c r : Str.isDigit c = true -> fracOk (String c r) = false.
Proof.
  intros Hc. cbn [fracOk].
  destruct (Ascii.eqb_spec c "."); [subst; discriminate | reflexivity].
Qed.

Lemma inRange19_not0 a : inRange "1" "9" a = true -> Ascii.eqb a "0" = false.
Proof.
  intros Ha. destruct (Ascii.eqb_spec a "0"); [subst; discriminate | reflexivity].
Qed.

Lemma priceRE_unfold : Price.priceRE =
  RCat RBol (RCat (RGroup 1 (RAlt (RCat (RRange "1" "9") (RStar (RRange "0" "9")))
                                  (RChar "0"))) restRE).
Proof. reflexivity. Qed.

(** Where the expression matches from the start of the text. *)
Lemma rx_priceRE {R} (k : @cont R) s :
  rx Price.priceRE true s [] k =
  match split s with
  | Some (ip, EmptyString) => k false "" [(1%nat, ip)]
  | Some (ip, fr) => k false "" [(2%nat, fr); (1%nat, ip)]
  | None => None
  end.
Proof.
  rewrite priceRE_unfold. destruct s as [|a s1]; [reflexivity |].
  cbn [rx split].
  destruct (inRange "1" "9" a) eqn:Ha.
  - rewrite (inRange19_not0 a Ha).
    match goal with
    | |- context [star ?m ?k' ?f false ?s ?c] =>
        change (star m k' f false s c)
          with (star (rx (RRange "0" "9")) k' f false s c)
    end.
    rewrite star_digits; [| | lia].
    + pose proof (spanDigits_append s1) as Happ.
      destruct (spanDigits s1) as [ds r]; cbn [fst snd] in *.
      rewrite rest_eval.
      replace (consumed (String a s1) r) with (String a ds).
      * destruct (fracOk r); [| reflexivity].
        destruct r; destruct (k false "" _); reflexivity.
      * unfold consumed. rewrite <- Happ, <- append_cons.
        now rewrite take_append.
    + intros b c s cs Hc. rewrite rest_eval.
      now rewrite fracOk_digit.
  - destruct (Ascii.eqb a "0") eqn:H0; [| reflexivity].
    rewrite rest_eval.
    apply Ascii.eqb_eq in H0; subst a.
    replace (consumed (String "0" s1) s1) with "0".
    + destruct (fracOk s1); [| reflexivity]. now destruct s1.
    + unfold consumed. change (String "0" s1) with ("0" +:+ s1).
      now rewrite take_append.
Qed.

Lemma findFrom_priceRE_false s : findFrom Price.priceRE false s = None.
Proof. induction s as [|c s IH]; [reflexivity | exact IH]. Qed.

Lemma FindStringSubmatch_priceRE s :
  FindStringSubmatch Price.priceRE s =
  match split s with
  | Some (ip, fr) => Some [s; ip; fr]
  | None => None
  end.
Proof.
  unfold FindStringSubmatch.
  replace (findFrom Price.priceRE true s) with
    (match split s with
     | Some (ip, EmptyString) => Some (s, [(1%nat, ip)])
     | Some (ip, fr) => Some (s, [(2%nat, fr); (1%nat, ip)])
     | None => None
     end).
  - destruct (split s) as [[ip [|c fr]]|]; reflexivity.
  - destruct s as [|a s1]; [reflexivity |].
    cbn [findFrom]. rewrite rx_priceRE, consumed_all, findFrom_priceRE_false.
    destruct (split (String a s1)) as [[ip [|c fr]]|]; reflexivity.
Qed.

End RegexpFacts.

Module PriceFacts.
Import Regexp PriceShape PriceSpec RegexpFacts.

Lemma Set_split s :
  Price.Set_ s =
  match split s with
  | None => inr Price.InvalidPrice
  | Some (ip, fr) =>
      let subprice := Str.dropFirst "." fr in
      let subprice :=
        subprice +:+ Str.Repeat "0" (2 - String.length subprice) in
      match Strconv.Atoi (ip +:+ subprice) with
      | (n, None) => inl n
      | (_, Some e) => inr (Price.AtoiError e)
      end
  end.
Proof.
  unfold Price.Set_. rewrite FindStringSubmatch_priceRE.
  destruct (split s) as [[ip fr]|]; reflexivity.
Qed.

Lemma inRange19_digit a : inRange "1" "9" a = true -> Str.isDigit a = true.
Proof.
  unfold inRange, Str.isDigit.
  change (N_of_ascii "1") with 49%N. change (N_of_ascii "9") with 57%N.
  rewrite !andb_true_iff, !N.leb_le. lia.
Qed.

Lemma digit_not0_inRange19 a :
  Str.isDigit a = true -> a <> "0"%char -> inRange "1" "9" a = true.
Proof.
  unfold inRange, Str.isDigit.
  change (N_of_ascii "1") with 49%N. change (N_of_ascii "9") with 57%N.
  rewrite !andb_true_iff, !N.leb_le. intros [H1 H2] Hne. split; [| lia].
  destruct (N.eq_dec (N_of_ascii a) 48%N) as [E|E]; [| lia].
  exfalso. apply Hne. rewrite <- (ascii_N_embedding a), E. reflexivity.
Qed.

Lemma spanDigits_allDigits s : Str.allDigits (fst (spanDigits s)) = true.
Proof.
  induction s as [|c s IH]; [reflexivity |]. cbn [spanDigits].
  destruct (Str.isDigit c) eqn:Hc; [| reflexivity].
  destruct (spanDigits s) as [ds r]; cbn in *. now rewrite Hc, IH.
Qed.

Lemma spanDigits_app ds r :
  Str.allDigits ds = true -> noDigitAhead r -> spanDigits (ds +:+ r) = (ds, r).
Proof.
  intros Hds Hr. induction ds as [|c ds IH].
  - rewrite append_nil. destruct r as [|c r]; [reflexivity |].
    cbn in *. now rewrite Hr.
  - rewrite append_cons. cbn in *. apply andb_true_iff in Hds as [Hc Hds].
    now rewrite Hc, IH.
Qed.

Lemma fracOk_spec fr : fracOk fr = true <-> FractionPart fr.
Proof.
  unfold FractionPart. split.
  - destruct fr as [|c [|a [|b [|x fr]]]]; cbn [fracOk]; intros H;
      rewrite ?andb_true_iff in H; try (now left);
      try (destruct H as [_ H]; discriminate).
    + destruct H as [Hc Ha]. apply Ascii.eqb_eq in Hc; subst.
      right; left. eauto.
    + destruct H as [Hc [Ha Hb]]. apply Ascii.eqb_eq in Hc; subst.
      right; right. eauto.
  - intros [-> | [(a & Ha & ->) | (a & b & Ha & Hb & ->)]]; cbn;
      now rewrite ?Ha, ?Hb.
Qed.

Lemma fracOk_noDigitAhead fr : fracOk fr = true -> noDigitAhead fr.
Proof.
  destruct fr as [|c fr]; [easy |]. cbn [fracOk noDigitAhead].
  intros H. apply andb_true_iff in H as [Hc _].
  apply Ascii.eqb_eq in Hc. now subst.
Qed.

(** [split] finds exactly the texts the specification describes. *)
Lemma split_spec s ip fr :
  split s = Some (ip, fr) <->
  s = ip +:+ fr /\ IntegerPart ip /\ FractionPart fr.
Proof.
  split.
  - destruct s as [|a s1]; [discriminate |]. cbn [split].
    destruct (inRange "1" "9" a) eqn:Ha.
    + pose proof (spanDigits_append s1) as Happ.
      pose proof (spanDigits_allDigits s1) as Hall.
      destruct (spanDigits s1) as [ds r]; cbn [fst snd] in *.
      destruct (fracOk r) eqn:Hr; [| discriminate].
      intros [= <- <-]. rewrite append_cons, Happ.
      split; [reflexivity |]. split; [| now apply fracOk_spec].
      split; [discriminate |]. split.
      * cbn. now rewrite (inRange19_digit a Ha), Hall.
      * right. exists a, ds. split; [reflexivity |].
        intros ->. discriminate.
    + destruct (Ascii.eqb_spec a "0") as [-> |]; [| discriminate].
      destruct (fracOk s1) eqn:Hr; [| discriminate].
      intros [= <- <-]. split; [reflexivity |].
      split; [| now apply fracOk_spec].
      split; [discriminate |]. split; [reflexivity | now left].
  - intros (-> & (Hne & Hall & Hlead) & Hfr).
    apply fracOk_spec in Hfr.
    destruct Hlead as [-> | (c & r & -> & Hc)].
    + change ("0" +:+ fr) with (String "0" fr). cbn [split].
      change (inRange "1" "9" "0") with false. cbn. now rewrite Hfr.
    + rewrite append_cons. cbn [split].
      cbn in Hall. apply andb_true_iff in Hall as [Hd Hall].
      rewrite (digit_not0_inRange19 c Hd Hc).
      rewrite spanDigits_app by auto using fracOk_noDigitAhead.
      now rewrite Hfr.
Qed.

Lemma split_None s : split s = None <-> ~ WellFormed s.
Proof.
  split.
  - intros H (ip & fr & Hs). apply split_spec in Hs. congruence.
  - intros H. destruct (split s) as [[ip fr]|] eqn:E; [| reflexivity].
    exfalso. apply H. exists ip, fr. now apply split_spec.
Qed.

Lemma digitsVal_app a b acc :
  Strconv.digitsVal acc (a +:+ b) = Strconv.digitsVal (Strconv.digitsVal acc a) b.
Proof.
  revert acc. induction a as [|c a IH]; intros acc; [reflexivity |].
  rewrite append_cons. cbn. apply IH.
Qed.

Lemma allDigits_app a b :
  Str.allDigits (a +:+ b) = Str.allDigits a && Str.allDigits b.
Proof.
  induction a as [|c a IH]; [reflexivity |].
  rewrite append_cons. cbn. now rewrite IH, andb_assoc.
Qed.

Lemma digit_not_sign c :
  Str.isDigit c = true -> Ascii.eqb c "+" = false /\ Ascii.eqb c "-" = false.
Proof.
  intros Hc. split.
  - destruct (Ascii.eqb_spec c "+"); [subst; discriminate | reflexivity].
  - destruct (Ascii.eqb_spec c "-"); [subst; discriminate | reflexivity].
Qed.

Lemma digitVal_range c : Str.isDigit c = true -> 0 <= Str.digitVal c <= 9.
Proof.
  unfold Str.isDigit, Str.digitVal. intros H.
  apply andb_true_iff in H as [H1 H2].
  apply N.leb_le in H1, H2. lia.
Qed.

Lemma digitsVal_ge ds : forall acc,
  Str.allDigits ds = true -> 0 <= acc -> acc <= Strconv.digitsVal acc ds.
Proof.
  induction ds as [|c ds IH]; intros acc Hd Hacc; [cbn; lia |].
  cbn in Hd. apply andb_true_iff in Hd as [Hc Hd].
  pose proof (digitVal_range c Hc).
  cbn [Strconv.digitsVal].
  specialize (IH (acc * 10 + Str.digitVal c) Hd ltac:(lia)). lia.
Qed.

Lemma digitsVal_nonneg ds : forall acc,
  Str.allDigits ds = true -> 0 <= acc -> 0 <= Strconv.digitsVal acc ds.
Proof.
  intros acc Hd Hacc. pose proof (digitsVal_ge ds acc Hd Hacc). lia.
Qed.

(** The loop of [ParseUint] on a text of digits. *)
Lemma parseUint_digits ds : forall n,
  Str.allDigits ds = true -> 0 <= n <= Strconv.maxUint64 ->
  Strconv.parseUint n ds =
  if Strconv.digitsVal n ds <=? Strconv.maxUint64
  then (Strconv.digitsVal n ds, None)
  else (Strconv.maxUint64, Some Strconv.ErrRange).
Proof.
  induction ds as [|c ds IH]; intros n Hd Hn.
  - cbn. now replace (n <=? Strconv.maxUint64) with true
      by (symmetry; apply Z.leb_le; lia).
  - cbn in Hd. apply andb_true_iff in Hd as [Hc Hd].
    pose proof (digitVal_range c Hc) as Hr.
    cbn [Strconv.parseUint Strconv.digitsVal]. rewrite Hc.
    pose proof (digitsVal_ge ds (n * 10 + Str.digitVal c) Hd ltac:(lia)) as Hge.
    change (Strconv.maxUint64 / 10 + 1) with 1844674407370955162.
    unfold Strconv.maxUint64 in *.
    destruct (Z.leb_spec 1844674407370955162 n) as [Hcut | Hcut].
    + now replace (Strconv.digitsVal (n * 10 + Str.digitVal c) ds
                   <=? 18446744073709551615) with false
        by (symmetry; apply Z.leb_gt; lia).
    + cbv zeta.
      destruct (Z.ltb_spec 18446744073709551615 (n * 10 + Str.digitVal c))
        as [Hov | Hov].
      * now replace (Strconv.digitsVal (n * 10 + Str.digitVal c) ds
                     <=? 18446744073709551615) with false
          by (symmetry; apply Z.leb_gt; lia).
      * apply IH; [exact Hd | lia].
Qed.

(** [Atoi] on a text of digits. *)
Lemma Atoi_digits ds :
  ds <> "" -> Str.allDigits ds = true ->
  Strconv.Atoi ds =
  if Strconv.digitsVal 0 ds <=? GoInt.maxInt
  then (Strconv.digitsVal 0 ds, None)
  else (GoInt.maxInt, Some Strconv.ErrRange).
Proof.
  intros Hne Hall. destruct ds as [|c r]; [congruence |].
  unfold Strconv.Atoi, Strconv.ParseUint.
  pose proof Hall as Hall'. cbn [Str.allDigits] in Hall'.
  apply andb_true_iff in Hall' as [Hc _].
  destruct (digit_not_sign c Hc) as [-> ->].
  change (String.length (String c r) =? 0)%nat with false.
  cbv iota beta.
  rewrite parseUint_digits by (try exact Hall; unfold Strconv.maxUint64; lia).
  pose proof (digitsVal_nonneg (String c r) 0 Hall ltac:(lia)) as Hnn.
  set (v := Strconv.digitsVal 0 (String c r)) in *.
  unfold Strconv.maxUint64, GoInt.minInt, GoInt.maxInt. cbn [negb andb].
  destruct (Z.leb_spec v 18446744073709551615) as [Hu | Hu].
  - destruct (Z.leb_spec (- -9223372036854775808) v) as [Hi | Hi].
    + now replace (v <=? 9223372036854775807) with false
        by (symmetry; apply Z.leb_gt; lia).
    + now replace (v <=? 9223372036854775807) with true
        by (symmetry; apply Z.leb_le; lia).
  - now replace (v <=? 9223372036854775807) with false
      by (symmetry; apply Z.leb_gt; lia).
Qed.

Lemma Set_wellformed ip fr :
  IntegerPart ip -> FractionPart fr ->
  Price.Set_ (ip +:+ fr) =
  if minorUnits ip fr <=? GoInt.maxInt then inl (minorUnits ip fr)
  else inr (Price.AtoiError Strconv.ErrRange).
Proof.
  intros Hip Hfr.
  assert (Hs : split (ip +:+ fr) = Some (ip, fr)) by now apply split_spec.
  rewrite Set_split, Hs. cbv zeta.
  destruct Hip as (Hne & Hall & _).
  assert (Hsub : exists x y,
             Str.isDigit x = true /\ Str.isDigit y = true /\
             (Str.dropFirst "." fr +:+
                Str.Repeat "0" (2 - String.length (Str.dropFirst "." fr)))
             = String x (String y "") /\
             fractionUnits fr = 10 * Str.digitVal x + Str.digitVal y).
  { destruct Hfr as [-> | [(a & Ha & ->) | (a & b & Ha & Hb & ->)]].
    - exists "0"%char, "0"%char. repeat apply conj; reflexivity.
    - exists a, "0"%char. repeat apply conj; auto.
      unfold fractionUnits. change (Str.digitVal "0") with 0. lia.
    - exists a, b. repeat apply conj; auto. }
  destruct Hsub as (x & y & Hx & Hy & -> & Hu).
  rewrite Atoi_digits.
  - rewrite digitsVal_app. cbn [Strconv.digitsVal].
    unfold minorUnits. rewrite Hu.
    replace ((Strconv.digitsVal 0 ip * 10 + Str.digitVal x) * 10 + Str.digitVal y)
      with (100 * Strconv.digitsVal 0 ip + (10 * Str.digitVal x + Str.digitVal y))
      by lia.
    now destruct (_ <=? _).
  - destruct ip; [congruence | discriminate].
  - rewrite allDigits_app, Hall. cbn. now rewrite Hx, Hy.
Qed.

Lemma Set_illformed s : ~ WellFormed s -> Price.Set_ s = inr Price.InvalidPrice.
Proof. intros H. apply split_None in H. now rewrite Set_split, H. Qed.

End PriceFacts.

(** ** Go integers *)

Module GoIntFacts.

Lemma wrap_add_l a b : GoInt.wrap (GoInt.wrap a + b) = GoInt.wrap (a + b).
Proof.
  unfold GoInt.wrap. f_equal.
  replace ((a + 2 ^ 63) mod 2 ^ 64 - 2 ^ 63 + b + 2 ^ 63)
    with ((a + 2 ^ 63) mod 2 ^ 64 + b) by lia.
  rewrite Z.add_mod_idemp_l by lia. f_equal. lia.
Qed.

Lemma wrap_inRange z : GoInt.inRange z -> GoInt.wrap z = z.
Proof.
  unfold GoInt.inRange, GoInt.wrap, GoInt.minInt, GoInt.maxInt. intros H.
  rewrite Z.mod_small by lia. lia.
Qed.

End GoIntFacts.

(** ** Decimal digits *)

Module ItoaFacts.
Import Strconv RegexpFacts.

Lemma append_assoc (a b c : string) : (a +:+ b) +:+ c = a +:+ (b +:+ c).
Proof.
  induction a as [|x a IH]; [reflexivity |].
  rewrite !append_cons. now rewrite IH.
Qed.

Lemma digitChar_spec d :
  0 <= d < 10 ->
  Str.digitVal (Str.digitChar d) = d /\ Str.isDigit (Str.digitChar d) = true.
Proof.
  intros Hd. unfold Str.digitVal, Str.isDigit, Str.digitChar.
  rewrite N_ascii_embedding by lia.
  split; [lia |]. apply andb_true_iff. split; apply N.leb_le; lia.
Qed.

Lemma digitChar_not0 d : 1 <= d < 10 -> Str.digitChar d <> "0"%char.
Proof.
  intros Hd E. destruct (digitChar_spec d ltac:(lia)) as [Hv _].
  rewrite E in Hv. change (Str.digitVal "0") with 0 in Hv. lia.
Qed.

Lemma log2_div10 n : 10 <= n -> Z.log2 (n / 10) < Z.log2 n.
Proof.
  intros Hn.
  assert (H1 : Z.log2 (n / 10) <= Z.log2 (n / 2)).
  { apply Z.log2_le_mono. apply Z.div_le_compat_l; lia. }
  assert (H2 : Z.log2 (2 * (n / 2)) = Z.succ (Z.log2 (n / 2))).
  { apply Z.log2_double. apply Z.div_str_pos. lia. }
  assert (H3 : Z.log2 (2 * (n / 2)) <= Z.log2 n).
  { apply Z.log2_le_mono. apply Z.mul_div_le. lia. }
  lia.
Qed.

Lemma utoa_app fuel : forall n acc, utoa fuel n acc = utoa fuel n "" +:+ acc.
Proof.
  induction fuel as [|fuel IH]; intros n acc; [reflexivity |].
  cbn [utoa]. destruct (n <? 10); [reflexivity |].
  rewrite IH, (IH _ (String _ "")). now rewrite append_assoc.
Qed.

Lemma utoa_fuel f1 : forall f2 n acc,
  0 <= n -> Z.log2 n < Z.of_nat f1 -> Z.log2 n < Z.of_nat f2 ->
  utoa f1 n acc = utoa f2 n acc.
Proof.
  induction f1 as [|f1 IH]; intros f2 n acc Hn H1 H2.
  - pose proof (Z.log2_nonneg n). lia.
  - destruct f2 as [|f2]; [pose proof (Z.log2_nonneg n); lia |].
    cbn [utoa]. destruct (n <? 10) eqn:Hlt; [reflexivity |].
    apply Z.ltb_ge in Hlt. pose proof (log2_div10 n Hlt).
    apply IH; [apply Z.div_pos; lia | lia | lia].
Qed.

Lemma Itoa_small n : 0 <= n < 10 -> Itoa n = String (Str.digitChar n) "".
Proof.
  intros Hn. unfold Itoa.
  replace (n <? 0) with false by (symmetry; apply Z.ltb_ge; lia).
  cbn [utoa]. rewrite Z.mod_small by lia.
  now replace (n <? 10) with true by (symmetry; apply Z.ltb_lt; lia).
Qed.

Lemma Itoa_snoc n :
  10 <= n -> Itoa n = Itoa (n / 10) +:+ String (Str.digitChar (n mod 10)) "".
Proof.
  intros Hn. unfold Itoa.
  assert (0 <= n / 10) by (apply Z.div_pos; lia).
  replace (n <? 0) with false by (symmetry; apply Z.ltb_ge; lia).
  replace (n / 10 <? 0) with false by (symmetry; apply Z.ltb_ge; lia).
  set (f' := S (Z.to_nat (Z.log2 (n / 10)))).
  cbn [utoa].
  replace (n <? 10) with false by (symmetry; apply Z.ltb_ge; lia).
  rewrite utoa_app. f_equal.
  pose proof (log2_div10 n Hn). pose proof (Z.log2_nonneg (n / 10)).
  apply utoa_fuel; subst f'; lia.
Qed.

Lemma Itoa_digits : forall n, 0 <= n -> Str.allDigits (Itoa n) = true.
Proof.
  apply (Zlt_0_ind (fun n => Str.allDigits (Itoa n) = true)).
  intros n IH Hn. destruct (Z_lt_ge_dec n 10) as [Hs | Hb].
  - rewrite Itoa_small by lia. cbn.
    destruct (digitChar_spec n ltac:(lia)) as [_ ->]. reflexivity.
  - rewrite Itoa_snoc by lia. rewrite PriceFacts.allDigits_app.
    rewrite IH by (split; [apply Z.div_pos; lia | apply Z.div_lt; lia]).
    cbn. destruct (digitChar_spec (n mod 10)) as [_ ->]; [| reflexivity].
    apply Z.mod_pos_bound. lia.
Qed.

Lemma Itoa_val : forall n, 0 <= n -> digitsVal 0 (Itoa n) = n.
Proof.
  apply (Zlt_0_ind (fun n => digitsVal 0 (Itoa n) = n)).
  intros n IH Hn. destruct (Z_lt_ge_dec n 10) as [Hs | Hb].
  - rewrite Itoa_small by lia. cbn.
    destruct (digitChar_spec n ltac:(lia)) as [-> _]. reflexivity.
  - rewrite Itoa_snoc by lia. rewrite PriceFacts.digitsVal_app.
    rewrite IH by (split; [apply Z.div_pos; lia | apply Z.div_lt; lia]).
    cbn. destruct (digitChar_spec (n mod 10)) as [-> _].
    + apply Z.mod_pos_bound. lia.
    + pose proof (Z.div_mod n 10). lia.
Qed.

Lemma Itoa_lead : forall n, 0 <= n ->
  (n = 0 /\ Itoa n = "0") \/
  (0 < n /\ exists c r, Itoa n = String c r /\ c <> "0"%char).
Proof.
  apply (Zlt_0_ind (fun n =>
    (n = 0 /\ Itoa n = "0") \/
    (0 < n /\ exists c r, Itoa n = String c r /\ c <> "0"%char))).
  intros n IH Hn. destruct (Z_lt_ge_dec n 10) as [Hs | Hb].
  - destruct (Z.eq_dec n 0) as [-> | Hz]; [left; split; reflexivity |].
    right. split; [lia |]. rewrite Itoa_small by lia.
    eexists _, _. split; [reflexivity |]. apply digitChar_not0. lia.
  - right. split; [lia |]. rewrite Itoa_snoc by lia.
    destruct (IH (n / 10)) as [[Hz _] | [_ (c & r & -> & Hc)]].
    + split; [apply Z.div_pos; lia | apply Z.div_lt; lia].
    + assert (0 < n / 10) by (apply Z.div_str_pos; lia). lia.
    + rewrite append_cons. eauto.
Qed.

End ItoaFacts.

(** ** Formatting a price *)

Module FormatFacts.
Import Strconv RegexpFacts ItoaFacts PriceSpec PriceFacts.

Lemma drop_append (a b : string) :
  Str.drop (String.length (a +:+ b) - String.length b) (a +:+ b) = b.
Proof.
  rewrite length_append.
  replace (String.length a + String.length b - String.length b)%nat
    with (String.length a) by lia.
  induction a as [|c a IH]; [now destruct b |].
  rewrite append_cons. cbn. exact IH.
Qed.

Lemma Itoa_two n :
  10 <= n < 100 ->
  Itoa n = String (Str.digitChar ((n / 10) mod 10))
                  (String (Str.digitChar (n mod 10)) "").
Proof.
  intros Hn. rewrite (Itoa_snoc n) by lia.
  assert (0 <= n / 10 < 10)
    by (split; [apply Z.div_pos; lia | apply Z.div_lt_upper_bound; lia]).
  rewrite Itoa_small by assumption. rewrite (Z.mod_small (n / 10)) by lia.
  reflexivity.
Qed.

Lemma Itoa_more n :
  100 <= n ->
  Itoa n = Itoa (n / 100) +:+
           String (Str.digitChar ((n / 10) mod 10))
                  (String (Str.digitChar (n mod 10)) "").
Proof.
  intros Hn. rewrite (Itoa_snoc n) by lia.
  assert (10 <= n / 10) by (apply Z.div_le_lower_bound; lia).
  rewrite (Itoa_snoc (n / 10)) by assumption.
  rewrite Z.div_div by lia. now rewrite append_assoc.
Qed.

Lemma String_nonneg p :
  0 <= p -> Price.String_ p = Itoa (p / 100) +:+ cents p.
Proof.
  intros Hp. unfold Price.String_, cents.
  replace (p <? 0) with false by (symmetry; apply Z.ltb_ge; lia).
  destruct (p <? 10) eqn:H10; [| destruct (p <? 100) eqn:H100].
  - apply Z.ltb_lt in H10. rewrite Itoa_small by lia.
    rewrite (Z.div_small p 100), (Z.div_small p 10), (Z.mod_small p 10) by lia.
    reflexivity.
  - apply Z.ltb_ge in H10. apply Z.ltb_lt in H100.
    rewrite Itoa_two, (Z.div_small p 100) by lia. reflexivity.
  - apply Z.ltb_ge in H10. apply Z.ltb_ge in H100.
    rewrite Itoa_more by lia.
    set (ip := Itoa (p / 100)).
    set (d2 := String _ (String _ "")).
    change 2%nat with (String.length d2).
    now rewrite take_append, drop_append.
Qed.

Lemma String_neg p :
  GoInt.minInt < p < 0 -> Price.String_ p = "-" +:+ Price.String_ (- p).
Proof.
  intros Hp. unfold Price.String_.
  replace (p <? 0) with true by (symmetry; apply Z.ltb_lt; lia).
  replace (- p <? 0) with false by (symmetry; apply Z.ltb_ge; lia).
  unfold GoInt.mul. rewrite GoIntFacts.wrap_inRange.
  - replace (p * -1) with (- p) by lia. reflexivity.
  - unfold GoInt.inRange, GoInt.minInt, GoInt.maxInt in *. lia.
Qed.

Lemma Itoa_IntegerPart m : 0 <= m -> IntegerPart (Itoa m).
Proof.
  intros Hm. pose proof (Itoa_digits m Hm) as Hd.
  destruct (Itoa_lead m Hm) as [[_ E] | [_ (c & r & E & Hc)]]; rewrite E in *.
  - split; [discriminate |]. split; [reflexivity | now left].
  - split; [discriminate |]. split; [exact Hd |]. right. eauto.
Qed.

Lemma cents_FractionPart p : 0 <= p -> FractionPart (cents p).
Proof.
  intros Hp. right; right. unfold cents. eexists _, _.
  split; [| split; [| reflexivity]];
    apply digitChar_spec, Z.mod_pos_bound; lia.
Qed.

Lemma minorUnits_Itoa p : 0 <= p -> minorUnits (Itoa (p / 100)) (cents p) = p.
Proof.
  intros Hp. unfold minorUnits, cents, fractionUnits.
  rewrite Itoa_val by (apply Z.div_pos; lia).
  destruct (digitChar_spec ((p / 10) mod 10)) as [-> _];
    [apply Z.mod_pos_bound; lia |].
  destruct (digitChar_spec (p mod 10)) as [-> _];
    [apply Z.mod_pos_bound; lia |].
  pose proof (Z.div_mod p 10 ltac:(lia)).
  pose proof (Z.div_mod (p / 10) 10 ltac:(lia)).
  rewrite Z.div_div in * by lia. change (10 * 10) with 100 in *. lia.
Qed.

(** Parsing what was formatted gives the price back. *)
Lemma Set_String p :
  0 <= p <= GoInt.maxInt -> Price.Set_ (Price.String_ p) = inl p.
Proof.
  intros Hp. rewrite String_nonneg by lia.
  rewrite Set_wellformed
    by (apply Itoa_IntegerPart, Z.div_pos || apply cents_FractionPart; lia).
  rewrite minorUnits_Itoa by lia.
  now replace (p <=? GoInt.maxInt) with true by (symmetry; apply Z.leb_le; lia).
Qed.

(** The text of every price but the least integer: a sign for a negative
    value, an integer part, one point and two digits, which together count
    the magnitude. *)
Lemma String_shape p :
  GoInt.minInt < p <= GoInt.maxInt ->
  exists ip fr,
    Price.String_ p = (if p <? 0 then "-" else "") +:+ ip +:+ fr /\
    IntegerPart ip /\
    (exists a b, Str.isDigit a = true /\ Str.isDigit b = true /\
                 fr = String "." (String a (String b ""))) /\
    minorUnits ip fr = Z.abs p.
Proof.
  intros Hp.
  assert (Hab : forall q, 0 <= q ->
            exists a b, Str.isDigit a = true /\ Str.isDigit b = true /\
                        cents q = String "." (String a (String b ""))).
  { intros q Hq. unfold cents. eexists _, _.
    split; [| split; [| reflexivity]];
      apply digitChar_spec, Z.mod_pos_bound; lia. }
  destruct (p <? 0) eqn:Hneg.
  - apply Z.ltb_lt in Hneg. rewrite String_neg, String_nonneg by lia.
    exists (Itoa (- p / 100)), (cents (- p)).
    split; [reflexivity |]. split; [apply Itoa_IntegerPart, Z.div_pos; lia |].
    split; [apply Hab; lia |]. rewrite minorUnits_Itoa by lia. lia.
  - apply Z.ltb_ge in Hneg. rewrite String_nonneg by lia.
    exists (Itoa (p / 100)), (cents p).
    split; [reflexivity |]. split; [apply Itoa_IntegerPart, Z.div_pos; lia |].
    split; [apply Hab; lia |]. rewrite minorUnits_Itoa by lia. lia.
Qed.

End FormatFacts.

(** ** Reading a number off a form *)

Module StoiFacts.
Import Regexp PriceShape RegexpFacts PriceFacts ItoaFacts Serve.

Lemma spanDigits_all ds : Str.allDigits ds = true -> spanDigits ds = (ds, "").
Proof.
  intros H. induction ds as [|c ds IH]; [reflexivity |].
  cbn in *. apply andb_true_iff in H as [Hc H]. now rewrite Hc, IH.
Qed.

(** Where [intRE] matches a numeral, whether or not the text starts
    there. *)
Lemma rx_intRE_numeral {R} (k : @cont R) bol c ds :
  inRange "1" "9" c = true -> Str.allDigits ds = true ->
  rx intRE bol (String c ds) [] k = k false "" [].
Proof.
  intros Hc Hds. unfold intRE. cbn [rx].
  rewrite (inRange19_not0 c Hc), Hc.
  replace (if bol then None else None) with (@None R) by now destruct bol.
  match goal with
  | |- context [star ?m ?k' ?f false ?s ?cs] =>
      change (star m k' f false s cs)
        with (star (rx (RRange "0" "9")) k' f false s cs)
  end.
  rewrite star_digits; [| | lia].
  - now rewrite spanDigits_all.
  - intros b d s cs _. reflexivity.
Qed.

Lemma FindString_numeral c ds :
  inRange "1" "9" c = true -> Str.allDigits ds = true ->
  FindString intRE (String c ds) = String c ds.
Proof.
  intros Hc Hds. unfold FindString. cbn [findFrom].
  rewrite rx_intRE_numeral by assumption. now rewrite consumed_all.
Qed.

(** The sign before a numeral is skipped. *)
Lemma FindString_minus c ds :
  inRange "1" "9" c = true -> Str.allDigits ds = true ->
  FindString intRE (String "-" (String c ds)) = String c ds.
Proof.
  intros Hc Hds. unfold FindString. cbn [findFrom].
  replace (rx intRE true (String "-" (String c ds)) []
             (fun _ s' cs => Some (consumed (String "-" (String c ds)) s', cs)))
    with (@None (string * caps)) by reflexivity.
  rewrite rx_intRE_numeral by assumption. now rewrite consumed_all.
Qed.

(** [stoi] reads [-n] as [n]. *)
Lemma stoi_minus n :
  1 <= n <= GoInt.maxInt -> stoi ("-" +:+ Strconv.Itoa n) = (n, None).
Proof.
  intros Hn. unfold stoi.
  pose proof (Itoa_digits n ltac:(lia)) as Hd.
  pose proof (Itoa_val n ltac:(lia)) as Hv.
  destruct (Itoa_lead n ltac:(lia)) as [[? _] | [_ (c & ds & E & Hc)]]; [lia |].
  rewrite E in *. rewrite append_cons, append_nil.
  cbn [Str.allDigits] in Hd. apply andb_true_iff in Hd as [Hdc Hds].
  rewrite FindString_minus by auto using digit_not0_inRange19.
  rewrite Atoi_digits; [| discriminate | cbn; now rewrite Hdc, Hds].
  rewrite Hv.
  now replace (n <=? GoInt.maxInt) with true by (symmetry; apply Z.leb_le; lia).
Qed.

(** A quantity written [-n], with [n] from 1 to 100, is ordered as [n]. *)
Lemma orderStep_minus form st k id n :
  existsb (String.eqb k) ["name"; "contact"; "address"; "comments"] = false ->
  stoi k = (id, None) ->
  FormValue form k = "-" +:+ Strconv.Itoa n ->
  1 <= n <= 100 ->
  orderStep form st k = ((fst st ++ [id])%list, <[id := n]> (snd st)).
Proof.
  intros Hk Hid Hv Hn. destruct st as [ids ordered]. unfold orderStep.
  rewrite Hk, Hid, Hv, stoi_minus
    by (unfold GoInt.maxInt; lia).
  replace (n <=? 0) with false by (symmetry; apply Z.leb_gt; lia).
  replace (100 <? n) with false by (symmetry; apply Z.ltb_ge; lia).
  reflexivity.
Qed.

End StoiFacts.

(** ** Calls on the world *)

Ltac munfold :=
  unfold Pgx.Exec, Pgx.Query, Pgx.Begin, Pgx.Commit, Pgx.Rollback,
    Os.Create, Os.Copy, Os.Remove,
    mbind, M_bind, mret, M_ret, fail, try, defer, emit,
    setFiles, setTable, setTx, getTable, getTx in *.

Ltac mrun := munfold; cbn -[Db.run Db.prepare String.append Path.Base] in *.

Ltac mstep := cbv beta iota; cbn [files table txOpen trace fst snd].

Module FrameFacts.
Import Frame.

Section File.
Variable p : string.

Lemma bind_apply {A B} (k : A -> M B) (m : M A) w :
  (m ≫= k) w =
  match m w with
  | (inl a, w') => k a w'
  | (inr e, w') => (inr e, w')
  end.
Proof. reflexivity. Qed.

Lemma preserves_keeps {A} (m : M A) : preserves p m -> keepsOnError p m.
Proof. intros H w err _. apply H. Qed.

Lemma succeeds_keeps {A} (m : M A) : succeeds m -> keepsOnError p m.
Proof. intros H w err E. destruct (H w) as [a Ha]. congruence. Qed.

Lemma preserves_mret {A} (a : A) : preserves p (mret a).
Proof. intros w. reflexivity. Qed.

Lemma preserves_fail {A} (e : error) : preserves p (@fail A e).
Proof. intros w. reflexivity. Qed.

Lemma preserves_bind {A B} (m : M A) (k : A -> M B) :
  preserves p m -> (forall a, preserves p (k a)) -> preserves p (m ≫= k).
Proof.
  intros Hm Hk w. rewrite bind_apply. specialize (Hm w).
  destruct (m w) as [[a | e] w']; cbn [snd] in *; [| exact Hm].
  now rewrite Hk.
Qed.

Lemma keeps_bind {A B} (m : M A) (k : A -> M B) :
  preserves p m -> (forall a, keepsOnError p (k a)) ->
  keepsOnError p (m ≫= k).
Proof.
  intros Hm Hk w err. rewrite bind_apply. specialize (Hm w).
  destruct (m w) as [[a | e] w']; cbn [snd] in *; [| intros _; exact Hm].
  intros E. now rewrite (Hk a w' err E).
Qed.

Lemma preserves_try {A} (m : M A) : preserves p m -> preserves p (try m).
Proof.
  intros Hm w. unfold try. specialize (Hm w). now destruct (m w).
Qed.

Lemma keeps_defer {A} (d : M unit) (body : M A) :
  preserves p d -> keepsOnError p body -> keepsOnError p (defer d body).
Proof.
  intros Hd Hb w err. unfold defer. specialize (Hb w). specialize (Hd (snd (body w))).
  destruct (body w) as [r w']. cbn [fst snd] in *.
  destruct (d w') as [u w'']. cbn [fst snd] in *.
  intros E. rewrite Hd. eauto.
Qed.

Lemma preserves_emit ev : preserves p (emit ev).
Proof. intros w. reflexivity. Qed.

Lemma preserves_setTable t : preserves p (setTable t).
Proof. intros w. reflexivity. Qed.

Lemma preserves_setTx t : preserves p (setTx t).
Proof. intros w. reflexivity. Qed.

Lemma preserves_Begin e : preserves p (Pgx.Begin e).
Proof.
  unfold Pgx.Begin. apply preserves_bind; [apply preserves_emit | intros _].
  destruct (dbBeginOk e); [| apply preserves_fail].
  apply preserves_bind; [intros w; reflexivity | intros t; apply preserves_setTx].
Qed.

Lemma preserves_Query e q args : preserves p (Pgx.Query e q args).
Proof.
  unfold Pgx.Query. apply preserves_bind; [apply preserves_emit | intros _].
  apply preserves_bind; [intros w; reflexivity | intros t].
  destruct (Db.prepare q args); [apply preserves_fail |].
  destruct (dbQueryOk e); [| apply preserves_fail].
  destruct q as [| w o | | |];
    first [apply preserves_mret | apply preserves_fail | idtac].
  cbv zeta. destruct (Db.ordered e o _);
    [apply preserves_mret | apply preserves_fail].
Qed.

Lemma preserves_Exec e q args : preserves p (Pgx.Exec e q args).
Proof.
  unfold Pgx.Exec. apply preserves_bind; [apply preserves_emit | intros _].
  apply preserves_bind; [intros w; reflexivity | intros t].
  destruct (Db.run e q args t); [apply preserves_setTable | apply preserves_fail].
Qed.

Lemma preserves_Commit e : preserves p (Pgx.Commit e).
Proof.
  unfold Pgx.Commit. apply preserves_bind; [apply preserves_emit | intros _].
  apply preserves_bind; [intros w; reflexivity | intros [t0|]];
    [| apply preserves_fail].
  apply preserves_bind; [apply preserves_setTx | intros _].
  destruct (dbCommitOk e); [apply preserves_mret |].
  apply preserves_bind; [apply preserves_setTable | intros _; apply preserves_fail].
Qed.

Lemma preserves_Rollback : preserves p Pgx.Rollback.
Proof.
  unfold Pgx.Rollback. apply preserves_bind; [apply preserves_emit | intros _].
  apply preserves_bind; [intros w; reflexivity | intros [t0|]];
    [| apply preserves_mret].
  apply preserves_bind; [apply preserves_setTx | intros _; apply preserves_setTable].
Qed.

Lemma preserves_Remove q : q <> p -> preserves p (Os.Remove q).
Proof.
  intros Hq. unfold Os.Remove.
  apply preserves_bind; [apply preserves_emit | intros _].
  intros w. cbn. now apply lookup_delete_ne.
Qed.

Lemma succeeds_mret {A} (a : A) : succeeds (mret a).
Proof. intros w. now exists a. Qed.

Lemma succeeds_try {A} (m : M A) : succeeds (try m).
Proof. intros w. unfold try. destruct (m w) as [r w']. now exists r. Qed.

Lemma succeeds_bind {A B} (m : M A) (k : A -> M B) :
  succeeds m -> (forall a, succeeds (k a)) -> succeeds (m ≫= k).
Proof.
  intros Hm Hk w. rewrite bind_apply. destruct (Hm w) as [a Ha].
  destruct (m w) as [[a' | e] w']; cbn in Ha; [| discriminate]. apply Hk.
Qed.

Lemma succeeds_Remove q : succeeds (Os.Remove q).
Proof. intros w. now exists tt. Qed.

End File.

End FrameFacts.

Module PgxFacts.

Lemma Begin_ok e w :
  dbBeginOk e = true ->
  Pgx.Begin e w =
  (inl tt, World (files w) (table w) (Some (table w)) (trace w ++ [DbBegin])).
Proof. intros H. mrun. now rewrite H. Qed.

Lemma Query_img_ok e wh args w :
  Db.prepare (SSelectImg wh) args = None -> dbQueryOk e = true ->
  Pgx.Query e (SSelectImg wh) args w =
  (inl (List.filter (Db.matches wh args) (table w)),
   World (files w) (table w) (txOpen w)
         (trace w ++ [DbQuery (SSelectImg wh) args])).
Proof. intros Hp Hq. mrun. now rewrite Hp, Hq. Qed.

Lemma Exec_ok e q args w t' :
  Db.run e q args (table w) = inl t' ->
  Pgx.Exec e q args w =
  (inl tt, World (files w) t' (txOpen w) (trace w ++ [DbExec q args])).
Proof. intros H. mrun. now rewrite H. Qed.

Lemma Commit_result e w t0 :
  txOpen w = Some t0 ->
  Pgx.Commit e w =
  (if dbCommitOk e then inl tt else inr EDbCommit,
   World (files w) (if dbCommitOk e then table w else t0) None
         (trace w ++ [DbCommit])).
Proof. intros Ht. mrun. rewrite Ht. now destruct (dbCommitOk e). Qed.

Lemma Rollback_closed w :
  txOpen w = None ->
  Pgx.Rollback w =
  (inl tt, World (files w) (table w) None (trace w ++ [DbRollback])).
Proof. intros Ht. mrun. now rewrite !Ht. Qed.

Lemma run_delete e wh args t :
  Db.prepare (SDelete wh) args = None -> dbExecOk e = true ->
  Db.run e (SDelete wh) args t =
  inl (List.filter (fun r => negb (Db.matches wh args r)) t).
Proof. intros Hp Hx. unfold Db.run. now rewrite Hp, Hx. Qed.

Lemma forEach_Remove l : forall w,
  forEach l Os.Remove w =
  (inl tt,
   World (Keys.removeAll l (files w)) (table w) (txOpen w)
         (trace w ++ (OsRemove <$> l))).
Proof.
  induction l as [|p l IH]; intros w.
  - cbn. rewrite app_nil_r. now destruct w.
  - cbn [forEach]. rewrite FrameFacts.bind_apply.
    unfold Os.Remove at 1. mrun. rewrite IH. cbn [files table txOpen trace].
    now rewrite <- app_assoc.
Qed.

Lemma removeAll_gone l : forall f p, In p l -> Keys.removeAll l f !! p = None.
Proof.
  induction l as [|q l IH]; intros f p Hin; [destruct Hin |].
  cbn [Keys.removeAll fold_left].
  destruct (in_dec string_dec p l) as [Hl | Hl]; [now apply IH |].
  destruct Hin as [-> | Hin]; [| contradiction].
  clear IH. revert f. induction l as [|x l IH]; intros f.
  - cbn. apply lookup_delete_eq.
  - cbn [fold_left]. rewrite delete_delete. apply IH.
    intros H. apply Hl. now right.
Qed.

Lemma filter_none {A} (l : list A) : List.filter (fun _ => true) l = l.
Proof. induction l as [|x l IH]; cbn; [reflexivity | now rewrite IH]. Qed.

End PgxFacts.

(** ** The clauses of a selection *)

Module KeyFacts.
Import ItemUtil Keys.

Lemma fold_newArg kvs : forall wh ar,
  fold_left (fun st kv => newArg (fst kv) (snd kv) st) kvs (wh, ar) =
  ((wh ++ clauses (length wh) kvs)%list, (ar ++ (snd <$> kvs))%list).
Proof.
  induction kvs as [|kv kvs IH]; intros wh ar.
  - cbn. now rewrite !app_nil_r.
  - cbn [fold_left newArg]. rewrite IH. unfold clauses. cbn [imap fmap list_fmap].
    rewrite <- !app_assoc. cbn [app]. do 3 f_equal.
    + f_equal. lia.
    + apply imap_ext. intros i x _. cbn. f_equal.
      rewrite length_app. cbn. lia.
Qed.

Lemma fold_keys ids names :
  fold_left (fun st n => newArg "name" (VText n) st) names
    (fold_left (fun st id => newArg "id" (VInt id) st) ids ([], [])) =
  (clauses 0 (keys ids names), snd <$> keys ids names).
Proof.
  transitivity (fold_left (fun st kv => newArg (fst kv) (snd kv) st)
                  (keys ids names) ([], [])).
  - unfold keys. rewrite fold_left_app.
    generalize (@nil clause, @nil value).
    induction ids as [|i ids IH]; intros st; [| apply IH].
    cbn [fold_left fmap list_fmap]. revert st.
    induction names as [|n names IH]; intros st; [reflexivity | apply IH].
  - now rewrite fold_newArg.
Qed.

Lemma matches_clauses r kvs : forall pre,
  Db.matches (clauses (length pre) kvs) (pre ++ (snd <$> kvs))%list r =
  existsb (fun kv => Db.valueEqb (Db.field r (fst kv)) (snd kv)) kvs.
Proof.
  unfold Db.matches, clauses.
  induction kvs as [|kv kvs IH]; intros pre; [reflexivity |].
  cbn [imap existsb fmap list_fmap]. f_equal.
  - cbn [c_fld c_ph]. unfold Db.arg.
    replace (length pre + 0 + 1 - 1)%nat with (length pre) by lia.
    now rewrite nth_middle.
  - rewrite <- (IH (pre ++ [snd kv])%list).
    rewrite <- app_assoc. cbn [app]. f_equal.
    apply imap_ext. intros i x _. cbn. f_equal. rewrite length_app. cbn. lia.
Qed.

Lemma placeholders_clauses kvs k :
  c_ph <$> clauses k kvs = seq (k + 1) (length kvs).
Proof.
  unfold clauses. revert k. induction kvs as [|kv kvs IH]; intros k; [reflexivity |].
  cbn [imap fmap list_fmap length seq c_ph]. f_equal; [lia |].
  replace (S (k + 1)) with (S k + 1)%nat by lia.
  rewrite <- (IH (S k)). f_equal. apply imap_ext. intros i x _. cbn. f_equal. lia.
Qed.

Lemma bindOk_seq q (args : list value) :
  Db.placeholders q = seq 1 (length args) -> Db.bindOk q args = true.
Proof.
  intros Hq. unfold Db.bindOk. rewrite Hq. apply andb_true_iff. split.
  - apply forallb_forall. intros i Hi. apply existsb_exists.
    exists i. split; [exact Hi | apply Nat.eqb_refl].
  - apply forallb_forall. intros p Hp. apply in_seq in Hp.
    apply andb_true_iff. split; apply Nat.leb_le; lia.
Qed.

Lemma existsb_fmap {A B} (f : B -> bool) (g : A -> B) l :
  existsb f (g <$> l) = existsb (fun x => f (g x)) l.
Proof. induction l as [|x l IH]; cbn; [reflexivity | now rewrite IH]. Qed.

Lemma matches_keys ids names r :
  Db.matches (clauses 0 (keys ids names)) (snd <$> keys ids names) r =
  selects ids names r.
Proof.
  pose proof (matches_clauses r (keys ids names) []) as H.
  cbn [length app] in H. rewrite H.
  unfold keys, selects. rewrite existsb_app, !existsb_fmap. reflexivity.
Qed.

Lemma prepare_keys ids names :
  (length ids =? 0)%nat && (length names =? 0)%nat = false ->
  let kvs := keys ids names in
  Db.prepare (SSelectImg (clauses 0 kvs)) (snd <$> kvs) = None /\
  Db.prepare (SDelete (clauses 0 kvs)) (snd <$> kvs) = None.
Proof.
  intros _ kvs. unfold Db.prepare. cbn [Db.parseOk negb].
  rewrite !bindOk_seq; [split; reflexivity | |];
    cbn [Db.placeholders]; rewrite placeholders_clauses, length_fmap; reflexivity.
Qed.

End KeyFacts.

(** ** Add *)

Module AddFacts.
Import ItemUtil.

Lemma img_named a b : String.eqb (a +:+ "_" +:+ b) "" = false.
Proof. destruct a; reflexivity. Qed.

(** A failed [Add] leaves the table as it was and no file that was not
    there before. *)
Lemma Add_failed e it w err :
  fst (Add e it w) = inr err ->
  table (snd (Add e it w)) = table w /\
  dom (files (snd (Add e it w))) ⊆ dom (files w).
Proof.
  unfold Add, copyImg.
  destruct it as [id name descr price iname ireader].
  destruct ireader as [data|], iname as [n|], descr as [d|]; mrun;
    repeat first
      [ rewrite img_named
      | match goal with
        | |- context [if ?b then _ else _] => destruct b eqn:?
        | |- context [match Db.run ?e ?q ?a ?t with _ => _ end] =>
            destruct (Db.run e q a t) eqn:?
        end
      | progress mrun ];
    intros H; try discriminate; (split; [reflexivity |]);
    rewrite ?delete_insert_eq;
    first [reflexivity | apply subseteq_dom, delete_subseteq].
Qed.

End AddFacts.

(** ** Del *)

Module DelFacts.
Import ItemUtil Keys KeyFacts PgxFacts.

(** [Del] on a server that runs its statements: what is left depends on the
    commit alone. *)
Lemma Del_run (e : env) (w : world) (ids : list Z) (names : list string) :
  dbBeginOk e = true -> dbQueryOk e = true -> dbScanOk e = true ->
  dbExecOk e = true ->
  (length ids =? 0)%nat && (length names =? 0)%nat = false ->
  exists t,
    Del e ids names w =
    (inl tt,
     World (removeAll (assets ids names (table w)) (files w))
           (if dbCommitOk e
            then List.filter (fun row => negb (selects ids names row)) (table w)
            else table w)
           None t).
Proof.
  intros Hb Hq Hs Hx Hemp. unfold Del. rewrite Hemp, fold_keys.
  destruct (prepare_keys ids names Hemp) as [Hp1 Hp2].
  unfold defer. rewrite !FrameFacts.bind_apply.
  rewrite Begin_ok by assumption. mstep.
  rewrite FrameFacts.bind_apply, Query_img_ok by assumption. mstep.
  replace (List.filter _ (table w))
    with (List.filter (selects ids names) (table w))
    by (apply filter_ext; intros r; now rewrite matches_keys).
  set (rows := List.filter _ (table w)).
  rewrite FrameFacts.bind_apply.
  replace (match rows with
           | [] => mret tt
           | _ :: _ => if dbScanOk e then mret tt else fail EDbScan
           end) with (mret tt : M unit)
    by (destruct rows; [reflexivity | now rewrite Hs]).
  unfold mret at 1, M_ret at 1. mstep.
  rewrite FrameFacts.bind_apply.
  erewrite Exec_ok by (apply run_delete; assumption). mstep.
  rewrite FrameFacts.bind_apply. unfold try.
  erewrite Commit_result by reflexivity. mstep.
  rewrite FrameFacts.bind_apply, forEach_Remove. mstep.
  unfold mret, M_ret. rewrite Rollback_closed by reflexivity. mstep.
  eexists. do 2 f_equal.
  destruct (dbCommitOk e); [| reflexivity].
  apply filter_ext. intros r. now rewrite matches_keys.
Qed.

(** When the commit fails, [Del] still reports success; the rows are all
    there, and the assets of the selected rows are gone. *)
Lemma Del_commit_failed (e : env) (w : world) (ids : list Z)
  (names : list string) :
  dbBeginOk e = true -> dbQueryOk e = true -> dbScanOk e = true ->
  dbExecOk e = true -> dbCommitOk e = false ->
  (length ids =? 0)%nat && (length names =? 0)%nat = false ->
  fst (Del e ids names w) = inl tt /\
  table (snd (Del e ids names w)) = table w /\
  forall p, In p (assets ids names (table w)) ->
            files (snd (Del e ids names w)) !! p = None.
Proof.
  intros Hb Hq Hs Hx Hc Hemp.
  destruct (Del_run e w ids names Hb Hq Hs Hx Hemp) as [t ->].
  rewrite Hc. cbn [fst snd files table].
  split; [reflexivity |]. split; [reflexivity |].
  intros p Hp. now apply removeAll_gone.
Qed.

End DelFacts.

(** ** Mod *)

Module ModFacts.
Import ItemUtil Frame FrameFacts.

Lemma preserves_rmImg p q : q <> p -> preserves p (rmImg q).
Proof.
  intros Hq. unfold rmImg.
  destruct (negb _); [now apply preserves_Remove | apply preserves_mret].
Qed.

Lemma preserves_QueryRowImg p e w args :
  preserves p (QueryRowImg e w args).
Proof.
  unfold QueryRowImg.
  apply preserves_bind; [apply preserves_Query | intros [|r rows]];
    [apply preserves_fail |].
  destruct (r_img r); [| apply preserves_fail].
  destruct (dbScanOk e); [apply preserves_mret | apply preserves_fail].
Qed.

(** A failed transaction of [Mod] removes no file but the one at
    [newImgPath]. *)
Lemma modTx_keeps p e it set_ args where_ whereArg img newImgPath :
  newImgPath <> p ->
  keepsOnError p (modTx e it set_ args where_ whereArg img newImgPath).
Proof.
  intros Hq. unfold modTx.
  apply keeps_bind; [apply preserves_Begin | intros _].
  apply keeps_defer; [apply preserves_Rollback |].
  apply keeps_bind.
  - destruct (Img_Name it); [| apply preserves_mret].
    apply preserves_bind; [apply preserves_try, preserves_QueryRowImg |].
    intros [found | err]; [apply preserves_mret |].
    destruct err;
      first [ apply preserves_mret
            | apply preserves_bind;
              [now apply preserves_rmImg | intros _; apply preserves_fail] ].
  - intros img'.
    apply keeps_bind; [apply preserves_try, preserves_Exec |].
    intros [u | err].
    + apply succeeds_keeps.
      apply succeeds_bind; [apply succeeds_try | intros _].
      apply succeeds_bind; [| intros _; apply succeeds_mret].
      destruct (negb _); [apply succeeds_Remove | apply succeeds_mret].
    + apply preserves_keeps.
      apply preserves_bind;
        [now apply preserves_rmImg | intros _; apply preserves_fail].
Qed.

Lemma copyImg_ok e n data w :
  osCreateOk e = true -> ioCopyOk e = true ->
  let img := now e +:+ "_" +:+ Path.Base n in
  copyImg e n (Some data) w =
  (inl img,
   World (<[ImgPath img := data]> (<[ImgPath img := ""]> (files w)))
         (table w) (txOpen w)
         (trace w ++ [OsCreate (ImgPath img); IoCopy (ImgPath img)])).
Proof.
  intros Hc Ho. unfold copyImg, Os.Create, Os.Copy. rewrite Hc, Ho.
  unfold mbind, M_bind, try, emit, setFiles, mret, M_ret.
  cbv beta iota zeta. cbn [files table txOpen trace].
  now rewrite <- app_assoc.
Qed.

Lemma named_not_empty a b : a +:+ "_" +:+ b <> "".
Proof. destruct a; discriminate. Qed.

Lemma ImgPath_not_dir a : a <> "" -> ImgPath "" <> ImgPath a.
Proof. unfold ImgPath. destruct a; [congruence | discriminate]. Qed.

(** Whenever [Mod] fails after it wrote a new asset, the asset is still
    there. *)
Lemma Mod_failed_keeps_asset e id name it w n data err :
  Img_Name it = Some n -> n <> "" -> Img_Reader it = Some data ->
  osCreateOk e = true -> ioCopyOk e = true ->
  fst (Mod e id name it w) = inr err ->
  files (snd (Mod e id name it w))
    !! ImgPath (now e +:+ "_" +:+ Path.Base n) = Some data.
Proof.
  intros Hn Hne Hd Hc Ho. unfold Mod.
  destruct it as [iid iname descr price imgn ireader]; cbn in Hn, Hd; subst.
  cbn [ID Name Price Descr Img_Name Img_Reader].
  replace (String.eqb n "") with false
    by (symmetry; now apply String.eqb_neq).
  cbv zeta. rewrite !bind_apply, copyImg_ok by assumption.
  cbv beta iota zeta.
  match goal with
  | |- context [newArg "img" ?v ?st] => generalize st
  end.
  intros [set0 args0]. cbn [newArg].
  set (p := ImgPath (now e +:+ "_" +:+ Path.Base n)).
  assert (Hdir : ImgPath "" <> p)
    by (apply ImgPath_not_dir, named_not_empty).
  set (w1 := World _ _ _ _).
  assert (Hw1 : files w1 !! p = Some data) by apply lookup_insert_eq.
  clearbody w1.
  destruct descr as [d|]; [destruct (String.eqb d "") |];
    destruct (0 <=? id); cbn [newArg];
    intros E; exact (eq_trans (modTx_keeps p _ _ _ _ _ _ _ _ Hdir _ _ E) Hw1).
Qed.

(** [Mod] without a changed field sends an [UPDATE] with nothing after
    [SET], and returns the server's syntax error. *)
Lemma Mod_noChange e id name w :
  dbBeginOk e = true ->
  fst (Mod e id name Scenario.noChange w) = inr EDbSyntax.
Proof.
  intros Hb. unfold Mod, modTx, Scenario.noChange. cbn.
  destruct (0 <=? id); cbn; unfold Pgx.Begin, mbind, M_bind, defer; cbn;
    rewrite Hb; cbn; reflexivity.
Qed.

End ModFacts.

(** ** The order of the storefront *)

Module OrderFacts.
Import Serve Order.

Lemma checkout_fold ordered items : forall done total,
  fold_left (checkoutStep ordered) items (done, GoInt.wrap total) =
  ((done ++ (line ordered <$> items))%list,
   GoInt.wrap (total + sumZ (lineTotals (line ordered <$> items)))).
Proof.
  induction items as [|p items IH]; intros done total.
  - cbn. now rewrite app_nil_r, Z.add_0_r.
  - cbn [fold_left checkoutStep]. unfold GoInt.add at 1.
    rewrite GoIntFacts.wrap_add_l, IH. rewrite <- app_assoc. cbn. f_equal. f_equal.
    unfold quantity, sumZ, lineTotals. lia.
Qed.

Lemma checkout_eq delivery items ordered :
  checkout delivery items ordered =
  (line ordered <$> items,
   GoInt.wrap (sumZ (lineTotals (line ordered <$> items)) + Num delivery)).
Proof.
  unfold checkout. change 0 with (GoInt.wrap 0) at 1.
  rewrite checkout_fold. cbn [app]. unfold GoInt.add.
  now rewrite GoIntFacts.wrap_add_l.
Qed.

Lemma sumZ_cons x l : sumZ (x :: l) = x + sumZ l.
Proof. reflexivity. Qed.

Lemma products_nonneg ordered items :
  (forall p, In p items -> 0 <= Num (Price p) /\ 0 <= quantity ordered p) ->
  0 <= sumZ ((fun p => Num (Price p) * quantity ordered p) <$> items).
Proof.
  induction items as [|q items IH]; intros Hpos; [cbn; lia |].
  rewrite fmap_cons, sumZ_cons.
  destruct (Hpos q) as [? ?]; [now left |].
  assert (0 <= sumZ ((fun p => Num (Price p) * quantity ordered p) <$> items))
    by (apply IH; intros x Hx; apply Hpos; now right).
  nia.
Qed.

Lemma lineTotals_exact ordered items :
  (forall p, In p items -> 0 <= Num (Price p) /\ 0 <= quantity ordered p) ->
  sumZ ((fun p => Num (Price p) * quantity ordered p) <$> items) <= GoInt.maxInt ->
  lineTotals (line ordered <$> items) =
  (fun p => Num (Price p) * quantity ordered p) <$> items.
Proof.
  induction items as [|p items IH]; intros Hpos Hsum; [reflexivity |].
  rewrite fmap_cons, sumZ_cons in Hsum.
  assert (Hrest : 0 <= sumZ ((fun p => Num (Price p) * quantity ordered p) <$> items))
    by (apply products_nonneg; intros x Hx; apply Hpos; now right).
  destruct (Hpos p) as [? ?]; [now left |].
  unfold lineTotals in *. rewrite !fmap_cons. f_equal.
  - cbn. unfold GoInt.mul. apply GoIntFacts.wrap_inRange.
    unfold GoInt.inRange, GoInt.minInt, GoInt.maxInt in *. nia.
  - apply IH; [intros x Hx; apply Hpos; now right | lia].
Qed.

Lemma orderStep_range form k st :
  (forall id n, snd st !! id = Some n -> 1 <= n <= 100) ->
  forall id n, snd (orderStep form st k) !! id = Some n -> 1 <= n <= 100.
Proof.
  intros Hst. destruct st as [ids ordered]. unfold orderStep.
  destruct (existsb _ _); [exact Hst |].
  destruct (stoi k) as [i [e|]]; [exact Hst |].
  destruct (stoi (FormValue form k)) as [m err].
  destruct ((m <=? 0) || (100 <? m) || bool_decide (err <> None)) eqn:Hdrop;
    [exact Hst |].
  apply orb_false_iff in Hdrop as [Hdrop _].
  apply orb_false_iff in Hdrop as [Hlo Hhi].
  intros id n. cbn [snd]. rewrite lookup_insert. case_decide.
  - intros [= <-]. lia.
  - apply Hst.
Qed.

(** Every quantity the loop lets through is between 1 and 100. *)
Lemma orderLoop_range form id n :
  snd (orderLoop form) !! id = Some n -> 1 <= n <= 100.
Proof.
  unfold orderLoop. generalize (fst <$> form). intros ks.
  assert (H0 : forall id n,
             snd (@nil Z, (∅ : gmap Z Z)) !! id = Some n -> 1 <= n <= 100)
    by (intros i m; cbn; now rewrite lookup_empty).
  revert H0. generalize (@nil Z, (∅ : gmap Z Z)). revert id n.
  induction ks as [|k ks IH]; intros id n st Hst; cbn [fold_left].
  - apply Hst.
  - apply IH. now apply orderStep_range.
Qed.

End OrderFacts.

(** * The claims *)

Section Claims.
Import ItemUtil Keys Serve Order Scenario.
Import PriceSpec PriceFacts FormatFacts.
Import AddFacts DelFacts ModFacts OrderFacts PgxFacts.

(** C1. [Add] is atomic on error.  A failed [Add] leaves the table as it
    was and no file in the asset directory that was not there before.  When
    the asset write fails ([os.Create] or [io.Copy]), [Add] returns that
    error and no statement is sent to the database.  When the asset was
    written and [Add] fails all the same (the insert was refused), the file
    just written is removed again. *)
Theorem Add_atomic (e : env) (it : Item) (w : world) :
  let r := Add e it w in
  (forall err, fst r = inr err ->
     table (snd r) = table w /\ dom (files (snd r)) ⊆ dom (files w)) /\
  (forall n data, Img_Name it = Some n -> Img_Reader it = Some data ->
     osCreateOk e && ioCopyOk e = false ->
     (fst r = inr EOsCreate \/ fst r = inr EIoCopy) /\
     exists evs, trace (snd r) = (trace w ++ evs)%list /\
                 forall q a, ~ In (DbExec q a) evs) /\
  (forall n data err, Img_Name it = Some n -> Img_Reader it = Some data ->
     osCreateOk e && ioCopyOk e = true -> fst r = inr err ->
     let path := ImgPath (now e +:+ "_" +:+ Path.Base n) in
     files (snd r) !! path = None /\ In (OsRemove path) (trace (snd r))).
Proof.
  cbv zeta. split; [intros err; apply Add_failed |]. split.
  - intros n data Hn Hd Hio. unfold Add, copyImg.
    destruct it as [id name descr price iname ireader]; cbn in Hn, Hd; subst.
    mrun. destruct (osCreateOk e); mrun.
    + cbn in Hio. rewrite Hio. mrun. split; [now right |].
      rewrite <- ?app_assoc. eexists. split; [reflexivity |].
      intros q a. cbn. intuition discriminate.
    + split; [now left |].
      rewrite <- ?app_assoc. eexists. split; [reflexivity |].
      intros q a. cbn. intuition discriminate.
  - intros n data err Hn Hd Hio. unfold Add, copyImg.
    destruct it as [id name descr price iname ireader]; cbn in Hn, Hd; subst.
    apply andb_true_iff in Hio as [Hc Ho]. mrun. rewrite Hc. mrun.
    rewrite Ho. mrun. rewrite img_named.
    destruct descr as [d|]; mrun;
      match goal with
      | |- context [match Db.run ?e ?q ?a ?t with _ => _ end] =>
          destruct (Db.run e q a t) eqn:?
      end; mrun; intros H; try discriminate;
      (split; [apply lookup_delete_eq |]);
      rewrite !in_app_iff; cbn; tauto.
Qed.

Lemma Add_atomic_witness :
  fst (Add execFails calzone shop) = inr EDbExec /\
  table (snd (Add execFails calzone shop)) = table shop /\
  files (snd (Add execFails calzone shop))
    !! "img/20250102_150405_q.png" = None.
Proof.
  pose proof (Add_atomic execFails calzone shop) as H. cbv zeta in H.
  destruct H as (A & _ & C).
  split; [vm_compute; reflexivity |]. split.
  - apply (A EDbExec). vm_compute. reflexivity.
  - apply (C "q.png" "NEW" EDbExec); vm_compute; reflexivity.
Defined.

(** C2. With a commit that fails, [Del] of the pepperoni still reports
    success and no row is lost, but the picture of the row, which was on disk
    before the call, is removed: the result of [tx.Commit] is not looked
    at. *)
Theorem Del_commit_fails :
  let r := Del commitFails [2] [] shop in
  fst r = inl tt /\
  table (snd r) = table shop /\
  files shop !! "img/20240101_000000_p.png" = Some "OLD" /\
  files (snd r) !! "img/20240101_000000_p.png" = None.
Proof. vm_compute. repeat split; reflexivity. Qed.

(** C3. [Mod] with a new picture on a database that refuses the statement:
    [Mod] returns an error and the table is as before, but the file just
    written is still on disk; what [rmImg] removes is [ImgPath("")], the
    asset directory. *)
Theorem Mod_failure_leaves_new_asset :
  let r := Mod execFails 2 "" newImage shop in
  (exists err, fst r = inr err) /\
  table (snd r) = table shop /\
  files (snd r) !! "img/20250102_150405_q.png" = Some "NEW" /\
  In (OsRemove "img/") (trace (snd r)) /\
  ~ In (OsRemove "img/20250102_150405_q.png") (trace (snd r)).
Proof.
  vm_compute.
  split; [eauto |]. split; [reflexivity |]. split; [reflexivity |].
  split; [tauto |]. intuition discriminate.
Qed.

(** C4. [Mod] with no changed field on a healthy database: the statement
    sent has nothing after [SET], the server cannot parse it, and [Mod]
    returns that error. *)
Theorem Mod_noChange_fails :
  Sql.text (SUpdate [] [Clause "id" 1]) = "UPDATE items SET  WHERE id = $1" /\
  let r := Mod healthy 1 "" noChange shop in
  fst r = inr EDbSyntax /\
  In (DbExec (SUpdate [] [Clause "id" 1]) [VInt 1]) (trace (snd r)) /\
  table (snd r) = table shop.
Proof.
  vm_compute. split; [reflexivity |]. split; [reflexivity |].
  split; [tauto | reflexivity].
Qed.

(** C5, as stated, fails: a text of twenty-one digits has the shape of a
    price and [Set] does not accept it. *)
Lemma Set_rejects_large :
  WellFormed "100000000000000000000" /\
  forall n, Price.Set_ "100000000000000000000" <> inl n.
Proof.
  split.
  - exists "100000000000000000000", "". split; [reflexivity |].
    split; [| now left]. split; [discriminate |]. split; [reflexivity |].
    right. eexists _, _. split; [reflexivity | discriminate].
  - intros n. vm_compute. discriminate.
Qed.

(** C5 (amended). [Set] accepts exactly the texts made of an integer part
    without leading zeros (a lone [0] apart) and, optionally, a point and
    one or two digits, whose count of minor units is at most the greatest
    64-bit integer, and returns that count (a one-digit fraction counts
    tens); a text of that shape with a greater count fails with the range
    error of [strconv.Atoi]; every other text fails with the invalid-price
    error.  The examples of the specification hold. *)
Theorem Set_accepts :
  (forall ip fr, IntegerPart ip -> FractionPart fr ->
     (minorUnits ip fr <= GoInt.maxInt ->
      Price.Set_ (ip +:+ fr) = inl (minorUnits ip fr)) /\
     (GoInt.maxInt < minorUnits ip fr ->
      Price.Set_ (ip +:+ fr) = inr (Price.AtoiError Strconv.ErrRange))) /\
  (forall s n, Price.Set_ s = inl n ->
     exists ip fr, s = ip +:+ fr /\ IntegerPart ip /\ FractionPart fr /\
                   n = minorUnits ip fr /\ n <= GoInt.maxInt) /\
  (forall s, ~ WellFormed s -> Price.Set_ s = inr Price.InvalidPrice) /\
  Price.Set_ "3.5" = inl 350 /\ Price.Set_ "3" = inl 300 /\
  Price.Set_ "0.05" = inl 5 /\
  Price.Set_ "3.555" = inr Price.InvalidPrice /\
  Price.Set_ "-1" = inr Price.InvalidPrice /\
  Price.Set_ "" = inr Price.InvalidPrice.
Proof.
  split; [| split; [| split; [exact Set_illformed |]]].
  - intros ip fr Hip Hfr. rewrite Set_wellformed by assumption. split.
    + intros H. now replace (_ <=? _) with true by (symmetry; apply Z.leb_le; lia).
    + intros H. now replace (_ <=? _) with false by (symmetry; apply Z.leb_gt; lia).
  - intros s n H.
    destruct (PriceShape.split s) as [[ip fr]|] eqn:E;
      [| rewrite Set_split, E in H; discriminate].
    apply split_spec in E as (-> & Hip & Hfr).
    exists ip, fr. rewrite Set_wellformed in H by assumption.
    destruct (minorUnits ip fr <=? GoInt.maxInt) eqn:L; [| discriminate].
    apply Z.leb_le in L. injection H as <-. auto.
  - vm_compute. repeat split; reflexivity.
Qed.

Lemma Set_accepts_witness :
  IntegerPart "12" /\ FractionPart ".5" /\
  Price.Set_ ("12" +:+ ".5") = inl 1250.
Proof.
  assert (Hip : IntegerPart "12").
  { split; [discriminate |]. split; [reflexivity |].
    right. eexists _, _. split; [reflexivity | discriminate]. }
  assert (Hfr : FractionPart ".5").
  { right; left. exists "5"%char. split; reflexivity. }
  split; [exact Hip |]. split; [exact Hfr |].
  destruct Set_accepts as [H _].
  destruct (H "12" ".5" Hip Hfr) as [Hok _].
  apply Hok. vm_compute. discriminate.
Defined.

(** C6. The text of the least 64-bit integer: negating it overflows, so the
    sign stays in the digits, and the text is not a sign followed by an
    integer part, a point and two digits. *)
Theorem String_minInt :
  GoInt.mul GoInt.minInt (-1) = GoInt.minInt /\
  Price.String_ GoInt.minInt = "-0.0-9223372036854775808" /\
  ~ (exists ip a b,
       IntegerPart ip /\ Str.isDigit a = true /\ Str.isDigit b = true /\
       Price.String_ GoInt.minInt =
         "-" +:+ ip +:+ String "." (String a (String b ""))).
Proof.
  assert (E : Price.String_ GoInt.minInt = "-0.0-9223372036854775808")
    by (vm_compute; reflexivity).
  split; [vm_compute; reflexivity |]. split; [exact E |].
  intros (ip & a & b & (Hne & Hall & _) & Ha & Hb & H).
  rewrite E in H. destruct ip as [|c [|c2 r]].
  - now apply Hne.
  - rewrite !RegexpFacts.append_cons, !RegexpFacts.append_nil in H.
    discriminate.
  - rewrite !RegexpFacts.append_cons, !RegexpFacts.append_nil in H.
    inversion H; subst. cbn in Hall. discriminate.
Qed.

(** C7. A quantity of [-5] for item 1: [stoi] reads it as 5, and the order
    charges five margheritas. *)
Theorem handleRoot_negative_quantity :
  Regexp.FindString intRE "-5" = "5" /\
  stoi "-5" = (5, None) /\
  fst (handleRoot healthy "POST" [("action", "checkout"); ("1", "-5")] shop) =
  inl (Rendered
         (mkPage true false (mkPrice 500 "5.00") "30.00"
            [mkItem 1 "margherita" (mkPrice 500 "5.00") 5
                    (mkPrice 2500 "25.00")])).
Proof. vm_compute. repeat split; reflexivity. Qed.

(** C8, as stated, fails: the line total is not always the exact product.
    An item of 2^62 minor units, a price [Price.Set] accepts, ordered twice
    (a quantity the form loop lets through) has the line total -2^63, not
    2^63, and the total of the order is negative. *)
Lemma checkout_overflows :
  Price.Set_ "46116860184273879.04" = inl 4611686018427387904 /\
  let truffle :=
    mkItem 1 "truffle"
           (mkPrice 4611686018427387904 "46116860184273879.04") 0
           (mkPrice 0 "") in
  let r := checkout (mkPrice 500 "5.00") [truffle] (<[1 := 2]> ∅) in
  lineTotals (fst r) = [-9223372036854775808] /\
  lineTotals (fst r) <> [4611686018427387904 * 2] /\
  snd r = -9223372036854775308.
Proof.
  split; [vm_compute; reflexivity |]. cbv zeta.
  rewrite checkout_eq. cbn [fst snd].
  split; [vm_compute; reflexivity |].
  split; [vm_compute; discriminate | vm_compute; reflexivity].
Qed.

(** C8. Each line total is price times quantity and the total is the sum of
    the line totals plus the delivery surcharge, in Go's integers; the
    results are the exact integers whenever prices and quantities are not
    negative and the exact total fits 64 bits.  With the surcharge of 500,
    items of 500 and 1200 and quantities 2 and 1 give the lines 1000 and 1200
    and the total 2700, and [handleRoot] shows them as 10.00, 12.00 and
    27.00. *)
Theorem checkout_totals :
  (forall (delivery : price) (items : list item) (ordered : gmap Z Z),
     let r := checkout delivery items ordered in
     lineTotals (fst r) =
       (fun p => GoInt.mul (Num (Price p)) (quantity ordered p)) <$> items /\
     snd r = GoInt.wrap (sumZ (lineTotals (fst r)) + Num delivery) /\
     ((forall p, In p items -> 0 <= Num (Price p) /\ 0 <= quantity ordered p) ->
      0 <= Num delivery ->
      sumZ ((fun p => Num (Price p) * quantity ordered p) <$> items)
        + Num delivery <= GoInt.maxInt ->
      lineTotals (fst r) =
        (fun p => Num (Price p) * quantity ordered p) <$> items /\
      snd r = sumZ (lineTotals (fst r)) + Num delivery)) /\
  (let r := checkout (mkPrice 500 "5.00")
              Scenario.menu
              (<[1 := 2]> (<[2 := 1]> ∅)) in
   lineTotals (fst r) = [1000; 1200] /\ snd r = 2700) /\
  fst (handleRoot healthy "POST"
         [("action", "checkout"); ("1", "2"); ("2", "1")] shop) =
  inl (Rendered
         (mkPage true false (mkPrice 500 "5.00") "27.00"
            [mkItem 1 "margherita" (mkPrice 500 "5.00") 2
                    (mkPrice 1000 "10.00");
             mkItem 2 "pepperoni" (mkPrice 1200 "12.00") 1
                    (mkPrice 1200 "12.00")])).
Proof.
  split; [| split; [| vm_compute; reflexivity]].
  - intros delivery items ordered. cbv zeta. rewrite checkout_eq. cbn [fst snd].
    split; [| split; [reflexivity |]].
    + unfold lineTotals. rewrite <- list_fmap_compose. reflexivity.
    + intros Hpos Hd Hsum.
      pose proof (products_nonneg ordered items Hpos) as Hnn.
      assert (Hex := lineTotals_exact ordered items Hpos ltac:(lia)).
      split; [exact Hex |].
      apply GoIntFacts.wrap_inRange. rewrite Hex.
      unfold GoInt.inRange, GoInt.minInt, GoInt.maxInt in *. lia.
  - vm_compute. split; reflexivity.
Qed.

Lemma checkout_totals_witness :
  let r := checkout (mkPrice 500 "5.00") menu (<[1 := 2]> (<[2 := 1]> ∅)) in
  lineTotals (fst r) = [1000; 1200] /\ snd r = 2700.
Proof.
  cbv zeta. destruct checkout_totals as [G _].
  destruct (G (mkPrice 500 "5.00") menu (<[1 := 2]> (<[2 := 1]> ∅)))
    as (_ & _ & X).
  destruct X as [XL XT].
  - intros p [<- | [<- | []]]; vm_compute; split; discriminate.
  - vm_compute. discriminate.
  - vm_compute. discriminate.
  - split; [rewrite XL | rewrite XT, XL]; reflexivity.
Defined.

(** C9. [Del] of a mix of keys, on a database that runs its statements:
    whether or not each key has a row, [Del] returns no error and the rows
    left are those that have none of the ids and none of the names. *)
Theorem Del_mixed_keys (e : env) (w : world) (ids : list Z)
  (names : list string) :
  dbBeginOk e = true -> dbQueryOk e = true -> dbScanOk e = true ->
  dbExecOk e = true -> dbCommitOk e = true ->
  let r := Del e ids names w in
  fst r = inl tt /\
  table (snd r) =
    List.filter (fun row => negb (selects ids names row)) (table w).
Proof.
  intros Hb Hq Hs Hx Hc. cbv zeta.
  destruct ((length ids =? 0)%nat && (length names =? 0)%nat) eqn:Hemp.
  - apply andb_true_iff in Hemp as [Hi Hn].
    destruct ids; [| discriminate]. destruct names; [| discriminate].
    split; [reflexivity |]. cbn. now rewrite filter_none.
  - destruct (Del_run e w ids names Hb Hq Hs Hx Hemp) as (t & ->).
    rewrite Hc. split; reflexivity.
Qed.

Lemma Del_mixed_keys_witness :
  fst (Del healthy [2; 9] ["nobody"] shop) = inl tt /\
  table (snd (Del healthy [2; 9] ["nobody"] shop)) =
    [Row 1 "margherita" None 500 None].
Proof.
  exact (Del_mixed_keys healthy shop [2; 9] ["nobody"]
           eq_refl eq_refl eq_refl eq_refl eq_refl).
Defined.

(** C10. [Del] without an id and without a name returns no error and
    leaves the world as it is: no statement is sent and no file is
    removed. *)
Theorem Del_empty (e : env) (w : world) : Del e [] [] w = (inl tt, w).
Proof. reflexivity. Qed.

End Claims.

(** * Facts about the rest of the code *)

(** ** Transactions *)

Module TxFacts.

Lemma Begin_result e w :
  Pgx.Begin e w =
  (if dbBeginOk e then inl tt else inr EDbBegin,
   World (files w) (table w) (if dbBeginOk e then Some (table w) else txOpen w)
         (trace w ++ [DbBegin])).
Proof. mrun. now destruct (dbBeginOk e). Qed.

Lemma Query_frame e q args w :
  files (snd (Pgx.Query e q args w)) = files w /\
  table (snd (Pgx.Query e q args w)) = table w /\
  txOpen (snd (Pgx.Query e q args w)) = txOpen w.
Proof.
  mrun. destruct (Db.prepare q args); [now cbn |].
  destruct (dbQueryOk e); [| now cbn].
  destruct q as [| wh o | | |]; try now cbn.
  cbn. destruct (Db.ordered e o _); now cbn.
Qed.

Lemma Exec_frame e q args w :
  files (snd (Pgx.Exec e q args w)) = files w /\
  txOpen (snd (Pgx.Exec e q args w)) = txOpen w /\
  (forall err, fst (Pgx.Exec e q args w) = inr err ->
               table (snd (Pgx.Exec e q args w)) = table w).
Proof. mrun. destruct (Db.run e q args (table w)); now cbn. Qed.

Lemma Rollback_open w t0 :
  txOpen w = Some t0 ->
  Pgx.Rollback w =
  (inl tt, World (files w) t0 None (trace w ++ [DbRollback])).
Proof. intros Ht. mrun. now rewrite !Ht. Qed.

End TxFacts.

(** ** More on Del *)

Module DelRun.
Import ItemUtil Keys PgxFacts TxFacts.

Lemma removeAll_other l : forall f p,
  ~ In p l -> removeAll l f !! p = f !! p.
Proof.
  induction l as [|q l IH]; intros f p Hin; [reflexivity |].
  cbn [removeAll fold_left]. fold (removeAll l (delete q f)).
  rewrite IH by (intros H; apply Hin; now right).
  apply lookup_delete_ne. intros ->. apply Hin. now left.
Qed.

(** A [Del] that returns an error leaves rows and files as they were. *)
Lemma Del_failed e ids names w err :
  fst (Del e ids names w) = inr err ->
  table (snd (Del e ids names w)) = table w /\
  files (snd (Del e ids names w)) = files w.
Proof.
  unfold Del.
  destruct ((length ids =? 0)%nat && (length names =? 0)%nat); [discriminate |].
  destruct (fold_left _ names _) as [where_ args].
  rewrite FrameFacts.bind_apply, Begin_result.
  destruct (dbBeginOk e); [| intros _; now split].
  unfold defer. set (w1 := World _ _ _ _).
  rewrite FrameFacts.bind_apply.
  destruct (Query_frame e (SSelectImg where_) args w1) as (Hf & Ht & Hx).
  destruct (Pgx.Query e (SSelectImg where_) args w1) as [[rows | er] w2];
    cbn [fst snd] in *.
  2:{ intros _. rewrite (Rollback_open w2 (table w)) by now rewrite Hx.
      cbn. now rewrite Hf. }
  rewrite FrameFacts.bind_apply.
  assert (Hscan : forall (m : M unit),
            m = mret tt \/ m = fail EDbScan ->
            m w2 = (inl tt, w2) \/ m w2 = (inr EDbScan, w2))
    by (intros m [-> | ->]; [now left | now right]).
  destruct (Hscan (match rows with
                   | [] => mret tt
                   | _ :: _ => if dbScanOk e then mret tt else fail EDbScan
                   end)) as [-> | ->].
  { destruct rows; [now left |]. destruct (dbScanOk e); [now left | now right]. }
  2:{ intros _. rewrite (Rollback_open w2 (table w)) by now rewrite Hx.
      cbn. now rewrite Hf. }
  rewrite FrameFacts.bind_apply.
  destruct (Exec_frame e (SDelete where_) args w2) as (Hf3 & Hx3 & Ht3).
  destruct (Pgx.Exec e (SDelete where_) args w2) as [[u | er] w3];
    cbn [fst snd] in *.
  - rewrite FrameFacts.bind_apply. unfold try.
    destruct (Pgx.Commit e w3) as [c w4].
    rewrite FrameFacts.bind_apply, forEach_Remove. mstep.
    unfold mret, M_ret. destruct (Pgx.Rollback _). discriminate.
  - intros _. rewrite (Rollback_open w3 (table w)) by now rewrite Hx3, Hx.
    cbn. now rewrite Hf3, Hf.
Qed.

(** Which files a [Del] that went through leaves. *)
Lemma Del_files e ids names w p :
  dbBeginOk e = true -> dbQueryOk e = true -> dbScanOk e = true ->
  dbExecOk e = true ->
  (length ids =? 0)%nat && (length names =? 0)%nat = false ->
  (In p (assets ids names (table w)) ->
   files (snd (Del e ids names w)) !! p = None) /\
  (~ In p (assets ids names (table w)) ->
   files (snd (Del e ids names w)) !! p = files w !! p).
Proof.
  intros Hb Hq Hs Hx Hemp.
  destruct (DelFacts.Del_run e w ids names Hb Hq Hs Hx Hemp) as [t ->].
  cbn [snd files]. split; intros Hp.
  - now apply removeAll_gone.
  - now apply removeAll_other.
Qed.

End DelRun.

(** ** Get *)

Module GetFacts.
Import ItemUtil ItemSpec Keys KeyFacts PgxFacts.

Lemma insertBy_perm le r l : Db.insertBy le r l ≡ₚ r :: l.
Proof.
  induction l as [|x l IH]; cbn; [reflexivity |].
  destruct (le r x); [reflexivity |].
  rewrite IH. apply Permutation_swap.
Qed.

Lemma inOrder_perm e ord l : inOrder e ord l ≡ₚ l.
Proof.
  unfold inOrder. induction l as [|x l IH]; cbn; [reflexivity |].
  rewrite insertBy_perm. now rewrite IH.
Qed.

(** What the server makes of the text [Get] ends its statement with. *)
Lemma ordered_text e ord l :
  Db.ordered e (orderText ord) l = Some (inOrder e ord l).
Proof. destruct ord; reflexivity. Qed.

Lemma prepare_select ids names o :
  Db.prepare (SSelect (clauses 0 (keys ids names)) o)
             (snd <$> keys ids names) = None.
Proof.
  unfold Db.prepare. cbn [Db.parseOk negb].
  rewrite bindOk_seq; [reflexivity |].
  cbn [Db.placeholders]. now rewrite placeholders_clauses, length_fmap.
Qed.

Lemma clauses_nil k kvs : clauses k kvs = [] -> kvs = [].
Proof. destruct kvs; [reflexivity | discriminate]. Qed.

Lemma keys_nil ids names :
  keys ids names = [] <-> (length ids =? 0)%nat && (length names =? 0)%nat = true.
Proof.
  unfold keys. destruct ids, names; cbn; split; intros; congruence.
Qed.

(** What a [SELECT] of rows returns. *)
Lemma Query_select_result e wh o args w :
  Pgx.Query e (SSelect wh o) args w =
  (match Db.prepare (SSelect wh o) args with
   | Some err => inr err
   | None =>
       if dbQueryOk e then
         match Db.ordered e o
                 (match wh with
                  | [] => table w
                  | _ :: _ => List.filter (Db.matches wh args) (table w)
                  end) with
         | Some rows => inl rows
         | None => inr EDbSyntax
         end
       else inr EDbQuery
   end,
   World (files w) (table w) (txOpen w)
         (trace w ++ [DbQuery (SSelect wh o) args])).
Proof.
  munfold. cbn -[Db.prepare Db.ordered String.append].
  destruct (Db.prepare _ _); [reflexivity |].
  destruct (dbQueryOk e); [| reflexivity].
  destruct (Db.ordered _ _ _); reflexivity.
Qed.

(** What the query of [Get] gives. *)
Lemma Query_select e ids names ord w :
  dbQueryOk e = true ->
  Pgx.Query e (SSelect (clauses 0 (keys ids names)) (orderText ord))
            (snd <$> keys ids names) w =
  (inl (inOrder e ord (selected ids names (table w))),
   World (files w) (table w) (txOpen w)
         (trace w ++ [DbQuery (SSelect (clauses 0 (keys ids names))
                                       (orderText ord))
                              (snd <$> keys ids names)])).
Proof.
  intros Hq. rewrite Query_select_result, prepare_select, Hq, ordered_text.
  do 3 f_equal. unfold selected.
  destruct ((length ids =? 0)%nat && (length names =? 0)%nat) eqn:Hemp.
  - apply keys_nil in Hemp. now rewrite Hemp.
  - destruct (clauses 0 (keys ids names)) eqn:Hc.
    + apply clauses_nil in Hc. apply keys_nil in Hc. congruence.
    + rewrite <- Hc. apply filter_ext. intros r. apply matches_keys.
Qed.

(** The text of the order as [Get] builds it. *)
Lemma Get_orderText ord :
  (let orderBy := match ord with ByID => "id" | ByName => "name" end in
   if negb (String.eqb orderBy "") then "ORDER BY " +:+ orderBy else orderBy)
  = orderText ord.
Proof. destruct ord; reflexivity. Qed.

Lemma Get_run e ids names ord w :
  dbQueryOk e = true -> dbScanOk e = true ->
  exists t,
    Get e ids names ord w =
    (inl (itemOfRow <$> inOrder e ord (selected ids names (table w))),
     World (files w) (table w) (txOpen w) t).
Proof.
  intros Hq Hs. unfold Get. rewrite fold_keys. cbv zeta.
  pose proof (Get_orderText ord) as Ho. cbv zeta in Ho. rewrite Ho.
  rewrite FrameFacts.bind_apply, Query_select by assumption. mstep.
  rewrite FrameFacts.bind_apply.
  destruct (inOrder e ord (selected ids names (table w))) as [|r rows] eqn:Hsel.
  - eexists. reflexivity.
  - rewrite Hs. eexists. reflexivity.
Qed.

(** [Get] only reads. *)
Lemma Get_frame e ids names ord w :
  files (snd (Get e ids names ord w)) = files w /\
  table (snd (Get e ids names ord w)) = table w /\
  txOpen (snd (Get e ids names ord w)) = txOpen w.
Proof.
  unfold Get.
  destruct (fold_left _ names _) as [where_ args]. cbv zeta.
  rewrite FrameFacts.bind_apply, Query_select_result.
  destruct (match Db.prepare _ _ with Some _ => _ | None => _ end)
    as [rows | err]; [| now cbn].
  mstep. rewrite FrameFacts.bind_apply.
  destruct rows; [| destruct (dbScanOk e)]; now cbn.
Qed.

End GetFacts.

Module GetOrder.
Import ItemUtil ItemSpec.

Lemma insertBy_sorted (le : row -> row -> bool) r l :
  (forall a b, le a b = true \/ le b a = true) ->
  Sorted (fun a b => le a b = true) l ->
  Sorted (fun a b => le a b = true) (Db.insertBy le r l).
Proof.
  intros Htot Hs. induction Hs as [|x l Hs IH Hd]; cbn.
  - repeat constructor.
  - destruct (le r x) eqn:Hrx.
    + constructor; [now constructor | now constructor].
    + constructor; [exact IH |].
      assert (Hxr : le x r = true)
        by (destruct (Htot r x) as [H | H]; [congruence | exact H]).
      destruct Hd as [|y l' Hxy]; cbn.
      * now constructor.
      * destruct (le r y); now constructor.
Qed.

Lemma inOrder_sorted e l :
  Sorted (fun a b => (r_id a <=? r_id b) = true) (inOrder e ByID l).
Proof.
  unfold inOrder. induction l as [|r l IH]; cbn [fold_right]; [constructor |].
  apply (insertBy_sorted (before e ByID)); [| exact IH].
  intros a b. cbn [before]. rewrite !Z.leb_le. lia.
Qed.

(** The rows [Get] is given when it asks for the order of the ids. *)
Lemma Query_by_id_sorted e wh args w rows :
  fst (Pgx.Query e (SSelect wh (orderText ByID)) args w) = inl rows ->
  Sorted (fun a b => (r_id a <=? r_id b) = true) rows.
Proof.
  rewrite GetFacts.Query_select_result. cbn [fst].
  destruct (Db.prepare _ _); [discriminate |].
  destruct (dbQueryOk e); [| discriminate].
  rewrite GetFacts.ordered_text. intros [= <-]. apply inOrder_sorted.
Qed.

End GetOrder.

(** ** More on Add *)

Module AddRun.
Import ItemUtil ItemSpec PgxFacts ModFacts.

Lemma Add_run e it w n p :
  Name it = Some n -> Price it = Some p ->
  (Img_Reader it <> None ->
   Img_Name it <> None /\ osCreateOk e = true /\ ioCopyOk e = true) ->
  dbExecOk e = true ->
  exists t,
    Add e it w =
    (inl tt,
     World (match storedImg e it, Img_Reader it with
            | Some img, Some data => <[ImgPath img := data]> (files w)
            | _, _ => files w
            end)
           (table w ++ [Row (nextId e) n (Descr it) p (storedImg e it)])
           (txOpen w) t).
Proof.
  intros Hn Hp Himg Hx. unfold Add, storedImg.
  destruct it as [iid iname descr price imgn ireader]; cbn in Hn, Hp, Himg; subst.
  cbn [ID Name Price Descr Img_Name Img_Reader].
  destruct ireader as [data|].
  - destruct Himg as (Hin & Hc & Ho); [discriminate |].
    destruct imgn as [f|]; [| contradiction].
    rewrite !FrameFacts.bind_apply. unfold mret at 1, M_ret at 1.
    rewrite FrameFacts.bind_apply, copyImg_ok by assumption.
    cbv beta iota zeta. unfold mret at 1, M_ret at 1. cbv beta iota zeta.
    destruct descr as [d|]; cbn [app length]; rewrite FrameFacts.bind_apply; unfold try;
      (erewrite Exec_ok;
       [| unfold Db.run, Db.prepare; cbn; rewrite Hx; reflexivity]);
      cbv beta iota zeta; eexists; unfold mret, M_ret; do 2 f_equal;
      cbn [files]; apply insert_insert_eq.
  - rewrite !FrameFacts.bind_apply. unfold mret at 1, M_ret at 1.
    cbv beta iota zeta.
    destruct descr as [d|]; cbn [app length]; rewrite FrameFacts.bind_apply; unfold try;
      (erewrite Exec_ok;
       [| unfold Db.run, Db.prepare; cbn; rewrite Hx; reflexivity]);
      cbv beta iota zeta; eexists; reflexivity.
Qed.

End AddRun.

(** ** More on Mod *)

Module ModRun.
Import ItemUtil ItemSpec PgxFacts TxFacts ModFacts.
Lemma Exec_failed e q args w err :
  Db.run e q args (table w) = inr err ->
  Pgx.Exec e q args w =
  (inr err, World (files w) (table w) (txOpen w) (trace w ++ [DbExec q args])).
Proof. intros H. mrun. now rewrite H. Qed.

Lemma updateRows_map st hit f t :
  (forall r, Db.assignAll st r = Some (f r)) ->
  Db.updateRows st hit t = Some ((fun r => if hit r then f r else r) <$> t).
Proof.
  intros Hf. induction t as [|r t IH]; [reflexivity |].
  cbn [Db.updateRows]. rewrite IH, Hf. cbn. now destruct (hit r).
Qed.

Lemma run_update e st wh args t f hit :
  Db.prepare (SUpdate st wh) args = None -> dbExecOk e = true ->
  (forall r, Db.assignAll ((fun c => (c_fld c, Db.arg args (c_ph c))) <$> st) r
             = Some (f r)) ->
  (forall r, Db.matches wh args r = hit r) ->
  Db.run e (SUpdate st wh) args t =
  inl ((fun r => if hit r then f r else r) <$> t).
Proof.
  intros Hp Hx Hf Hm. unfold Db.run. rewrite Hp, Hx.
  rewrite (updateRows_map _ (Db.matches wh args) f) by exact Hf.
  f_equal. apply list_fmap_ext. intros i r _. now rewrite Hm.
Qed.

(** The transaction of [Mod] when the image is not changed. *)
Lemma modTx_plain e it set_ args where_ whereArg w :
  Img_Name it = None -> dbBeginOk e = true ->
  exists tr,
    modTx e it set_ args where_ whereArg "" "" w =
    (match Db.run e (SUpdate set_ [where_]) args (table w) with
     | inl _ => inl tt
     | inr err => inr err
     end,
     World (files w)
           (match Db.run e (SUpdate set_ [where_]) args (table w) with
            | inl t' => if dbCommitOk e then t' else table w
            | inr _ => table w
            end)
           None tr).
Proof.
  intros Hn Hb. unfold modTx. rewrite Hn.
  rewrite FrameFacts.bind_apply, Begin_result, Hb. unfold defer.
  rewrite FrameFacts.bind_apply. unfold mret at 1, M_ret at 1. mstep.
  rewrite FrameFacts.bind_apply. unfold try.
  destruct (Db.run e (SUpdate set_ [where_]) args (table w)) as [t' | err] eqn:Hrun.
  - erewrite Exec_ok by exact Hrun. mstep.
    rewrite FrameFacts.bind_apply.
    erewrite Commit_result by reflexivity. mstep.
    cbn [String.eqb negb]. rewrite FrameFacts.bind_apply.
    unfold mret, M_ret. mstep.
    rewrite Rollback_closed by reflexivity. mstep. eexists. reflexivity.
  - erewrite Exec_failed by exact Hrun. mstep. unfold rmImg. cbn [String.eqb negb].
    rewrite FrameFacts.bind_apply. unfold mret, M_ret, fail. mstep.
    erewrite Rollback_open by reflexivity. mstep. eexists. reflexivity.
Qed.

Lemma Mod_run e id name it w :
  Img_Name it = None -> changesSome it = true ->
  dbBeginOk e = true -> dbExecOk e = true ->
  exists tr,
    Mod e id name it w =
    (inl tt,
     World (files w)
           (if dbCommitOk e
            then (fun r => if addressed id name r then changed it r else r)
                   <$> table w
            else table w)
           None tr).
Proof.
  intros Hn Hsome Hb Hx. unfold Mod.
  destruct it as [iid iname descr price imgn ireader]; cbn in Hn; subst.
  cbn [ID Name Price Descr Img_Name Img_Reader].
  rewrite FrameFacts.bind_apply. unfold mret at 1, M_ret at 1.
  cbv beta iota zeta.
  set (it := mkItem iid iname descr price None ireader).
  assert (Hrun : forall st args wh wa,
    Db.prepare (SUpdate st [wh]) args = None ->
    (forall r, Db.assignAll
                 ((fun c => (c_fld c, Db.arg args (c_ph c))) <$> st) r
               = Some (changed it r)) ->
    (forall r, Db.matches [wh] args r = addressed id name r) ->
    exists tr,
      modTx e it st args wh wa "" "" w =
      (inl tt,
       World (files w)
         (if dbCommitOk e
          then (fun r => if addressed id name r then changed it r else r)
                 <$> table w
          else table w) None tr)).
  { intros st args wh wa Hp Hf Hm.
    destruct (modTx_plain e it st args wh wa w eq_refl Hb) as [tr ->].
    rewrite (run_update e st [wh] args (table w) (changed it)
               (addressed id name)) by assumption.
    now exists tr. }
  destruct iid as [i|], iname as [n|], price as [p|], descr as [d|];
    try discriminate Hsome; try destruct (String.eqb d "") eqn:Hd;
    destruct (0 <=? id) eqn:Hid; cbn [newArg app length Nat.add];
    apply Hrun;
    first [ reflexivity
          | intros [rid rname rdescr rprice rimg];
            unfold changed, addressed, it; cbn;
            rewrite ?Hd, ?Hid, ?orb_false_r; reflexivity ].
Qed.

Lemma modTx_files e it set_ args where_ whereArg w :
  Img_Name it = None ->
  files (snd (modTx e it set_ args where_ whereArg "" "" w)) = files w.
Proof.
  intros Hn. destruct (dbBeginOk e) eqn:Hb.
  - now destruct (modTx_plain e it set_ args where_ whereArg w Hn Hb) as [tr ->].
  - unfold modTx. rewrite FrameFacts.bind_apply, Begin_result, Hb. reflexivity.
Qed.

(** Without a change of image [Mod] leaves every file alone. *)
Lemma Mod_files e id name it w :
  Img_Name it = None -> files (snd (Mod e id name it w)) = files w.
Proof.
  intros Hn. unfold Mod.
  destruct it as [iid iname descr price imgn ireader]; cbn in Hn; subst.
  cbn [ID Name Price Descr Img_Name Img_Reader].
  rewrite FrameFacts.bind_apply. unfold mret at 1, M_ret at 1.
  cbv beta iota zeta.
  match goal with
  | |- context [match descr with Some _ => _ | None => ?st end] => generalize st
  end.
  intros st.
  destruct (match descr with Some _ => _ | None => _ end) as [set_ args].
  destruct (0 <=? id); now apply modTx_files.
Qed.

Lemma prepare_mismatch fld k v :
  k <> 1%nat -> Db.prepare (SSelectImg [Clause fld k]) [v] = Some EDbParams.
Proof.
  intros Hk. unfold Db.prepare, Db.bindOk. cbn.
  destruct k as [|[|k]]; [reflexivity | contradiction | reflexivity].
Qed.

Lemma Query_refused e q args w err :
  Db.prepare q args = Some err ->
  Pgx.Query e q args w =
  (inr err, World (files w) (table w) (txOpen w) (trace w ++ [DbQuery q args])).
Proof. intros H. mrun. now rewrite H. Qed.

Lemma rmImg_result np w :
  fst (rmImg np w) = inl tt /\ table (snd (rmImg np w)) = table w /\
  txOpen (snd (rmImg np w)) = txOpen w.
Proof. unfold rmImg. destruct (negb _); now cbn. Qed.

(** The transaction of [Mod] when the image is changed and the [SELECT]
    names another placeholder than [$1]. *)
Lemma modTx_mismatch e it set_ args fld k whereArg img np w n :
  Img_Name it = Some n -> dbBeginOk e = true -> k <> 1%nat ->
  exists f tr,
    modTx e it set_ args (Clause fld k) whereArg img np w =
    (inr EDbParams, World f (table w) None tr).
Proof.
  intros Hn Hb Hk. unfold modTx. rewrite Hn.
  rewrite FrameFacts.bind_apply, Begin_result, Hb. unfold defer.
  rewrite FrameFacts.bind_apply. rewrite FrameFacts.bind_apply.
  unfold try at 1, QueryRowImg. rewrite FrameFacts.bind_apply.
  rewrite (Query_refused _ _ _ _ EDbParams) by now apply prepare_mismatch.
  mstep. rewrite FrameFacts.bind_apply.
  set (w1 := World _ _ _ _).
  destruct (rmImg_result np w1) as (Hr & Ht & Hx).
  destruct (rmImg np w1) as [r w2]. cbn [fst snd] in *. subst r.
  unfold fail. mstep.
  rewrite (Rollback_open w2 (table w)) by (rewrite Hx; reflexivity).
  eexists _, _. reflexivity.
Qed.

(** [Mod] with a change of image asks for the old image with a statement
    whose only placeholder is not [$1], and returns the server's error. *)
Lemma Mod_image e id name it w n :
  Img_Name it = Some n -> dbBeginOk e = true ->
  (n <> "" ->
   Img_Reader it <> None /\ osCreateOk e = true /\ ioCopyOk e = true) ->
  exists f tr,
    Mod e id name it w = (inr EDbParams, World f (table w) None tr).
Proof.
  intros Hn Hb Himg. unfold Mod.
  destruct it as [iid iname descr price imgn ireader]; cbn in Hn, Himg; subst.
  cbn [ID Name Price Descr Img_Name Img_Reader].
  set (it := mkItem iid iname descr price (Some n) ireader).
  match goal with
  | |- context [newArg "img" VNull ?st] => generalize st
  end.
  intros [set0 args0].
  assert (Hk : forall (l : list clause) c, (length (l ++ [c]) + 1 <> 1)%nat)
    by (intros l c; rewrite length_app; cbn; lia).
  assert (Hk2 : forall (l : list clause) c c',
             (length ((l ++ [c]) ++ [c']) + 1 <> 1)%nat)
    by (intros l c c'; rewrite !length_app; cbn; lia).
  destruct (String.eqb n "") eqn:Hne.
  - rewrite FrameFacts.bind_apply. unfold mret at 1, M_ret at 1.
    cbv beta iota.
    destruct descr as [d|]; [destruct (String.eqb d "") |];
      cbn [newArg]; destruct (0 <=? id);
      match goal with
      | |- context [modTx ?e ?it ?s ?a (Clause ?fld ?k) ?wa ?img ?np ?w1] =>
          destruct (modTx_mismatch e it s a fld k wa img np w1 n eq_refl Hb)
            as (f & tr & ->); [auto | now eexists _, _]
      end.
  - destruct Himg as (Hr & Hc & Ho); [now apply String.eqb_neq |].
    destruct ireader as [data|]; [| contradiction].
    rewrite !FrameFacts.bind_apply, copyImg_ok by assumption.
    cbv beta iota zeta. unfold mret at 1, M_ret at 1. cbv beta iota.
    destruct descr as [d|]; [destruct (String.eqb d "") |];
      cbn [newArg]; destruct (0 <=? id);
      match goal with
      | |- context [modTx ?e ?it ?s ?a (Clause ?fld ?k) ?wa ?img ?np ?w1] =>
          destruct (modTx_mismatch e it s a fld k wa img np w1 n eq_refl Hb)
            as (f & tr & ->); [auto | now eexists _, _]
      end.
Qed.

End ModRun.

(** ** More on prices *)

Module PriceMore.
Import Strconv PriceSpec PriceCanon PriceFacts ItoaFacts FormatFacts RegexpFacts.

Lemma digitChar_digitVal c :
  Str.isDigit c = true -> Str.digitChar (Str.digitVal c) = c.
Proof.
  intros H. pose proof (digitVal_range c H) as Hr.
  unfold Str.digitChar, Str.digitVal in *.
  replace (Z.to_N (Z.of_N (N_of_ascii c) - 48 + 48)) with (N_of_ascii c) by lia.
  apply ascii_N_embedding.
Qed.

Lemma fractionUnits_range fr : FractionPart fr -> 0 <= fractionUnits fr < 100.
Proof.
  intros [-> | [(a & Ha & ->) | (a & b & Ha & Hb & ->)]]; cbn.
  - lia.
  - pose proof (digitVal_range a Ha). lia.
  - pose proof (digitVal_range a Ha). pose proof (digitVal_range b Hb). lia.
Qed.

(** A parsed price is never negative. *)
Lemma Set_range s n : Price.Set_ s = inl n -> 0 <= n <= GoInt.maxInt.
Proof.
  intros H. destruct (PriceShape.split s) as [[ip fr]|] eqn:Hs.
  - apply split_spec in Hs as (-> & Hip & Hfr).
    rewrite (Set_wellformed ip fr Hip Hfr) in H.
    destruct (minorUnits ip fr <=? GoInt.maxInt) eqn:Hle; [| discriminate].
    injection H as <-. apply Z.leb_le in Hle. split; [| exact Hle].
    unfold minorUnits. destruct Hip as (_ & Hd & _).
    pose proof (digitsVal_nonneg ip 0 Hd ltac:(lia)).
    pose proof (fractionUnits_range fr Hfr). lia.
  - apply split_None in Hs. rewrite (Set_illformed s Hs) in H. discriminate.
Qed.

Lemma Itoa_digitsVal_acc ds : forall acc,
  Str.allDigits ds = true -> 1 <= acc ->
  Itoa (digitsVal acc ds) = Itoa acc +:+ ds.
Proof.
  induction ds as [|c ds IH]; intros acc Hd Hacc.
  - cbn. generalize (Itoa acc). intros s.
    induction s as [|a s IHs]; [reflexivity |].
    rewrite append_cons. now rewrite <- IHs.
  - cbn in Hd. apply andb_true_iff in Hd as [Hc Hd].
    pose proof (digitVal_range c Hc) as Hr.
    cbn [digitsVal]. rewrite IH by (try assumption; lia).
    rewrite Itoa_snoc by lia.
    replace ((acc * 10 + Str.digitVal c) / 10) with acc
      by (apply Z.div_unique with (r := Str.digitVal c); lia).
    replace ((acc * 10 + Str.digitVal c) mod 10) with (Str.digitVal c)
      by (apply Z.mod_unique with (q := acc); lia).
    rewrite digitChar_digitVal by exact Hc.
    rewrite append_assoc. reflexivity.
Qed.

(** The numeral of the value of an integer part is the integer part. *)
Lemma Itoa_digitsVal ip : IntegerPart ip -> Itoa (digitsVal 0 ip) = ip.
Proof.
  intros (Hne & Hd & [-> | (c & r & -> & Hc)]); [reflexivity |].
  cbn in Hd. apply andb_true_iff in Hd as [Hdc Hd].
  pose proof (digitVal_range c Hdc) as Hr.
  assert (Str.digitVal c <> 0).
  { intros H0. apply Hc. rewrite <- (digitChar_digitVal c Hdc), H0. reflexivity. }
  cbn [digitsVal]. rewrite Z.mul_0_l, Z.add_0_l.
  rewrite Itoa_digitsVal_acc by (try assumption; lia).
  rewrite Itoa_small by lia. now rewrite digitChar_digitVal.
Qed.

(** [Price.String] of a parsed price: the integer part, a point and two
    digits. *)
Lemma String_minorUnits ip fr :
  IntegerPart ip -> FractionPart fr ->
  Price.String_ (minorUnits ip fr) = ip +:+ "." +:+ twoDigits fr.
Proof.
  intros Hip Hfr.
  assert (Hv : 0 <= digitsVal 0 ip)
    by (destruct Hip as (_ & Hd & _); now apply digitsVal_nonneg).
  pose proof (fractionUnits_range fr Hfr) as Hf.
  rewrite String_nonneg by (unfold minorUnits; lia).
  replace (minorUnits ip fr / 100) with (digitsVal 0 ip)
    by (unfold minorUnits;
        apply Z.div_unique with (r := fractionUnits fr); lia).
  rewrite (Itoa_digitsVal ip Hip). f_equal.
  unfold cents, minorUnits.
  set (V := digitsVal 0 ip) in *.
  destruct Hfr as [-> | [(a & Ha & ->) | (a & b & Ha & Hb & ->)]];
    cbn [fractionUnits twoDigits] in *.
  - replace ((100 * V + 0) / 10 mod 10) with 0
      by (replace ((100 * V + 0) / 10) with (10 * V)
            by (apply Z.div_unique with (r := 0); lia);
          apply Z.mod_unique with (q := V); lia).
    replace ((100 * V + 0) mod 10) with 0
      by (apply Z.mod_unique with (q := 10 * V); lia).
    reflexivity.
  - pose proof (digitVal_range a Ha).
    replace ((100 * V + 10 * Str.digitVal a) / 10) with (10 * V + Str.digitVal a)
      by (apply Z.div_unique with (r := 0); lia).
    replace ((10 * V + Str.digitVal a) mod 10) with (Str.digitVal a)
      by (apply Z.mod_unique with (q := V); lia).
    replace ((100 * V + 10 * Str.digitVal a) mod 10) with 0
      by (apply Z.mod_unique with (q := 10 * V + Str.digitVal a); lia).
    rewrite digitChar_digitVal by exact Ha. reflexivity.
  - pose proof (digitVal_range a Ha). pose proof (digitVal_range b Hb).
    replace ((100 * V + (10 * Str.digitVal a + Str.digitVal b)) / 10)
      with (10 * V + Str.digitVal a)
      by (apply Z.div_unique with (r := Str.digitVal b); lia).
    replace ((10 * V + Str.digitVal a) mod 10) with (Str.digitVal a)
      by (apply Z.mod_unique with (q := V); lia).
    replace ((100 * V + (10 * Str.digitVal a + Str.digitVal b)) mod 10)
      with (Str.digitVal b)
      by (apply Z.mod_unique with (q := 10 * V + Str.digitVal a); lia).
    rewrite !digitChar_digitVal by assumption. reflexivity.
Qed.

Lemma Set_String_neg p :
  GoInt.minInt < p < 0 -> Price.Set_ (Price.String_ p) = inr Price.InvalidPrice.
Proof.
  intros Hp. rewrite String_neg by exact Hp. rewrite Set_split.
  reflexivity.
Qed.

(** Two prices with the same text are the same. *)
Lemma String_inj p q :
  GoInt.minInt < p <= GoInt.maxInt -> GoInt.minInt < q <= GoInt.maxInt ->
  Price.String_ p = Price.String_ q -> p = q.
Proof.
  assert (Hpos : forall a b, 0 <= a <= GoInt.maxInt -> 0 <= b <= GoInt.maxInt ->
                   Price.String_ a = Price.String_ b -> a = b).
  { intros a b Ha Hb E.
    pose proof (Set_String a Ha) as Sa. rewrite E, (Set_String b Hb) in Sa.
    congruence. }
  intros Hp Hq E.
  destruct (Z.ltb_spec p 0) as [Hp0 | Hp0], (Z.ltb_spec q 0) as [Hq0 | Hq0].
  - rewrite (String_neg p), (String_neg q) in E by lia.
    assert (Price.String_ (- p) = Price.String_ (- q)).
    { generalize dependent (Price.String_ (- q)).
      generalize (Price.String_ (- p)). intros a b.
      change ("-" +:+ a) with (String "-" a).
      change ("-" +:+ b) with (String "-" b). congruence. }
    assert (- p = - q)
      by (apply Hpos; unfold GoInt.minInt, GoInt.maxInt in *; (lia || assumption)).
    lia.
  - pose proof (Set_String_neg p ltac:(lia)) as Sp.
    rewrite E, Set_String in Sp by lia. discriminate.
  - pose proof (Set_String_neg q ltac:(lia)) as Sq.
    rewrite <- E, Set_String in Sq by lia. discriminate.
  - apply Hpos; (lia || assumption).
Qed.

End PriceMore.

(** ** More on reading a number off a form *)

Module StoiMore.
Import Regexp PriceShape RegexpFacts PriceFacts ItoaFacts StoiFacts Serve ServeSpec.

Lemma spanDigits_rest_nil s :
  snd (spanDigits s) = "" -> Str.allDigits s = true.
Proof.
  induction s as [|c s IH]; [reflexivity |].
  cbn. destruct (Str.isDigit c); [| discriminate].
  destruct (spanDigits s) as [ds r]. cbn in *. exact IH.
Qed.

(** What [intRE] matches at the start of a text. *)
Lemma rx_intRE_here bol s m cs :
  rx intRE bol s [] (fun _ s' cs => Some (consumed s s', cs)) = Some (m, cs) ->
  m = "0" \/ numeral m.
Proof.
  destruct s as [|a s']; [destruct bol; discriminate |].
  unfold intRE. cbn [rx].
  destruct (bol && Ascii.eqb a "0") eqn:H0.
  - apply andb_true_iff in H0 as [-> H0]. rewrite H0.
    apply Ascii.eqb_eq in H0. subst a.
    intros [= <- <-]. left. unfold consumed. cbn [String.length].
    replace (S (String.length s') - String.length s')%nat with 1%nat by lia.
    reflexivity.
  - replace (if bol then if Ascii.eqb a "0" then _ else None else None)
      with (@None (string * caps))
      by (destruct bol; [cbn in H0; now rewrite H0 | reflexivity]).
    destruct (inRange "1" "9" a) eqn:Ha; [| discriminate].
    match goal with
    | |- context [star ?m ?k' ?f false ?s ?cs] =>
        change (star m k' f false s cs)
          with (star (rx (RRange "0" "9")) k' f false s cs)
    end.
    rewrite star_digits; [| intros b d s cs0 _; reflexivity | lia].
    cbn [rx]. destruct (snd (spanDigits s')) eqn:Hr; [| discriminate].
    intros [= <- <-]. right. exists a, s'. rewrite consumed_all.
    split; [reflexivity |]. split; [exact Ha |].
    now apply spanDigits_rest_nil.
Qed.

Lemma findFrom_intRE s : forall bol m cs,
  findFrom intRE bol s = Some (m, cs) -> m = "0" \/ numeral m.
Proof.
  induction s as [|a s IH]; intros bol m cs; cbn [findFrom].
  - destruct (rx intRE bol "" [] _) as [[m' cs']|] eqn:Hrx; [| discriminate].
    intros [= <- <-]. eapply rx_intRE_here, Hrx.
  - destruct (rx intRE bol (String a s) [] _) as [[m' cs']|] eqn:Hrx.
    + intros [= <- <-]. eapply rx_intRE_here, Hrx.
    + apply IH.
Qed.

(** The text [stoi] hands to [strconv.Atoi]. *)
Lemma FindString_intRE s :
  FindString intRE s = "" \/ FindString intRE s = "0" \/
  numeral (FindString intRE s).
Proof.
  unfold FindString. destruct (findFrom intRE true s) as [[m cs]|] eqn:H;
    [| now left].
  right. eapply findFrom_intRE, H.
Qed.

(** What [stoi] can return. *)
Lemma stoi_cases s :
  stoi s = (0, Some Strconv.ErrSyntax) \/
  (exists n, stoi s = (n, None) /\ 0 <= n <= GoInt.maxInt) \/
  stoi s = (GoInt.maxInt, Some Strconv.ErrRange).
Proof.
  unfold stoi.
  destruct (FindString_intRE s) as [-> | [-> | (c & ds & -> & Hc & Hd)]].
  - now left.
  - right; left. exists 0. split; [reflexivity | unfold GoInt.maxInt; lia].
  - assert (Hall : Str.allDigits (String c ds) = true)
      by (cbn; now rewrite (inRange19_digit c Hc), Hd).
    rewrite Atoi_digits by (discriminate || exact Hall).
    destruct (Z.leb_spec (Strconv.digitsVal 0 (String c ds)) GoInt.maxInt).
    + right; left. eexists. split; [reflexivity |]. split; [| assumption].
      apply PriceFacts.digitsVal_nonneg; [exact Hall | lia].
    + now right; right.
Qed.

(** [stoi] reads back what [strconv.Itoa] writes of a number that is not
    negative. *)
Lemma stoi_Itoa n :
  0 <= n <= GoInt.maxInt -> stoi (Strconv.Itoa n) = (n, None).
Proof.
  intros Hn. unfold stoi.
  pose proof (Itoa_digits n ltac:(lia)) as Hd.
  pose proof (Itoa_val n ltac:(lia)) as Hv.
  destruct (Itoa_lead n ltac:(lia)) as [[-> ->] | [_ (c & ds & E & Hc)]];
    [reflexivity |].
  rewrite E in *.
  cbn [Str.allDigits] in Hd. apply andb_true_iff in Hd as [Hdc Hds].
  rewrite FindString_numeral by auto using digit_not0_inRange19.
  rewrite Atoi_digits; [| discriminate | cbn; now rewrite Hdc, Hds].
  rewrite Hv.
  now replace (n <=? GoInt.maxInt) with true by (symmetry; apply Z.leb_le; lia).
Qed.

End StoiMore.

(** ** More on the order of the storefront *)

Module RootFacts.
Import ItemUtil ItemSpec Serve ServeSpec Order OrderFacts StoiMore.

Lemma orderStep_ids form k st :
  (forall id, In id (fst st) <-> is_Some (snd st !! id)) ->
  forall id, In id (fst (orderStep form st k)) <->
             is_Some (snd (orderStep form st k) !! id).
Proof.
  intros Hst. destruct st as [ids ordered]. unfold orderStep.
  destruct (existsb _ _); [exact Hst |].
  destruct (stoi k) as [i [e|]]; [exact Hst |].
  destruct (stoi (FormValue form k)) as [m err].
  destruct ((m <=? 0) || (100 <? m) || bool_decide (err <> None)); [exact Hst |].
  intros id. cbn [fst snd] in *. rewrite in_app_iff, lookup_insert.
  case_decide as Hid.
  - subst. split; [intros _; now eexists | intros _; right; now left].
  - rewrite <- Hst. split; [intros [H | [H | []]]; [exact H | congruence] | auto].
Qed.

(** The ids the loop collects are those it has a quantity for. *)
Lemma orderLoop_ids form id :
  In id (fst (orderLoop form)) <-> is_Some (snd (orderLoop form) !! id).
Proof.
  unfold orderLoop. generalize (fst <$> form). intros ks.
  assert (H0 : forall id, In id (fst (@nil Z, (∅ : gmap Z Z))) <->
                          is_Some (snd (@nil Z, (∅ : gmap Z Z)) !! id)).
  { intros i. cbn. rewrite lookup_empty. split; [intros [] | intros [x Hx]; discriminate]. }
  revert H0. generalize (@nil Z, (∅ : gmap Z Z)). revert id.
  induction ks as [|k ks IH]; intros id st Hst; cbn [fold_left].
  - apply Hst.
  - apply IH. now apply orderStep_ids.
Qed.

Lemma orderStep_nonneg form k st :
  (forall id, In id (fst st) -> 0 <= id) ->
  forall id, In id (fst (orderStep form st k)) -> 0 <= id.
Proof.
  intros Hst. destruct st as [ids ordered]. unfold orderStep.
  destruct (existsb _ _); [exact Hst |].
  destruct (stoi_cases k) as [-> | [(n & -> & Hn) | ->]]; try exact Hst.
  destruct (stoi (FormValue form k)) as [m err].
  destruct ((m <=? 0) || (100 <? m) || bool_decide (err <> None)); [exact Hst |].
  intros id. cbn [fst]. rewrite in_app_iff.
  intros [H | [<- | []]]; [now apply Hst | lia].
Qed.

(** No id the loop collects is negative. *)
Lemma orderLoop_nonneg form id : In id (fst (orderLoop form)) -> 0 <= id.
Proof.
  unfold orderLoop. generalize (fst <$> form). intros ks.
  assert (H0 : forall id, In id (fst (@nil Z, (∅ : gmap Z Z))) -> 0 <= id)
    by (intros i []).
  revert H0. generalize (@nil Z, (∅ : gmap Z Z)). revert id.
  induction ks as [|k ks IH]; intros id st Hst; cbn [fold_left].
  - apply Hst.
  - apply IH. now apply orderStep_nonneg.
Qed.

Lemma getItems_run e ids names w :
  dbQueryOk e = true -> dbScanOk e = true ->
  exists t,
    getItems e ids names w =
    (inl (pageItem <$> inOrder e ByName (selected ids names (table w))),
     World (files w) (table w) (txOpen w) t).
Proof.
  intros Hq Hs. unfold getItems. rewrite FrameFacts.bind_apply.
  destruct (GetFacts.Get_run e ids names ByName w Hq Hs) as [t ->].
  exists t. unfold mret, M_ret. f_equal. f_equal.
  rewrite <- list_fmap_compose. reflexivity.
Qed.

Lemma getItems_frame e ids names w :
  files (snd (getItems e ids names w)) = files w /\
  table (snd (getItems e ids names w)) = table w.
Proof.
  unfold getItems. rewrite FrameFacts.bind_apply.
  destruct (GetFacts.Get_frame e ids names ByName w) as (Hf & Ht & _).
  destruct (Get e ids names ByName w) as [[its | err] w1]; cbn in *; now split.
Qed.

(** [handleRoot] only reads. *)
Lemma handleRoot_frame e method form w :
  files (snd (handleRoot e method form w)) = files w /\
  table (snd (handleRoot e method form w)) = table w.
Proof.
  unfold handleRoot.
  destruct (_ && negb _); [now split |].
  destruct (if String.eqb method "POST" then orderLoop form else ([], ∅))
    as [ids ordered].
  rewrite FrameFacts.bind_apply. unfold try.
  destruct (getItems_frame e ids [] w) as [Hf Ht].
  destruct (getItems e ids [] w) as [[its | err] w1]; cbn [fst snd] in *.
  - destruct (String.eqb method "POST"); [destruct (checkout _ _ _) |];
      now split.
  - now split.
Qed.

(** The page of a checkout. *)
Lemma handleRoot_checkout e form w :
  dbQueryOk e = true -> dbScanOk e = true ->
  String.eqb (FormValue form "action") "order"
  || String.eqb (FormValue form "action") "checkout" = true ->
  let ids := fst (orderLoop form) in
  let ordered := snd (orderLoop form) in
  let items := pageItem <$> inOrder e ByName (selected ids [] (table w)) in
  fst (handleRoot e "POST" form w) =
  inl (Rendered
         (mkPage true (String.eqb (FormValue form "action") "order")
            (mkPrice 500 "5.00")
            (Price.String_
               (GoInt.wrap (sumZ (lineTotals (line ordered <$> items)) + 500)))
            (line ordered <$> items))).
Proof.
  intros Hq Hs Hact. cbv zeta. unfold handleRoot.
  cbn [String.eqb Ascii.eqb Bool.eqb andb]. rewrite Hact. cbn [negb].
  destruct (orderLoop form) as [ids ordered]. cbn [fst snd].
  rewrite FrameFacts.bind_apply. unfold try.
  destruct (getItems_run e ids [] w Hq Hs) as [t ->].
  rewrite checkout_eq. reflexivity.
Qed.

Lemma sumZ_zero (l : list Z) : (forall x, In x l -> x = 0) -> sumZ l = 0.
Proof.
  induction l as [|x l IH]; intros H; [reflexivity |].
  rewrite sumZ_cons, (H x) by now left.
  rewrite IH; [reflexivity |]. intros y Hy. apply H. now right.
Qed.

End RootFacts.

(** ** The arguments of the commands *)

Module ArgFacts.
Import Strconv ItemArg ItemCmd PriceFacts ItoaFacts RegexpFacts.

Lemma cutAt_digits sep ds :
  Str.isDigit sep = false -> Str.allDigits ds = true ->
  Strings.cutAt sep ds = None.
Proof.
  intros Hsep. induction ds as [|c ds IH]; intros Hd; [reflexivity |].
  cbn in Hd. apply andb_true_iff in Hd as [Hc Hd]. cbn.
  destruct (Ascii.eqb_spec c sep) as [-> | _]; [congruence |].
  now rewrite IH.
Qed.

(** A text in which no byte is the separator is not cut. *)
Lemma Cut_digits ds :
  Str.allDigits ds = true -> Strings.Cut ds ":" = (ds, "", false).
Proof.
  intros Hd. unfold Strings.Cut. now rewrite cutAt_digits.
Qed.

Lemma Atoi_Itoa_nonneg n :
  0 <= n <= GoInt.maxInt -> Atoi (Itoa n) = (n, None).
Proof.
  intros Hn.
  pose proof (Itoa_digits n ltac:(lia)) as Hd.
  pose proof (Itoa_val n ltac:(lia)) as Hv.
  rewrite Atoi_digits; [| | exact Hd].
  - rewrite Hv.
    now replace (n <=? GoInt.maxInt) with true by (symmetry; apply Z.leb_le; lia).
  - destruct (Itoa_lead n ltac:(lia)) as [[_ ->] | [_ (c & r & -> & _)]];
      discriminate.
Qed.

(** [ParseItem] reads the numeral of an id as that id. *)
Lemma ParseItem_Itoa n :
  0 <= n <= GoInt.maxInt -> ParseItem (Itoa n) = (n, "", None).
Proof.
  intros Hn. unfold ParseItem.
  rewrite Cut_digits by (apply Itoa_digits; lia).
  cbn [andb]. now rewrite Atoi_Itoa_nonneg.
Qed.

(** After [name:] everything is the name. *)
Lemma ParseItem_prefix s : ParseItem ("name:" +:+ s) = (-1, s, None).
Proof. reflexivity. Qed.

End ArgFacts.

Module ArgMore.
Import Strconv ItemArg ItemCmd PriceFacts ItoaFacts RegexpFacts.

Lemma cutAt_spec sep s a b :
  Strings.cutAt sep s = Some (a, b) -> s = a +:+ String sep b.
Proof.
  revert a. induction s as [|c s IH]; intros a; [discriminate |].
  cbn. destruct (Ascii.eqb_spec c sep) as [-> | _].
  - intros [= <- <-]. reflexivity.
  - destruct (Strings.cutAt sep s) as [[a' b']|]; [| discriminate].
    intros [= <- <-]. rewrite append_cons. f_equal. now apply IH.
Qed.

(** A text that does not start like a number and has no [name:] before it
    is taken as a name, as it is. *)
Lemma ParseItem_plain item :
  (forall suf, item <> "name:" +:+ suf) ->
  match item with
  | String c _ =>
      Str.isDigit c = false /\ c <> "+"%char /\ c <> "-"%char
  | EmptyString => True
  end ->
  ParseItem item = (-1, item, None).
Proof.
  intros Hpre Hc. unfold ParseItem, Strings.Cut.
  assert (Hsyn : Atoi item = (0, Some ErrSyntax)).
  { destruct item as [|c r]; [reflexivity |].
    destruct Hc as (Hd & Hp & Hm). unfold Atoi, ParseUint.
    replace (Ascii.eqb c "+") with false
      by (symmetry; now apply Ascii.eqb_neq).
    replace (Ascii.eqb c "-") with false
      by (symmetry; now apply Ascii.eqb_neq).
    cbn [String.length Nat.eqb parseUint]. now rewrite Hd. }
  destruct (Strings.cutAt ":" item) as [[a b]|] eqn:Hcut.
  - destruct (String.eqb_spec a "name") as [-> | _].
    + apply cutAt_spec in Hcut. exfalso. apply (Hpre b). exact Hcut.
    + cbn [andb]. now rewrite Hsyn.
  - cbn [andb]. now rewrite Hsyn.
Qed.

Lemma argLoop_ids ns : forall rest ids names,
  (forall n, In n ns -> 0 <= n <= GoInt.maxInt) ->
  argLoop ((Itoa <$> ns) ++ rest) ids names =
  argLoop rest (ids ++ ns) names.
Proof.
  induction ns as [|n ns IH]; intros rest ids names Hns.
  - cbn. now rewrite app_nil_r.
  - rewrite fmap_cons. cbn [app argLoop].
    rewrite ArgFacts.ParseItem_Itoa by (apply Hns; now left).
    replace (0 <=? n) with true
      by (symmetry; apply Z.leb_le; apply Hns; now left).
    rewrite IH by (intros m Hm; apply Hns; now right).
    now rewrite <- app_assoc.
Qed.

Lemma argLoop_names ss : forall ids names,
  argLoop ((fun s => "name:" +:+ s) <$> ss) ids names =
  inl (ids, (names ++ ss)%list).
Proof.
  induction ss as [|s ss IH]; intros ids names.
  - cbn. now rewrite app_nil_r.
  - rewrite fmap_cons. cbn [argLoop].
    rewrite ArgFacts.ParseItem_prefix. cbn [Z.leb Z.compare].
    rewrite IH. now rewrite <- app_assoc.
Qed.

(** What [cmdDel] makes of ids and of names after [name:]. *)
Lemma cmdDel_keys e cmd ids names w :
  (forall n, In n ids -> 0 <= n <= GoInt.maxInt) ->
  cmdDel e true
    (cmd :: (Itoa <$> ids) ++ ((fun s => "name:" +:+ s) <$> names)) w =
  match ItemUtil.Del e ids names w with
  | (inl _, w') => (inl tt, w')
  | (inr err, w') => (inr (DiedCall err), w')
  end.
Proof.
  intros Hids. unfold cmdDel. cbn [List.tl].
  rewrite argLoop_ids by exact Hids. rewrite argLoop_names. reflexivity.
Qed.

End ArgMore.

(** ** The name of a written image *)

Module ImgFacts.
Import Bytes ItemUtil RegexpFacts.

Lemma contains_rev c s : forall acc,
  contains c (Path.rev s acc) = contains c s || contains c acc.
Proof.
  induction s as [|a s IH]; intros acc; [reflexivity |].
  cbn [Path.rev contains]. rewrite IH. cbn [contains].
  destruct (Ascii.eqb a c), (contains c s), (contains c acc); reflexivity.
Qed.

Lemma contains_untilSlash s : contains "/" (Path.untilSlash s) = false.
Proof.
  induction s as [|a s IH]; [reflexivity |].
  cbn [Path.untilSlash]. destruct (Ascii.eqb a "/") eqn:Ha; [reflexivity |].
  cbn [contains]. now rewrite Ha, IH.
Qed.

Lemma contains_append c a b :
  contains c (a +:+ b) = contains c a || contains c b.
Proof.
  induction a as [|x a IH]; [reflexivity |].
  rewrite append_cons. cbn [contains]. rewrite IH. now rewrite orb_assoc.
Qed.

(** [path.Base] gives a name without a slash, but for a path of slashes. *)
Lemma Base_slash p : Path.Base p = "/" \/ contains "/" (Path.Base p) = false.
Proof.
  unfold Path.Base. destruct (String.length p =? 0)%nat; [now right |].
  cbv zeta. destruct (String.length _ =? 0)%nat; [now left |].
  right. rewrite contains_rev, contains_untilSlash. reflexivity.
Qed.

(** [copyImg] changes no file but the one it names. *)
Lemma copyImg_frame e name r w p :
  p <> ImgPath (now e +:+ "_" +:+ Path.Base name) ->
  files (snd (copyImg e name r w)) !! p = files w !! p.
Proof.
  intros Hp. unfold copyImg. mrun.
  destruct (osCreateOk e); [| reflexivity].
  destruct r as [data|]; cbn; [| now rewrite lookup_insert_ne].
  destruct (ioCopyOk e); cbn;
    rewrite ?lookup_delete_ne, ?lookup_insert_ne by congruence; reflexivity.
Qed.

Lemma copyImg_name e name r w img :
  fst (copyImg e name r w) = inl img ->
  img = now e +:+ "_" +:+ Path.Base name.
Proof.
  unfold copyImg. mrun.
  destruct (osCreateOk e); [| discriminate].
  destruct r as [data|]; cbn; [| discriminate].
  destruct (ioCopyOk e); cbn; [| discriminate]. congruence.
Qed.

End ImgFacts.

(** ** util.ItemMod *)

Module ItemModFacts.
Import Util PgxFacts.

(** Without a field to change [ItemMod] does nothing at all. *)
Lemma ItemMod_nothing e item img_name w :
  ItemMod e item (mkItem None None img_name None None) w =
  (inl (match Strconv.Atoi item with
        | (_, Some Strconv.ErrRange) => Some Strconv.ErrRange
        | _ => None
        end), w).
Proof.
  unfold ItemMod. destruct (Strconv.Atoi item) as [id [[|]|]]; reflexivity.
Qed.

Lemma Create_ok e path w :
  osCreateOk e = true ->
  Os.Create e path w =
  (inl tt, World (<[path := ""]> (files w)) (table w) (txOpen w)
                 (trace w ++ [OsCreate path])).
Proof. intros H. mrun. now rewrite H. Qed.

Lemma Copy_ok e path data w :
  ioCopyOk e = true ->
  Os.Copy e path data w =
  (inl tt, World (<[path := data]> (files w)) (table w) (txOpen w)
                 (trace w ++ [IoCopy path])).
Proof. intros H. mrun. now rewrite H. Qed.

(** [ItemMod] with a new image, once the image is written. *)
Lemma ItemMod_run e item i w data :
  Img_File i = Some data -> osCreateOk e = true -> ioCopyOk e = true ->
  let path := ImgPath (now e +:+ "_" +:+ Path.Base (Img_Name i)) in
  (exists err, ItemMod e item i w = (inl (Some err), w)) \/
  exists q args tr,
    ItemMod e item i w =
    (match Db.run e q args (table w) with
     | inl _ => inl None
     | inr er => inr er
     end,
     World (match Db.run e q args (table w) with
            | inl _ => <[path := data]> (files w)
            | inr _ => delete path (files w)
            end)
           (match Db.run e q args (table w) with
            | inl t' => t'
            | inr _ => table w
            end)
           (txOpen w) tr).
Proof.
  intros Hf Hc Ho. cbv zeta. unfold ItemMod.
  destruct i as [name descr iname ifile price]. cbn in Hf. subst ifile.
  cbn [Name Descr Img_Name Img_File Price].
  set (path := ImgPath (now e +:+ "_" +:+ Path.Base iname)).
  destruct (Strconv.Atoi item) as [id [[|]|]];
    [| left; now eexists |];
    right;
    rewrite !FrameFacts.bind_apply, Create_ok by exact Hc; cbv beta iota;
    rewrite FrameFacts.bind_apply; unfold try at 1;
    rewrite Copy_ok by exact Ho; cbv beta iota;
    unfold mret at 1, M_ret at 1; cbv beta iota;
    rewrite AddFacts.img_named; cbn [negb];
    destruct name as [n|], descr as [d|], price as [p|];
      cbn [addSet app length Nat.add Nat.eqb];
      rewrite FrameFacts.bind_apply; unfold try;
      match goal with
      | |- context [Pgx.Exec ?e ?q ?a ?w1] =>
          exists q, a;
          destruct (Db.run e q a (table w1)) as [t' | er] eqn:Hrun;
          cbn [table] in Hrun; rewrite Hrun;
          [ rewrite (Exec_ok e q a w1 t' Hrun)
          | rewrite (ModRun.Exec_failed e q a w1 er Hrun) ]
      end;
      cbv beta iota; rewrite ?FrameFacts.bind_apply;
      unfold Os.Remove, emit, setFiles, fail, mret, M_ret; mrun;
      eexists; rewrite ?delete_insert_eq, ?insert_insert_eq; reflexivity.
Qed.

(** When [ItemMod] has written a new image and then fails, the image is
    removed again, and nothing else has changed. *)
Lemma ItemMod_failed e item i w data err :
  Img_File i = Some data -> osCreateOk e = true -> ioCopyOk e = true ->
  fst (ItemMod e item i w) = inr err ->
  let path := ImgPath (now e +:+ "_" +:+ Path.Base (Img_Name i)) in
  table (snd (ItemMod e item i w)) = table w /\
  files (snd (ItemMod e item i w)) = delete path (files w).
Proof.
  intros Hf Hc Ho. cbv zeta.
  destruct (ItemMod_run e item i w data Hf Hc Ho)
    as [(er & ->) | (q & args & tr & ->)]; [discriminate |].
  destruct (Db.run e q args (table w)); [discriminate |]. now cbn.
Qed.

End ItemModFacts.

(** ** The forms of the administration *)

Module AdminFacts.
Import Admin.

Lemma itemAdd_refused e form image w :
  Serve.FormValue form "name" = "" \/
  (exists code, image = BadFile code) \/
  (exists err, Price.Set_ (Serve.FormValue form "price") = inr err) ->
  snd (itemAdd e form image w) = w /\
  fst (fst (itemAdd e form image w)) <> StatusOK.
Proof.
  unfold itemAdd. intros [Hn | [(code & ->) | (err & Hp)]].
  - rewrite Hn. now cbn.
  - destruct (String.eqb _ ""); now cbn.
  - destruct (String.eqb _ ""); [now cbn |].
    destruct image; rewrite ?Hp; now cbn.
Qed.

Lemma itemDel_refused e form w x err :
  Strconv.Atoi (Serve.FormValue form "id") = (x, Some err) ->
  itemDel e form w = ((StatusBadRequest, Some ErrBadID), w).
Proof. intros H. unfold itemDel. now rewrite H. Qed.

Lemma itemAdd_added e form image w p :
  Serve.FormValue form "name" <> "" ->
  Price.Set_ (Serve.FormValue form "price") = inl p ->
  (forall code, image <> BadFile code) ->
  (image <> NoFile -> osCreateOk e = true /\ ioCopyOk e = true) ->
  dbExecOk e = true ->
  fst (itemAdd e form image w) = (StatusOK, None) /\
  table (snd (itemAdd e form image w)) =
    (table w ++
     [Row (nextId e) (Serve.FormValue form "name")
          (nonEmpty (Serve.FormValue form "descr")) p
          (match image with
           | File filename _ => Some (now e +:+ "_" +:+ Path.Base filename)
           | _ => None
           end)])%list.
Proof.
  intros Hn Hp Himg Hio Hx. unfold itemAdd.
  replace (String.eqb (Serve.FormValue form "name") "") with false
    by (symmetry; now apply String.eqb_neq).
  rewrite Hp.
  destruct image as [|filename data|code]; [| | now destruct (Himg code)].
  - edestruct (AddRun.Add_run e) as [t ->];
      [reflexivity | reflexivity | cbn; congruence | exact Hx |].
    now cbn.
  - destruct Hio as [Hc Ho]; [discriminate |].
    edestruct (AddRun.Add_run e) as [t ->];
      [reflexivity | reflexivity
      | cbn; intros _; split; [discriminate | now split] | exact Hx |].
    now cbn.
Qed.

End AdminFacts.

(** * Further properties *)

Section Extras.
Import ItemUtil ItemSpec Keys Scenario.

(** X1. [Get] only reads: whatever the keys, the order and the answers of
    the database, it leaves the rows of the table and the files of the
    asset directory as they were. *)
Theorem Get_reads_only (e : env) (ids : list Z) (names : list string)
  (ord : Order) (w : world) :
  table (snd (Get e ids names ord w)) = table w /\
  files (snd (Get e ids names ord w)) = files w.
Proof.
  destruct (GetFacts.Get_frame e ids names ord w) as (Hf & Ht & _).
  now split.
Qed.

(** X2. On a database that answers the query, [Get] returns one item for
    each row that has one of the ids or one of the names, and for every row
    of the table when it is given no key at all; every item carries the
    row's id, name and price (never nil), its description and image, and no
    reader. *)
Theorem Get_returns_selected (e : env) (ids : list Z) (names : list string)
  (ord : Order) (w : world) :
  dbQueryOk e = true -> dbScanOk e = true ->
  exists rows,
    fst (Get e ids names ord w) = inl (itemOfRow <$> rows) /\
    rows ≡ₚ selected ids names (table w).
Proof.
  intros Hq Hs.
  destruct (GetFacts.Get_run e ids names ord w Hq Hs) as [t ->].
  eexists. split; [reflexivity |]. apply GetFacts.inOrder_perm.
Qed.

Lemma Get_returns_selected_witness :
  exists rows,
    fst (Get healthy [2; 9] [] ByName shop) = inl (itemOfRow <$> rows) /\
    rows ≡ₚ [Row 2 "pepperoni" (Some "hot") 1200
                 (Some "20240101_000000_p.png")].
Proof. exact (Get_returns_selected healthy [2; 9] [] ByName shop eq_refl eq_refl). Defined.

(** X3. With the order [ByID] [Get] ends its statement with
    [ORDER BY id], and the items it returns are those the server gave, in
    the server's order: whenever it returns items they are in ascending
    order of their ids. *)
Theorem Get_by_id_ascending (e : env) (ids : list Z) (names : list string)
  (w : world) (items : list Item) :
  fst (Get e ids names ByID w) = inl items ->
  Sorted Z.le (omap ID items).
Proof.
  unfold Get. destruct (fold_left _ names _) as [where_ args]. cbv zeta.
  rewrite FrameFacts.bind_apply.
  pose proof (GetOrder.Query_by_id_sorted e where_ args w) as Hq.
  match goal with
  | |- context [Pgx.Query e ?q args w] =>
      destruct (Pgx.Query e q args w) as [[rows | err] w1] eqn:HQ
  end; [| discriminate].
  specialize (Hq rows (f_equal fst HQ)). clear HQ.
  rewrite FrameFacts.bind_apply.
  match goal with
  | |- context [let (_, _) := ?x in _] => destruct x as [[u | err] w2]
  end; [| discriminate].
  intros [= <-].
  induction Hq as [|r l Hs IH Hd]; cbn; [constructor |].
  constructor; [exact IH |].
  destruct Hd as [|r' l' Hle]; cbn; constructor. now apply Z.leb_le.
Qed.

Lemma Get_by_id_ascending_witness :
  Sorted Z.le
    (omap ID [itemOfRow (Row 1 "margherita" None 500 None);
              itemOfRow (Row 2 "pepperoni" (Some "hot") 1200
                             (Some "20240101_000000_p.png"))]).
Proof. exact (Get_by_id_ascending healthy [2; 1] [] shop _ eq_refl). Defined.

(** X4. On a database that runs the insert, [Add] of an item with a name
    and a price returns no error and appends exactly one row: it has the
    next id of the sequence (the [ID] of the item is not stored), the
    name, the price and the description of the item, and as image the
    generated name [<time>_<base name>]; the file of that name under
    [img/] holds the bytes of the reader, and without a reader no file
    changes. *)
Theorem Add_stores (e : env) (it : Item) (w : world) (n : string) (p : Z) :
  Name it = Some n -> Price it = Some p ->
  (Img_Reader it <> None ->
   Img_Name it <> None /\ osCreateOk e = true /\ ioCopyOk e = true) ->
  dbExecOk e = true ->
  fst (Add e it w) = inl tt /\
  table (snd (Add e it w)) =
    (table w ++ [Row (nextId e) n (Descr it) p (storedImg e it)])%list /\
  (forall img data,
     storedImg e it = Some img -> Img_Reader it = Some data ->
     files (snd (Add e it w)) = <[ImgPath img := data]> (files w)) /\
  (storedImg e it = None -> files (snd (Add e it w)) = files w).
Proof.
  intros Hn Hp Himg Hx.
  destruct (AddRun.Add_run e it w n p Hn Hp Himg Hx) as [t ->].
  cbn [fst snd table files]. split; [reflexivity |]. split; [reflexivity |].
  split.
  - intros img data -> ->. reflexivity.
  - intros ->. reflexivity.
Qed.

Lemma Add_stores_witness :
  fst (Add healthy calzone shop) = inl tt /\
  table (snd (Add healthy calzone shop)) =
    (table shop ++
     [Row 3 "calzone" None 900 (Some "20250102_150405_q.png")])%list /\
  files (snd (Add healthy calzone shop)) !! "img/20250102_150405_q.png"
    = Some "NEW".
Proof.
  destruct (Add_stores healthy calzone shop "calzone" 900 eq_refl eq_refl)
    as (H1 & H2 & H3 & _).
  - intros _. split; [discriminate | split; reflexivity].
  - reflexivity.
  - split; [exact H1 |]. split; [exact H2 |].
    rewrite (H3 "20250102_150405_q.png" "NEW" eq_refl eq_refl).
    apply lookup_insert_eq.
Defined.

(** X5. A [Del] that returns an error has changed nothing: the rows of the
    table and the files of the asset directory are as they were before the
    call, whichever of Begin, Query, Scan or Exec failed. *)
Theorem Del_failure_changes_nothing (e : env) (ids : list Z)
  (names : list string) (w : world) (err : error) :
  fst (Del e ids names w) = inr err ->
  table (snd (Del e ids names w)) = table w /\
  files (snd (Del e ids names w)) = files w.
Proof. apply DelRun.Del_failed. Qed.

Lemma Del_failure_changes_nothing_witness :
  table (snd (Del execFails [2] [] shop)) = table shop /\
  files (snd (Del execFails [2] [] shop)) = files shop.
Proof.
  exact (Del_failure_changes_nothing execFails [2] [] shop EDbExec eq_refl).
Defined.

(** X6. After a [Del] that went through, the file of every image of a
    selected row is gone, and every other file of the asset directory is
    as it was. *)
Theorem Del_removes_only_selected_assets (e : env) (ids : list Z)
  (names : list string) (w : world) (p : string) :
  dbBeginOk e = true -> dbQueryOk e = true -> dbScanOk e = true ->
  dbExecOk e = true ->
  (length ids =? 0)%nat && (length names =? 0)%nat = false ->
  (In p (assets ids names (table w)) ->
   files (snd (Del e ids names w)) !! p = None) /\
  (~ In p (assets ids names (table w)) ->
   files (snd (Del e ids names w)) !! p = files w !! p).
Proof. apply DelRun.Del_files. Qed.

Lemma Del_removes_only_selected_assets_witness :
  files (snd (Del healthy [1] [] shop)) !! "img/20240101_000000_p.png"
  = Some "OLD".
Proof.
  destruct (Del_removes_only_selected_assets healthy [1] [] shop
              "img/20240101_000000_p.png"
              eq_refl eq_refl eq_refl eq_refl eq_refl) as [_ H].
  rewrite H; [reflexivity |]. intros [].
Defined.

(** X7. [Mod] without a change of image, naming at least one other column,
    on a database that runs and commits the update: it returns no error;
    every row it addresses (by id when [id >= 0], by name otherwise) gets
    the fields of the update, the fields the update does not name and the
    image staying as they are and an empty description clearing the
    column; every other row and every file is untouched. *)
Theorem Mod_updates_addressed_rows (e : env) (id : Z) (name : string)
  (it : Item) (w : world) :
  Img_Name it = None -> changesSome it = true ->
  dbBeginOk e = true -> dbExecOk e = true -> dbCommitOk e = true ->
  fst (Mod e id name it w) = inl tt /\
  table (snd (Mod e id name it w)) =
    (fun r => if addressed id name r then changed it r else r) <$> table w /\
  files (snd (Mod e id name it w)) = files w.
Proof.
  intros Hn Hsome Hb Hx Hc.
  destruct (ModRun.Mod_run e id name it w Hn Hsome Hb Hx) as [tr ->].
  rewrite Hc. now cbn.
Qed.

Lemma Mod_updates_addressed_rows_witness :
  table (snd (Mod healthy 2 "" (mkItem None None None (Some 1300) None None)
                  shop)) =
  [Row 1 "margherita" None 500 None;
   Row 2 "pepperoni" (Some "hot") 1300 (Some "20240101_000000_p.png")].
Proof.
  exact (proj1 (proj2 (Mod_updates_addressed_rows healthy 2 ""
                         (mkItem None None None (Some 1300) None None) shop
                         eq_refl eq_refl eq_refl eq_refl eq_refl))).
Defined.

(** X8. [Mod] of an item that is not in the table reports success: without
    a change of image and with at least one column named, on a database
    that runs the update, it returns no error and leaves every row as it
    was. *)
Theorem Mod_missing_target_succeeds (e : env) (id : Z) (name : string)
  (it : Item) (w : world) :
  Img_Name it = None -> changesSome it = true ->
  dbBeginOk e = true -> dbExecOk e = true ->
  (forall r, In r (table w) -> addressed id name r = false) ->
  fst (Mod e id name it w) = inl tt /\
  table (snd (Mod e id name it w)) = table w.
Proof.
  intros Hn Hsome Hb Hx Hmiss.
  destruct (ModRun.Mod_run e id name it w Hn Hsome Hb Hx) as [tr ->].
  cbn [fst snd table]. split; [reflexivity |].
  destruct (dbCommitOk e); [| reflexivity].
  induction (table w) as [|r t IH]; [reflexivity |].
  rewrite fmap_cons, (Hmiss r) by now left.
  f_equal. apply IH. intros r' Hr'. apply Hmiss. now right.
Qed.

Lemma Mod_missing_target_succeeds_witness :
  fst (Mod healthy 9 "" (mkItem None None None (Some 1300) None None) shop)
  = inl tt /\
  table (snd (Mod healthy 9 "" (mkItem None None None (Some 1300) None None)
                  shop)) = table shop.
Proof.
  apply (Mod_missing_target_succeeds healthy 9 ""
           (mkItem None None None (Some 1300) None None) shop
           eq_refl eq_refl eq_refl eq_refl).
  intros r [<- | [<- | []]]; reflexivity.
Defined.

(** X9. When the commit fails, [Mod] still returns no error, and the table
    is as it was before the call: the update is lost without a word. *)
Theorem Mod_commit_failure_unreported (e : env) (id : Z) (name : string)
  (it : Item) (w : world) :
  Img_Name it = None -> changesSome it = true ->
  dbBeginOk e = true -> dbExecOk e = true -> dbCommitOk e = false ->
  fst (Mod e id name it w) = inl tt /\
  table (snd (Mod e id name it w)) = table w.
Proof.
  intros Hn Hsome Hb Hx Hc.
  destruct (ModRun.Mod_run e id name it w Hn Hsome Hb Hx) as [tr ->].
  rewrite Hc. now cbn.
Qed.

Lemma Mod_commit_failure_unreported_witness :
  fst (Mod commitFails 2 "" (mkItem None None None (Some 1300) None None)
           shop) = inl tt /\
  table (snd (Mod commitFails 2 ""
                  (mkItem None None None (Some 1300) None None) shop))
  = table shop.
Proof.
  exact (Mod_commit_failure_unreported commitFails 2 ""
           (mkItem None None None (Some 1300) None None) shop
           eq_refl eq_refl eq_refl eq_refl eq_refl).
Defined.

(** X10. Without a change of image [Mod] never touches the asset
    directory: whatever the database answers, every file is as it was. *)
Theorem Mod_without_image_keeps_files (e : env) (id : Z) (name : string)
  (it : Item) (w : world) :
  Img_Name it = None -> files (snd (Mod e id name it w)) = files w.
Proof. apply ModRun.Mod_files. Qed.

Lemma Mod_without_image_keeps_files_witness :
  files (snd (Mod execFails 2 ""
                  (mkItem None (Some "diavola") None None None None) shop))
  = files shop.
Proof.
  exact (Mod_without_image_keeps_files execFails 2 ""
           (mkItem None (Some "diavola") None None None None) shop eq_refl).
Defined.

(** X11. [Mod] with a change of image (a new image that was written, or
    the empty name that clears it) never goes through: the statement that
    asks for the old image has the single placeholder [$n+1], [n >= 1]
    being the number of columns set, but is sent with one argument, so the
    server refuses it; [Mod] returns that error and no row has changed. *)
Theorem Mod_image_change_refused (e : env) (id : Z) (name : string)
  (it : Item) (w : world) (n : string) :
  Img_Name it = Some n -> dbBeginOk e = true ->
  (n <> "" ->
   Img_Reader it <> None /\ osCreateOk e = true /\ ioCopyOk e = true) ->
  fst (Mod e id name it w) = inr EDbParams /\
  table (snd (Mod e id name it w)) = table w.
Proof.
  intros Hn Hb Himg.
  destruct (ModRun.Mod_image e id name it w n Hn Hb Himg) as (f & tr & ->).
  now cbn.
Qed.

Lemma Mod_image_change_refused_witness :
  fst (Mod healthy 2 "" (mkItem None None None None (Some "") None) shop)
  = inr EDbParams /\
  table (snd (Mod healthy 2 "" (mkItem None None None None (Some "") None)
                  shop)) = table shop.
Proof.
  apply (Mod_image_change_refused healthy 2 ""
           (mkItem None None None None (Some "") None) shop "" eq_refl eq_refl).
  intros H. exfalso. now apply H.
Defined.


Import Serve ServeSpec Order PriceSpec PriceCanon.

(** X12. Parsing the text of a price gives the price back: for every count
    of minor units from 0 to the greatest int, [Set] of [String] succeeds
    with that count. *)
Theorem Set_after_String (p : Z) :
  0 <= p <= GoInt.maxInt -> Price.Set_ (Price.String_ p) = inl p.
Proof. apply FormatFacts.Set_String. Qed.

Lemma Set_after_String_witness : Price.Set_ (Price.String_ 1234) = inl 1234.
Proof. apply (Set_after_String 1234). unfold GoInt.maxInt. lia. Defined.

(** X13. For every price but the least int, [String] gives a [-] when the
    price is negative, then an integer part without a leading zero (or a
    lone [0]), one point and exactly two digits, which together count the
    magnitude of the price in minor units. *)
Theorem String_two_decimals (p : Z) :
  GoInt.minInt < p <= GoInt.maxInt ->
  exists ip a b,
    Price.String_ p =
      (if p <? 0 then "-" else "") +:+ ip +:+ String "." (String a (String b ""))
    /\ IntegerPart ip /\ Str.isDigit a = true /\ Str.isDigit b = true /\
    100 * Strconv.digitsVal 0 ip + 10 * Str.digitVal a + Str.digitVal b
      = Z.abs p.
Proof.
  intros Hp.
  destruct (FormatFacts.String_shape p Hp)
    as (ip & fr & E & Hip & (a & b & Ha & Hb & ->) & Hv).
  exists ip, a, b. unfold minorUnits in Hv.
  change (fractionUnits _)
    with (10 * Str.digitVal a + Str.digitVal b) in Hv.
  split; [exact E |]. split; [exact Hip |]. split; [exact Ha |].
  split; [exact Hb |]. rewrite <- Hv. ring.
Qed.

Lemma String_two_decimals_witness :
  exists ip a b,
    Price.String_ (-5) =
      "-" +:+ ip +:+ String "." (String a (String b ""))
    /\ IntegerPart ip /\ Str.isDigit a = true /\ Str.isDigit b = true /\
    100 * Strconv.digitsVal 0 ip + 10 * Str.digitVal a + Str.digitVal b = 5.
Proof.
  apply (String_two_decimals (-5)). unfold GoInt.minInt, GoInt.maxInt. lia.
Defined.

(** X14. The text of a parsed price is the text that was parsed, with its
    fraction filled up to two digits: when [Set] accepts [s] with the
    value [n], [s] is an integer part [ip] followed by a fraction [fr], and
    [String] of [n] is [ip], a point and the two digits of [fr] (["3.5"]
    comes back as ["3.50"], ["3"] as ["3.00"], ["3.25"] as it is). *)
Theorem String_after_Set (s : string) (n : Z) :
  Price.Set_ s = inl n ->
  exists ip fr,
    s = ip +:+ fr /\ IntegerPart ip /\ FractionPart fr /\
    Price.String_ n = ip +:+ "." +:+ twoDigits fr.
Proof.
  intros H. destruct (PriceShape.split s) as [[ip fr]|] eqn:Hs.
  - apply PriceFacts.split_spec in Hs as (-> & Hip & Hfr).
    rewrite (PriceFacts.Set_wellformed ip fr Hip Hfr) in H.
    destruct (minorUnits ip fr <=? GoInt.maxInt); [| discriminate].
    injection H as <-. exists ip, fr.
    split; [reflexivity |]. split; [exact Hip |]. split; [exact Hfr |].
    now apply PriceMore.String_minorUnits.
  - apply PriceFacts.split_None in Hs.
    rewrite (PriceFacts.Set_illformed s Hs) in H. discriminate.
Qed.

Lemma String_after_Set_witness :
  exists ip fr,
    "3.5" = ip +:+ fr /\ IntegerPart ip /\ FractionPart fr /\
    Price.String_ 350 = ip +:+ "." +:+ twoDigits fr.
Proof. apply (String_after_Set "3.5" 350). reflexivity. Defined.

(** X15. A parsed price is never negative: whenever [Set] accepts a text,
    the value is between 0 and the greatest int. *)
Theorem Set_never_negative (s : string) (n : Z) :
  Price.Set_ s = inl n -> 0 <= n <= GoInt.maxInt.
Proof. apply PriceMore.Set_range. Qed.

Lemma Set_never_negative_witness : 0 <= 5 <= GoInt.maxInt.
Proof. apply (Set_never_negative "0.05" 5). reflexivity. Defined.

(** X16. Two prices with the same text are the same price: [String] is
    injective on every int but the least. *)
Theorem String_injective (p q : Z) :
  GoInt.minInt < p <= GoInt.maxInt -> GoInt.minInt < q <= GoInt.maxInt ->
  Price.String_ p = Price.String_ q -> p = q.
Proof. apply PriceMore.String_inj. Qed.

Lemma String_injective_witness : 120 = 120.
Proof.
  apply (String_injective 120 120);
    [unfold GoInt.minInt, GoInt.maxInt; lia ..| reflexivity].
Defined.

(** X17. [stoi] never returns a negative number, whatever the text: its
    number is between 0 and the greatest int, and it is 0 or the greatest
    int whenever there is an error. *)
Theorem stoi_never_negative (s : string) :
  0 <= fst (stoi s) <= GoInt.maxInt /\
  (snd (stoi s) <> None -> fst (stoi s) = 0 \/ fst (stoi s) = GoInt.maxInt).
Proof.
  destruct (StoiMore.stoi_cases s) as [-> | [(n & -> & Hn) | ->]]; cbn [fst snd].
  - split; [unfold GoInt.maxInt; lia | now left].
  - split; [exact Hn | congruence].
  - split; [unfold GoInt.maxInt; lia | now right].
Qed.

(** X18. [stoi] reads back what [strconv.Itoa] writes: for every number
    from 0 to the greatest int it returns that number and no error. *)
Theorem stoi_reads_Itoa (n : Z) :
  0 <= n <= GoInt.maxInt -> stoi (Strconv.Itoa n) = (n, None).
Proof. apply StoiMore.stoi_Itoa. Qed.

Lemma stoi_reads_Itoa_witness : stoi (Strconv.Itoa 42) = (42, None).
Proof. apply (stoi_reads_Itoa 42). unfold GoInt.maxInt. lia. Defined.

(** X19. The ids and the quantities the loop of [handleRoot] collects
    agree: an id is in [ids] exactly when [ordered] has a quantity for it,
    no id is negative, and every quantity is between 1 and 100. *)
Theorem orderLoop_consistent (form : list (string * string)) (id : Z) :
  (In id (fst (orderLoop form)) <->
   exists n, snd (orderLoop form) !! id = Some n) /\
  (In id (fst (orderLoop form)) -> 0 <= id) /\
  (forall n, snd (orderLoop form) !! id = Some n -> 1 <= n <= 100).
Proof.
  split; [apply RootFacts.orderLoop_ids |].
  split; [apply RootFacts.orderLoop_nonneg |].
  intros n. apply OrderFacts.orderLoop_range.
Qed.

(** X20. [handleRoot] only reads: whatever the method, the form and the
    answers of the database, the rows of the table and the files of the
    asset directory are afterwards as they were. *)
Theorem handleRoot_reads_only (e : env) (method : string)
  (form : list (string * string)) (w : world) :
  table (snd (handleRoot e method form w)) = table w /\
  files (snd (handleRoot e method form w)) = files w.
Proof.
  destruct (RootFacts.handleRoot_frame e method form w). now split.
Qed.



(** X22. An order without a valid quantity: on a database that answers the
    query, a POST with the action [order] or [checkout] whose form has no
    valid quantity renders the whole catalogue, every item with the
    quantity 0 and the total [0.00], and the total of the page is the
    delivery alone, [5.00]. *)
Theorem handleRoot_empty_order (e : env) (form : list (string * string))
  (w : world) :
  dbQueryOk e = true -> dbScanOk e = true ->
  String.eqb (FormValue form "action") "order"
  || String.eqb (FormValue form "action") "checkout" = true ->
  fst (orderLoop form) = [] ->
  exists pg rows,
    fst (handleRoot e "POST" form w) = inl (Rendered pg) /\
    rows ≡ₚ table w /\
    Items pg =
      (fun r => mkItem (r_id r) (r_name r)
                       (mkPrice (r_price r) (Price.String_ (r_price r)))
                       0 (mkPrice 0 "0.00")) <$> rows /\
    PageTotal pg = "5.00".
Proof.
  intros Hq Hs Hact Hids.
  pose proof (RootFacts.handleRoot_checkout e form w Hq Hs Hact) as H.
  cbv zeta in H. rewrite Hids in H. unfold ItemSpec.selected in H.
  cbn [length Nat.eqb andb] in H.
  assert (Hnone : forall id, snd (orderLoop form) !! id = None).
  { intros id. destruct (snd (orderLoop form) !! id) as [n|] eqn:Hn;
      [| reflexivity].
    assert (Hin : In id (fst (orderLoop form)))
      by (apply RootFacts.orderLoop_ids; now exists n).
    rewrite Hids in Hin. destruct Hin. }
  set (rows := ItemSpec.inOrder e ItemUtil.ByName (table w)) in *.
  assert (Hline : forall r,
            line (snd (orderLoop form)) (pageItem r) =
            mkItem (r_id r) (r_name r)
                   (mkPrice (r_price r) (Price.String_ (r_price r)))
                   0 (mkPrice 0 "0.00")).
  { intros r. unfold line, quantity, pageItem. cbn [ID Name Price Num].
    rewrite Hnone. cbn [default]. unfold GoInt.mul.
    rewrite Z.mul_0_r. reflexivity. }
  assert (Hitems : line (snd (orderLoop form)) <$> (pageItem <$> rows) =
                   (fun r => mkItem (r_id r) (r_name r)
                       (mkPrice (r_price r) (Price.String_ (r_price r)))
                       0 (mkPrice 0 "0.00")) <$> rows).
  { rewrite <- list_fmap_compose. apply list_fmap_ext.
    intros i r _. apply Hline. }
  rewrite Hitems in H.
  eexists _, rows. split; [exact H |].
  split; [apply GetFacts.inOrder_perm |].
  split; [reflexivity |]. cbn [PageTotal].
  rewrite RootFacts.sumZ_zero; [reflexivity |].
  intros x Hx. unfold lineTotals in Hx.
  apply in_map_iff in Hx as (it & <- & Hit).
  apply in_map_iff in Hit as (r & <- & _). reflexivity.
Qed.

Lemma handleRoot_empty_order_witness :
  exists pg rows,
    fst (handleRoot Scenario.healthy "POST"
           [("action", "checkout"); ("1", "0"); ("2", "101")] Scenario.shop)
    = inl (Rendered pg) /\
    rows ≡ₚ table Scenario.shop /\
    Items pg =
      (fun r => mkItem (r_id r) (r_name r)
                       (mkPrice (r_price r) (Price.String_ (r_price r)))
                       0 (mkPrice 0 "0.00")) <$> rows /\
    PageTotal pg = "5.00".
Proof.
  apply (handleRoot_empty_order Scenario.healthy
           [("action", "checkout"); ("1", "0"); ("2", "101")] Scenario.shop);
    [reflexivity | reflexivity | reflexivity | vm_compute; reflexivity].
Defined.


Import ItemArg ItemCmd Bytes.

(** X23. [ParseItem] reads the numeral of an id as that id: for every
    number from 0 to the greatest int, the text [strconv.Itoa] writes of
    it is parsed to that id, the empty name and no error. *)
Theorem ParseItem_reads_Itoa (n : Z) :
  0 <= n <= GoInt.maxInt -> ParseItem (Strconv.Itoa n) = (n, "", None).
Proof. apply ArgFacts.ParseItem_Itoa. Qed.

Lemma ParseItem_reads_Itoa_witness :
  ParseItem (Strconv.Itoa 7) = (7, "", None).
Proof. apply (ParseItem_reads_Itoa 7). unfold GoInt.maxInt. lia. Defined.

(** X24. [ParseItem] and names: whatever follows [name:] is the name, also
    when it looks like a number; and a text that neither starts with a
    digit or a sign nor has [name:] before it is taken as the name as it
    is. In both cases the id is -1 and there is no error. *)
Theorem ParseItem_names (s item : string) :
  ParseItem ("name:" +:+ s) = (-1, s, None) /\
  ((forall suf, item <> "name:" +:+ suf) ->
   match item with
   | String c _ => Str.isDigit c = false /\ c <> "+"%char /\ c <> "-"%char
   | EmptyString => True
   end ->
   ParseItem item = (-1, item, None)).
Proof. split; [reflexivity | apply ArgMore.ParseItem_plain]. Qed.

Lemma ParseItem_names_witness :
  ParseItem "name:42" = (-1, "42", None) /\
  ParseItem "calzone" = (-1, "calzone", None).
Proof.
  destruct (ParseItem_names "42" "calzone") as [H1 H2].
  split; [exact H1 |]. apply H2.
  - intros suf H. discriminate H.
  - repeat split; discriminate.
Defined.

(** X25. [cmdDel] hands its arguments to [Del] as keys: given the numerals
    of ids that are not negative, followed by names written after
    [name:], and a connection, it ends as [Del] of these ids and these
    names ends, with the world [Del] leaves. *)
Theorem cmdDel_deletes_keys (e : env) (cmd : string) (ids : list Z)
  (names : list string) (w : world) :
  (forall n, In n ids -> 0 <= n <= GoInt.maxInt) ->
  cmdDel e true
    (cmd :: (Strconv.Itoa <$> ids) ++ ((fun s => "name:" +:+ s) <$> names)) w
  = match Del e ids names w with
    | (inl _, w') => (inl tt, w')
    | (inr err, w') => (inr (DiedCall err), w')
    end.
Proof. apply ArgMore.cmdDel_keys. Qed.

Lemma cmdDel_deletes_keys_witness :
  table (snd (cmdDel healthy true ["del"; "2"; "name:margherita"] shop)) = [].
Proof.
  change ["del"; "2"; "name:margherita"]
    with ("del" :: (Strconv.Itoa <$> [2]) ++
                   ((fun s => "name:" +:+ s) <$> ["margherita"])).
  rewrite (cmdDel_deletes_keys healthy "del" [2] ["margherita"] shop).
  - reflexivity.
  - intros n [<- | []]. unfold GoInt.maxInt. lia.
Defined.

(** X26. [copyImg] writes inside [img/] only: when the time stamp has no
    slash and the name of the upload is not made of slashes alone, the
    name it generates has no slash, whatever directories the name of the
    upload goes through, and no file but [img/<generated name>] is
    created, changed or removed, whether the call succeeds or fails. *)
Theorem copyImg_stays_in_img (e : env) (name : string) :
  contains "/" (now e) = false -> Path.Base name <> "/" ->
  let img := now e +:+ "_" +:+ Path.Base name in
  contains "/" img = false /\
  forall r w,
    (forall got, fst (copyImg e name r w) = inl got -> got = img) /\
    (forall p, p <> "img/" +:+ img ->
               files (snd (copyImg e name r w)) !! p = files w !! p).
Proof.
  intros Hnow Hbase. cbv zeta. split.
  - rewrite !ImgFacts.contains_append, Hnow.
    destruct (ImgFacts.Base_slash name) as [H | ->]; [contradiction |].
    reflexivity.
  - intros r w. split.
    + intros got. apply ImgFacts.copyImg_name.
    + intros p Hp. now apply ImgFacts.copyImg_frame.
Qed.

Lemma copyImg_stays_in_img_witness :
  contains "/" "20250102_150405_passwd" = false /\
  files (snd (copyImg healthy "../../etc/passwd" (Some "x") shop))
    !! "etc/passwd" = None.
Proof.
  destruct (copyImg_stays_in_img healthy "../../etc/passwd") as [H1 H2].
  - reflexivity.
  - discriminate.
  - split; [exact H1 |].
    destruct (H2 (Some "x") shop) as [_ H3]. rewrite H3; [reflexivity |].
    discriminate.
Defined.

(** X27. [ItemMod] of the package [util] without a field to change does
    nothing: no file is written, no statement is sent, the world is as it
    was, and it returns no error, unless [strconv.Atoi] answers the item
    with a range error (its digits overflow 64 bits, whatever follows
    them), which [ItemMod] returns. *)
Theorem ItemMod_without_change_does_nothing (e : env) (item : string)
  (img_name : string) (w : world) :
  Util.ItemMod e item (Util.mkItem None None img_name None None) w =
  (inl (match Strconv.Atoi item with
        | (_, Some Strconv.ErrRange) => Some Strconv.ErrRange
        | _ => None
        end), w).
Proof. apply ItemModFacts.ItemMod_nothing. Qed.

(** X28. When [ItemMod] of the package [util] has written a new image and
    then fails, it has removed that image again: the table is as it was
    and the asset directory is as it was but for the file of the new
    image, which is not there. *)
Theorem ItemMod_failure_removes_new_image (e : env) (item : string)
  (i : Util.Item) (w : world) (data : string) (err : error) :
  Util.Img_File i = Some data -> osCreateOk e = true -> ioCopyOk e = true ->
  fst (Util.ItemMod e item i w) = inr err ->
  let path := ImgPath (now e +:+ "_" +:+ Path.Base (Util.Img_Name i)) in
  table (snd (Util.ItemMod e item i w)) = table w /\
  files (snd (Util.ItemMod e item i w)) = delete path (files w).
Proof. apply ItemModFacts.ItemMod_failed. Qed.

Lemma ItemMod_failure_removes_new_image_witness :
  table (snd (Util.ItemMod execFails "2"
                (Util.mkItem None None "q.png" (Some "NEW") None) shop))
  = table shop /\
  files (snd (Util.ItemMod execFails "2"
                (Util.mkItem None None "q.png" (Some "NEW") None) shop))
  = delete "img/20250102_150405_q.png" (files shop).
Proof.
  exact (ItemMod_failure_removes_new_image execFails "2"
           (Util.mkItem None None "q.png" (Some "NEW") None) shop "NEW"
           EDbExec eq_refl eq_refl eq_refl eq_refl).
Defined.

(** X29. The forms of the administration are checked before anything is
    done: [itemAdd] with an empty name, a file that [formGetFile] refuses
    or a price that [Price.Set] refuses, and [itemDel] with an id that
    [strconv.Atoi] refuses, answer with a status other than 200 and leave
    the world as it was: no file is written and no statement is sent. *)
Theorem admin_forms_checked_first (e : env) (form : list (string * string))
  (image : Admin.formFile) (w : world) :
  (Serve.FormValue form "name" = "" \/
   (exists code, image = Admin.BadFile code) \/
   (exists err, Price.Set_ (Serve.FormValue form "price") = inr err) ->
   snd (Admin.itemAdd e form image w) = w /\
   fst (fst (Admin.itemAdd e form image w)) <> Admin.StatusOK) /\
  (snd (Strconv.Atoi (Serve.FormValue form "id")) <> None ->
   Admin.itemDel e form w =
   ((Admin.StatusBadRequest, Some Admin.ErrBadID), w)).
Proof.
  split; [apply AdminFacts.itemAdd_refused |].
  destruct (Strconv.Atoi (Serve.FormValue form "id")) as [x [err|]] eqn:H;
    [| intros C; now destruct C].
  intros _. eapply AdminFacts.itemDel_refused, H.
Qed.

Lemma admin_forms_checked_first_witness :
  snd (Admin.itemAdd healthy [("name", "calzone"); ("price", "-1")]
         Admin.NoFile shop) = shop /\
  Admin.itemDel healthy [("id", "two")] shop =
  ((Admin.StatusBadRequest, Some Admin.ErrBadID), shop).
Proof.
  destruct (admin_forms_checked_first healthy
              [("name", "calzone"); ("price", "-1"); ("id", "two")]
              Admin.NoFile shop) as [H1 H2].
  split.
  - apply H1. right; right. now eexists.
  - apply H2. discriminate.
Defined.

(** X30. [itemAdd] with a valid form adds the item: with a name, a price
    that [Price.Set] accepts and a file that [formGetFile] does not
    refuse, on a system that writes the file and runs the insert, it
    answers 200 and the table has one more row with the name, the parsed
    price, which is not negative, the description (none when the field is
    empty) and the generated name of the image. *)
Theorem itemAdd_adds_row (e : env) (form : list (string * string))
  (image : Admin.formFile) (w : world) (p : Z) :
  Serve.FormValue form "name" <> "" ->
  Price.Set_ (Serve.FormValue form "price") = inl p ->
  (forall code, image <> Admin.BadFile code) ->
  (image <> Admin.NoFile -> osCreateOk e = true /\ ioCopyOk e = true) ->
  dbExecOk e = true ->
  0 <= p /\
  fst (Admin.itemAdd e form image w) = (Admin.StatusOK, None) /\
  table (snd (Admin.itemAdd e form image w)) =
    (table w ++
     [Row (nextId e) (Serve.FormValue form "name")
          (Admin.nonEmpty (Serve.FormValue form "descr")) p
          (match image with
           | Admin.File filename _ =>
               Some (now e +:+ "_" +:+ Path.Base filename)
           | _ => None
           end)])%list.
Proof.
  intros Hn Hp Himg Hio Hx.
  split; [apply (PriceMore.Set_range _ _ Hp) |].
  now apply AdminFacts.itemAdd_added.
Qed.

Lemma itemAdd_adds_row_witness :
  fst (Admin.itemAdd healthy [("name", "calzone"); ("price", "9.5")]
         Admin.NoFile shop) = (Admin.StatusOK, None) /\
  table (snd (Admin.itemAdd healthy [("name", "calzone"); ("price", "9.5")]
                Admin.NoFile shop)) =
    (table shop ++ [Row 3 "calzone" None 950 None])%list.
Proof.
  destruct (itemAdd_adds_row healthy [("name", "calzone"); ("price", "9.5")]
              Admin.NoFile shop 950) as (_ & H1 & H2).
  - discriminate.
  - reflexivity.
  - discriminate.
  - intros H. now destruct H.
  - reflexivity.
  - split; [exact H1 | exact H2].
Defined.

End Extras.
